(** * The Healer daemon: session-graph manager and worker supervisor

    A shallow embedding of [healer_daemon.py] (class [HealerDaemon]) and of
    the data model of [database.py].

    - Rows are records, tables are lists of rows in insertion order.
    - [db_session] is a unit of work with a working copy ([db]) and the
      last committed copy ([saved]): [commit] publishes the working copy,
      [rollback] discards it.  A lookup by primary key returns the object
      of the working copy; the session is created with autoflush off, so a
      query with criteria evaluates them on the committed rows and hands
      back the objects of the working copy.
    - Handlers run in a state-and-exception monad over the daemon object.
    - [datetime.utcnow()] reads a clock [utc] that is part of the state:
      the n-th reading is [utc n], in microseconds since [datetime.min];
      [timedelta(minutes=...)] and the addition of a timedelta raise
      OverflowError as they do in Python.
    - [multiprocessing.Process.start()] hands out the next process id and
      is taken to succeed; the worker's own writes (its exit status) are
      steps of the environment and not part of a handler.
    - The columns [created_at] and [last_updated] are not modelled. *)

From stdpp Require Import gmap strings list pretty.

Open Scope Z_scope.

(** ** database.py: enumerations *)

Module SessionType.
Inductive t := IC_SESSION | REQUEST_SESSION | AVATAR_LINK | GROUP_IC_SESSION.

#[global] Instance type_eq_dec : EqDecision t.
Proof. solve_decision. Defined.

Definition value (k : t) : string :=
  match k with
  | IC_SESSION => "ic_session"
  | REQUEST_SESSION => "request_session"
  | AVATAR_LINK => "avatar_link"
  | GROUP_IC_SESSION => "group_ic_session"
  end.
End SessionType.

Module SessionStatus.
Inductive t := SCHEDULED | RUNNING | COMPLETED | STOPPED | FAILED | RESTARTED.

#[global] Instance status_eq_dec : EqDecision t.
Proof. solve_decision. Defined.

(** The terminal statuses of the specification. *)
Definition terminal (st : t) : bool :=
  match st with
  | COMPLETED | STOPPED | FAILED | RESTARTED => true
  | SCHEDULED | RUNNING => false
  end.
End SessionStatus.

(** ** database.py: rows *)

Definition bytes := list Byte.byte.

(** [str.encode('utf-8')]: the strings of the model are byte strings. *)
Definition encode (s : string) : bytes := String.list_byte_of_string s.

Module Avatar.
Record t := { id : Z; name : string; photo_data : bytes; info_data : string }.
End Avatar.

Module InformationCopy.
Record t := { id : Z; name : string; wav_data : bytes }.
End InformationCopy.

Module Request.
Record t := { id : Z; name : string; request_data : string }.
End Request.

Module AvatarGroup.
Record t := { id : Z; name : string }.
End AvatarGroup.

Module AvatarGroupMember.
Record t := { group_id : Z; avatar_id : Z }.
End AvatarGroupMember.

Module ICGroup.
Record t := { id : Z; name : string }.
End ICGroup.

Module ICGroupMember.
Record t := { group_id : Z; ic_id : Z }.
End ICGroupMember.

Module RequestGroup.
Record t := { id : Z; name : string }.
End RequestGroup.

Module RequestGroupMember.
Record t := { group_id : Z; request_id : Z }.
End RequestGroupMember.

Module Session.
Record t := {
  id : Z;
  parent_session_id : option Z;
  is_group_session : bool;
  description : option string;
  avatar_id : option Z;
  ic_id : option Z;
  request_id : option Z;
  destination_avatar_id : option Z;
  avatar_group_id : option Z;
  ic_group_id : option Z;
  request_group_id : option Z;
  session_type : SessionType.t;
  start_time : Z;
  end_time : option Z;
  status : SessionStatus.t;
  worker_pid : option Z
}.

(** A transient object [Session(...)]: every column that the constructor
    call does not name keeps its default, and the primary key is given
    at flush. *)
Definition new (kind : SessionType.t) (start : Z) (stop : option Z)
    (st : SessionStatus.t) : t :=
  {| id := 0; parent_session_id := None; is_group_session := false;
     description := None; avatar_id := None; ic_id := None;
     request_id := None; destination_avatar_id := None;
     avatar_group_id := None; ic_group_id := None;
     request_group_id := None; session_type := kind;
     start_time := start; end_time := stop; status := st;
     worker_pid := None |}.

Definition set_id (v : Z) (s : t) : t :=
  {| id := v; parent_session_id := parent_session_id s;
     is_group_session := is_group_session s; description := description s;
     avatar_id := avatar_id s; ic_id := ic_id s; request_id := request_id s;
     destination_avatar_id := destination_avatar_id s;
     avatar_group_id := avatar_group_id s; ic_group_id := ic_group_id s;
     request_group_id := request_group_id s; session_type := session_type s;
     start_time := start_time s; end_time := end_time s; status := status s;
     worker_pid := worker_pid s |}.

Definition set_parent_session_id (v : option Z) (s : t) : t :=
  {| id := id s; parent_session_id := v;
     is_group_session := is_group_session s; description := description s;
     avatar_id := avatar_id s; ic_id := ic_id s; request_id := request_id s;
     destination_avatar_id := destination_avatar_id s;
     avatar_group_id := avatar_group_id s; ic_group_id := ic_group_id s;
     request_group_id := request_group_id s; session_type := session_type s;
     start_time := start_time s; end_time := end_time s; status := status s;
     worker_pid := worker_pid s |}.

Definition set_is_group_session (v : bool) (s : t) : t :=
  {| id := id s; parent_session_id := parent_session_id s;
     is_group_session := v; description := description s;
     avatar_id := avatar_id s; ic_id := ic_id s; request_id := request_id s;
     destination_avatar_id := destination_avatar_id s;
     avatar_group_id := avatar_group_id s; ic_group_id := ic_group_id s;
     request_group_id := request_group_id s; session_type := session_type s;
     start_time := start_time s; end_time := end_time s; status := status s;
     worker_pid := worker_pid s |}.

Definition set_description (v : option string) (s : t) : t :=
  {| id := id s; parent_session_id := parent_session_id s;
     is_group_session := is_group_session s; description := v;
     avatar_id := avatar_id s; ic_id := ic_id s; request_id := request_id s;
     destination_avatar_id := destination_avatar_id s;
     avatar_group_id := avatar_group_id s; ic_group_id := ic_group_id s;
     request_group_id := request_group_id s; session_type := session_type s;
     start_time := start_time s; end_time := end_time s; status := status s;
     worker_pid := worker_pid s |}.

Definition set_avatar_id (v : option Z) (s : t) : t :=
  {| id := id s; parent_session_id := parent_session_id s;
     is_group_session := is_group_session s; description := description s;
     avatar_id := v; ic_id := ic_id s; request_id := request_id s;
     destination_avatar_id := destination_avatar_id s;
     avatar_group_id := avatar_group_id s; ic_group_id := ic_group_id s;
     request_group_id := request_group_id s; session_type := session_type s;
     start_time := start_time s; end_time := end_time s; status := status s;
     worker_pid := worker_pid s |}.

Definition set_ic_id (v : option Z) (s : t) : t :=
  {| id := id s; parent_session_id := parent_session_id s;
     is_group_session := is_group_session s; description := description s;
     avatar_id := avatar_id s; ic_id := v; request_id := request_id s;
     destination_avatar_id := destination_avatar_id s;
     avatar_group_id := avatar_group_id s; ic_group_id := ic_group_id s;
     request_group_id := request_group_id s; session_type := session_type s;
     start_time := start_time s; end_time := end_time s; status := status s;
     worker_pid := worker_pid s |}.

Definition set_request_id (v : option Z) (s : t) : t :=
  {| id := id s; parent_session_id := parent_session_id s;
     is_group_session := is_group_session s; description := description s;
     avatar_id := avatar_id s; ic_id := ic_id s; request_id := v;
     destination_avatar_id := destination_avatar_id s;
     avatar_group_id := avatar_group_id s; ic_group_id := ic_group_id s;
     request_group_id := request_group_id s; session_type := session_type s;
     start_time := start_time s; end_time := end_time s; status := status s;
     worker_pid := worker_pid s |}.

Definition set_destination_avatar_id (v : option Z) (s : t) : t :=
  {| id := id s; parent_session_id := parent_session_id s;
     is_group_session := is_group_session s; description := description s;
     avatar_id := avatar_id s; ic_id := ic_id s; request_id := request_id s;
     destination_avatar_id := v;
     avatar_group_id := avatar_group_id s; ic_group_id := ic_group_id s;
     request_group_id := request_group_id s; session_type := session_type s;
     start_time := start_time s; end_time := end_time s; status := status s;
     worker_pid := worker_pid s |}.

Definition set_avatar_group_id (v : option Z) (s : t) : t :=
  {| id := id s; parent_session_id := parent_session_id s;
     is_group_session := is_group_session s; description := description s;
     avatar_id := avatar_id s; ic_id := ic_id s; request_id := request_id s;
     destination_avatar_id := destination_avatar_id s;
     avatar_group_id := v; ic_group_id := ic_group_id s;
     request_group_id := request_group_id s; session_type := session_type s;
     start_time := start_time s; end_time := end_time s; status := status s;
     worker_pid := worker_pid s |}.

Definition set_ic_group_id (v : option Z) (s : t) : t :=
  {| id := id s; parent_session_id := parent_session_id s;
     is_group_session := is_group_session s; description := description s;
     avatar_id := avatar_id s; ic_id := ic_id s; request_id := request_id s;
     destination_avatar_id := destination_avatar_id s;
     avatar_group_id := avatar_group_id s; ic_group_id := v;
     request_group_id := request_group_id s; session_type := session_type s;
     start_time := start_time s; end_time := end_time s; status := status s;
     worker_pid := worker_pid s |}.

Definition set_request_group_id (v : option Z) (s : t) : t :=
  {| id := id s; parent_session_id := parent_session_id s;
     is_group_session := is_group_session s; description := description s;
     avatar_id := avatar_id s; ic_id := ic_id s; request_id := request_id s;
     destination_avatar_id := destination_avatar_id s;
     avatar_group_id := avatar_group_id s; ic_group_id := ic_group_id s;
     request_group_id := v; session_type := session_type s;
     start_time := start_time s; end_time := end_time s; status := status s;
     worker_pid := worker_pid s |}.

Definition set_status (v : SessionStatus.t) (s : t) : t :=
  {| id := id s; parent_session_id := parent_session_id s;
     is_group_session := is_group_session s; description := description s;
     avatar_id := avatar_id s; ic_id := ic_id s; request_id := request_id s;
     destination_avatar_id := destination_avatar_id s;
     avatar_group_id := avatar_group_id s; ic_group_id := ic_group_id s;
     request_group_id := request_group_id s; session_type := session_type s;
     start_time := start_time s; end_time := end_time s; status := v;
     worker_pid := worker_pid s |}.

Definition set_worker_pid (v : option Z) (s : t) : t :=
  {| id := id s; parent_session_id := parent_session_id s;
     is_group_session := is_group_session s; description := description s;
     avatar_id := avatar_id s; ic_id := ic_id s; request_id := request_id s;
     destination_avatar_id := destination_avatar_id s;
     avatar_group_id := avatar_group_id s; ic_group_id := ic_group_id s;
     request_group_id := request_group_id s; session_type := session_type s;
     start_time := start_time s; end_time := end_time s; status := status s;
     worker_pid := v |}.
End Session.

(** ** The relational store *)

Record Store := {
  avatars : list Avatar.t;
  information_copies : list InformationCopy.t;
  requests : list Request.t;
  avatar_groups : list AvatarGroup.t;
  avatar_group_members : list AvatarGroupMember.t;
  ic_groups : list ICGroup.t;
  ic_group_members : list ICGroupMember.t;
  request_groups : list RequestGroup.t;
  request_group_members : list RequestGroupMember.t;
  sessions : list Session.t
}.

Definition with_avatars (f : list Avatar.t → list Avatar.t) (st : Store) : Store :=
  {| avatars := f (avatars st); information_copies := information_copies st;
     requests := requests st; avatar_groups := avatar_groups st;
     avatar_group_members := avatar_group_members st;
     ic_groups := ic_groups st; ic_group_members := ic_group_members st;
     request_groups := request_groups st;
     request_group_members := request_group_members st;
     sessions := sessions st |}.

Definition with_avatar_groups (f : list AvatarGroup.t → list AvatarGroup.t)
    (st : Store) : Store :=
  {| avatars := avatars st; information_copies := information_copies st;
     requests := requests st; avatar_groups := f (avatar_groups st);
     avatar_group_members := avatar_group_members st;
     ic_groups := ic_groups st; ic_group_members := ic_group_members st;
     request_groups := request_groups st;
     request_group_members := request_group_members st;
     sessions := sessions st |}.

Definition with_avatar_group_members
    (f : list AvatarGroupMember.t → list AvatarGroupMember.t) (st : Store) : Store :=
  {| avatars := avatars st; information_copies := information_copies st;
     requests := requests st; avatar_groups := avatar_groups st;
     avatar_group_members := f (avatar_group_members st);
     ic_groups := ic_groups st; ic_group_members := ic_group_members st;
     request_groups := request_groups st;
     request_group_members := request_group_members st;
     sessions := sessions st |}.

Definition with_ic_groups (f : list ICGroup.t → list ICGroup.t) (st : Store) : Store :=
  {| avatars := avatars st; information_copies := information_copies st;
     requests := requests st; avatar_groups := avatar_groups st;
     avatar_group_members := avatar_group_members st;
     ic_groups := f (ic_groups st); ic_group_members := ic_group_members st;
     request_groups := request_groups st;
     request_group_members := request_group_members st;
     sessions := sessions st |}.

Definition with_ic_group_members
    (f : list ICGroupMember.t → list ICGroupMember.t) (st : Store) : Store :=
  {| avatars := avatars st; information_copies := information_copies st;
     requests := requests st; avatar_groups := avatar_groups st;
     avatar_group_members := avatar_group_members st;
     ic_groups := ic_groups st; ic_group_members := f (ic_group_members st);
     request_groups := request_groups st;
     request_group_members := request_group_members st;
     sessions := sessions st |}.

Definition with_request_groups (f : list RequestGroup.t → list RequestGroup.t)
    (st : Store) : Store :=
  {| avatars := avatars st; information_copies := information_copies st;
     requests := requests st; avatar_groups := avatar_groups st;
     avatar_group_members := avatar_group_members st;
     ic_groups := ic_groups st; ic_group_members := ic_group_members st;
     request_groups := f (request_groups st);
     request_group_members := request_group_members st;
     sessions := sessions st |}.

Definition with_request_group_members
    (f : list RequestGroupMember.t → list RequestGroupMember.t) (st : Store) : Store :=
  {| avatars := avatars st; information_copies := information_copies st;
     requests := requests st; avatar_groups := avatar_groups st;
     avatar_group_members := avatar_group_members st;
     ic_groups := ic_groups st; ic_group_members := ic_group_members st;
     request_groups := request_groups st;
     request_group_members := f (request_group_members st);
     sessions := sessions st |}.

Definition with_sessions (f : list Session.t → list Session.t) (st : Store) : Store :=
  {| avatars := avatars st; information_copies := information_copies st;
     requests := requests st; avatar_groups := avatar_groups st;
     avatar_group_members := avatar_group_members st;
     ic_groups := ic_groups st; ic_group_members := ic_group_members st;
     request_groups := request_groups st;
     request_group_members := request_group_members st;
     sessions := f (sessions st) |}.

(** ** The daemon object *)

Record HealerDaemon := {
  db : Store;                      (* db_session: working copy *)
  saved : Store;                   (* db_session: last commit *)
  next_session_id : Z;             (* the sequence behind sessions.id *)
  ic_cache : gmap Z bytes;
  avatar_cache : gmap Z bytes;
  request_cache : gmap Z bytes;
  active_workers : gmap Z Z;       (* session id ↦ pid of its process *)
  live : gset Z;                   (* pids for which is_alive() holds *)
  next_pid : Z;
  utc : nat → Z;                   (* the readings of the clock *)
  reads : nat                      (* how many readings were taken *)
}.

Definition with_db (f : Store → Store) (d : HealerDaemon) : HealerDaemon :=
  {| db := f (db d); saved := saved d; next_session_id := next_session_id d;
     ic_cache := ic_cache d; avatar_cache := avatar_cache d;
     request_cache := request_cache d; active_workers := active_workers d;
     live := live d; next_pid := next_pid d; utc := utc d; reads := reads d |}.

Definition with_saved (st : Store) (d : HealerDaemon) : HealerDaemon :=
  {| db := db d; saved := st; next_session_id := next_session_id d;
     ic_cache := ic_cache d; avatar_cache := avatar_cache d;
     request_cache := request_cache d; active_workers := active_workers d;
     live := live d; next_pid := next_pid d; utc := utc d; reads := reads d |}.

Definition with_next_session_id (v : Z) (d : HealerDaemon) : HealerDaemon :=
  {| db := db d; saved := saved d; next_session_id := v;
     ic_cache := ic_cache d; avatar_cache := avatar_cache d;
     request_cache := request_cache d; active_workers := active_workers d;
     live := live d; next_pid := next_pid d; utc := utc d; reads := reads d |}.

Definition with_ic_cache (f : gmap Z bytes → gmap Z bytes) (d : HealerDaemon)
    : HealerDaemon :=
  {| db := db d; saved := saved d; next_session_id := next_session_id d;
     ic_cache := f (ic_cache d); avatar_cache := avatar_cache d;
     request_cache := request_cache d; active_workers := active_workers d;
     live := live d; next_pid := next_pid d; utc := utc d; reads := reads d |}.

Definition with_avatar_cache (f : gmap Z bytes → gmap Z bytes) (d : HealerDaemon)
    : HealerDaemon :=
  {| db := db d; saved := saved d; next_session_id := next_session_id d;
     ic_cache := ic_cache d; avatar_cache := f (avatar_cache d);
     request_cache := request_cache d; active_workers := active_workers d;
     live := live d; next_pid := next_pid d; utc := utc d; reads := reads d |}.

Definition with_request_cache (f : gmap Z bytes → gmap Z bytes) (d : HealerDaemon)
    : HealerDaemon :=
  {| db := db d; saved := saved d; next_session_id := next_session_id d;
     ic_cache := ic_cache d; avatar_cache := avatar_cache d;
     request_cache := f (request_cache d); active_workers := active_workers d;
     live := live d; next_pid := next_pid d; utc := utc d; reads := reads d |}.

Definition with_active_workers (f : gmap Z Z → gmap Z Z) (d : HealerDaemon)
    : HealerDaemon :=
  {| db := db d; saved := saved d; next_session_id := next_session_id d;
     ic_cache := ic_cache d; avatar_cache := avatar_cache d;
     request_cache := request_cache d; active_workers := f (active_workers d);
     live := live d; next_pid := next_pid d; utc := utc d; reads := reads d |}.

Definition with_live (f : gset Z → gset Z) (d : HealerDaemon) : HealerDaemon :=
  {| db := db d; saved := saved d; next_session_id := next_session_id d;
     ic_cache := ic_cache d; avatar_cache := avatar_cache d;
     request_cache := request_cache d; active_workers := active_workers d;
     live := f (live d); next_pid := next_pid d; utc := utc d; reads := reads d |}.

Definition with_next_pid (v : Z) (d : HealerDaemon) : HealerDaemon :=
  {| db := db d; saved := saved d; next_session_id := next_session_id d;
     ic_cache := ic_cache d; avatar_cache := avatar_cache d;
     request_cache := request_cache d; active_workers := active_workers d;
     live := live d; next_pid := v; utc := utc d; reads := reads d |}.

Definition with_reads (v : nat) (d : HealerDaemon) : HealerDaemon :=
  {| db := db d; saved := saved d; next_session_id := next_session_id d;
     ic_cache := ic_cache d; avatar_cache := avatar_cache d;
     request_cache := request_cache d; active_workers := active_workers d;
     live := live d; next_pid := next_pid d; utc := utc d; reads := v |}.

(** ** Handlers as state-and-exception computations *)

Inductive Res (A : Type) : Type :=
| Ok (a : A)
| Raise (e : string).
Arguments Ok {A} a.
Arguments Raise {A} e.

(** A computation runs on the daemon object and either returns a value or
    raises; [Raise e] carries [str(e)].  The state reached when the
    exception is raised is kept: what was written before stays written. *)
Definition M (A : Type) : Type := HealerDaemon → Res A * HealerDaemon.

#[global] Instance M_ret : MRet M := λ A a d, (Ok a, d).

#[global] Instance M_bind : MBind M := λ A B f m d,
  match m d with
  | (Ok a, d') => f a d'
  | (Raise e, d') => (Raise e, d')
  end.

Definition raise {A} (e : string) : M A := λ d, (Raise e, d).
Definition gets {A} (f : HealerDaemon → A) : M A := λ d, (Ok (f d), d).
Definition modify (f : HealerDaemon → HealerDaemon) : M unit := λ d, (Ok tt, f d).

(** [try: m except Exception as e: h e] *)
Definition try_except {A} (m : M A) (h : string → M A) : M A := λ d,
  match m d with
  | (Ok a, d') => (Ok a, d')
  | (Raise e, d') => h e d'
  end.

(** [for x in xs: body x] *)
Fixpoint for_each {A} (xs : list A) (body : A → M unit) : M unit :=
  match xs with
  | [] => mret tt
  | x :: xs' => body x ;; for_each xs' body
  end.

(** A loop that also updates a local variable (a counter). *)
Fixpoint for_acc {A S} (xs : list A) (acc : S) (body : A → S → M S) : M S :=
  match xs with
  | [] => mret acc
  | x :: xs' => acc' ← body x acc; for_acc xs' acc' body
  end.

(** *** Python values *)

(** Truth value of an optional integer or string, as [if v:] takes it. *)
Definition truthy_int (v : option Z) : option Z :=
  match v with
  | Some n => if bool_decide (n = 0) then None else Some n
  | None => None
  end.

Definition truthy_str (v : option string) : option string :=
  match v with
  | Some s => if bool_decide (s = "") then None else Some s
  | None => None
  end.

(** [str(v)] for an optional value. *)
Definition str_int (v : option Z) : string :=
  match v with Some n => pretty n | None => "None" end.

Definition str_opt (v : option string) : string :=
  match v with Some s => s | None => "None" end.

(** [data[key]] *)
Definition index {A} (key : string) (v : option A) : M A :=
  match v with
  | Some a => mret a
  | None => raise ("'" +:+ key +:+ "'")
  end.

(** [obj.attr] on a value that may be [None]. *)
Definition attr {A B} (name : string) (f : A → B) (obj : option A) : M B :=
  match obj with
  | Some a => mret (f a)
  | None => raise ("'NoneType' object has no attribute '" +:+ name +:+ "'")
  end.

(** [a == b] on a nullable column: NULL equals nothing. *)
Definition is_ (col : option Z) (v : Z) : bool := bool_decide (col = Some v).

(** [col.in_(vs)] *)
Definition in_ (col : option Z) (vs : list Z) : bool :=
  match col with
  | Some v => bool_decide (v ∈ vs)
  | None => false
  end.

(** *** The unit of work *)

Definition utcnow : M Z := λ d, (Ok (utc d (reads d)), with_reads (S (reads d)) d).

Definition commit : M unit := modify (λ d, with_saved (db d) d).
Definition rollback : M unit := modify (λ d, with_db (λ _, saved d) d).

(** [db_session.add(s)]: the row takes the next value of the sequence and
    joins the working copy.  The handlers commit right after every add. *)
Definition add (s : Session.t) : M Session.t := λ d,
  let s' := Session.set_id (next_session_id d) s in
  (Ok s', with_next_session_id (next_session_id d + 1)
            (with_db (with_sessions (λ l, l ++ [s'])) d)).

(** Assignment to attributes of the session object with primary key [i]. *)
Definition update_session (i : Z) (f : Session.t → Session.t) : M unit :=
  modify (with_db (with_sessions
    (map (λ r, if bool_decide (Session.id r = i) then f r else r)))).

(** [query(Session).get(i)] *)
Definition get_session (i : option Z) : M (option Session.t) :=
  gets (λ d, i' ← i; find (λ r, bool_decide (Session.id r = i')) (sessions (db d))).

(** The row as the database has it: autoflush is off, so a query evaluates
    its criteria on the flushed row and hands back the loaded object. *)
Definition flushed (d : HealerDaemon) (r : Session.t) : Session.t :=
  default r (find (λ x, bool_decide (Session.id x = Session.id r))
                  (sessions (saved d))).

(** [query(Session).filter(crit).all()]; the criterion may look at the
    whole table (for [.has(...)] on the parent). *)
Definition query_sessions (crit : list Session.t → Session.t → bool)
    : M (list Session.t) :=
  gets (λ d, let tbl := map (flushed d) (sessions (db d)) in
             filter (λ r, crit tbl (flushed d r)) (sessions (db d))).

Definition get_avatar (i : option Z) : M (option Avatar.t) :=
  gets (λ d, i' ← i; find (λ r, bool_decide (Avatar.id r = i')) (avatars (db d))).

Definition get_ic (i : option Z) : M (option InformationCopy.t) :=
  gets (λ d, i' ← i;
             find (λ r, bool_decide (InformationCopy.id r = i'))
                  (information_copies (db d))).

Definition get_request (i : option Z) : M (option Request.t) :=
  gets (λ d, i' ← i; find (λ r, bool_decide (Request.id r = i')) (requests (db d))).

(** [query(G).filter_by(name=n).first()] for the three kinds of group. *)
Definition avatar_group_by_name (n : option string) : M (option AvatarGroup.t) :=
  gets (λ d, n' ← n;
             find (λ g, bool_decide (AvatarGroup.name g = n')) (avatar_groups (db d))).

Definition ic_group_by_name (n : option string) : M (option ICGroup.t) :=
  gets (λ d, n' ← n; find (λ g, bool_decide (ICGroup.name g = n')) (ic_groups (db d))).

Definition request_group_by_name (n : option string) : M (option RequestGroup.t) :=
  gets (λ d, n' ← n;
             find (λ g, bool_decide (RequestGroup.name g = n')) (request_groups (db d))).

(** [group.members] *)
Definition avatar_members (g : Z) : M (list AvatarGroupMember.t) :=
  gets (λ d, filter (λ m, bool_decide (AvatarGroupMember.group_id m = g))
                    (avatar_group_members (db d))).

Definition ic_members (g : Z) : M (list ICGroupMember.t) :=
  gets (λ d, filter (λ m, bool_decide (ICGroupMember.group_id m = g))
                    (ic_group_members (db d))).

Definition request_members (g : Z) : M (list RequestGroupMember.t) :=
  gets (λ d, filter (λ m, bool_decide (RequestGroupMember.group_id m = g))
                    (request_group_members (db d))).

(** ** healer_daemon.py: caching and spawning *)

Definition _load_avatar_to_cache (avatar_id : option Z) : M bytes :=
  cache ← gets avatar_cache;
  match avatar_id ≫= (cache !!.) with
  | Some b => mret b
  | None =>
      avatar ← get_avatar avatar_id;
      match avatar, avatar_id with
      | Some a, Some k =>
          let b := Avatar.photo_data a ++ encode (Avatar.info_data a) in
          modify (with_avatar_cache <[k := b]>);; mret b
      | _, _ => raise ("Avatar ID " +:+ str_int avatar_id +:+ " not found.")
      end
  end.

Definition _load_ic_to_cache (ic_id : option Z) : M bytes :=
  cache ← gets ic_cache;
  match ic_id ≫= (cache !!.) with
  | Some b => mret b
  | None =>
      ic ← get_ic ic_id;
      match ic, ic_id with
      | Some c, Some k =>
          let b := InformationCopy.wav_data c in
          modify (with_ic_cache <[k := b]>);; mret b
      | _, _ => raise ("IC ID " +:+ str_int ic_id +:+ " not found.")
      end
  end.

Definition _load_request_to_cache (request_id : option Z) : M bytes :=
  cache ← gets request_cache;
  match request_id ≫= (cache !!.) with
  | Some b => mret b
  | None =>
      request ← get_request request_id;
      match request, request_id with
      | Some r, Some k =>
          let b := encode (Request.request_data r) in
          modify (with_request_cache <[k := b]>);; mret b
      | _, _ => raise ("Request ID " +:+ str_int request_id +:+ " not found.")
      end
  end.

(** [multiprocessing.Process(...).start()]: a new live process. *)
Definition process_start : M Z := λ d,
  let pid := next_pid d in
  (Ok pid, with_next_pid (pid + 1) (with_live (λ s, {[pid]} ∪ s) d)).

(** [process.terminate(); process.join()] when [process.is_alive()]. *)
Definition terminate (process : option Z) : M unit :=
  match process with
  | Some pid => modify (with_live (λ s, s ∖ {[pid]}))
  | None => mret tt
  end.

(** [self.active_workers.pop(i, None)] *)
Definition pop_worker (i : Z) : M (option Z) := λ d,
  (Ok (active_workers d !! i), with_active_workers (delete i) d).

Definition _spawn_worker_for_session (session : Session.t) : M unit :=
  if bool_decide (Session.id session = 0) then mret tt
  else
    workers ← gets active_workers;
    if bool_decide (is_Some (workers !! Session.id session)) then mret tt
    else
      try_except
        (match Session.session_type session with
         | SessionType.IC_SESSION | SessionType.GROUP_IC_SESSION =>
             _load_avatar_to_cache (Session.avatar_id session);;
             _load_ic_to_cache (Session.ic_id session);; mret tt
         | SessionType.REQUEST_SESSION =>
             _load_avatar_to_cache (Session.avatar_id session);;
             _load_request_to_cache (Session.request_id session);; mret tt
         | SessionType.AVATAR_LINK =>
             _load_avatar_to_cache (Session.avatar_id session);;
             _load_avatar_to_cache (Session.destination_avatar_id session);;
             mret tt
         end;;
         pid ← process_start;
         update_session (Session.id session)
           (λ r, Session.set_worker_pid (Some pid)
                   (Session.set_status SessionStatus.RUNNING r));;
         commit;;
         modify (with_active_workers <[Session.id session := pid]>))
        (λ _,
           update_session (Session.id session)
             (Session.set_status SessionStatus.FAILED);;
           commit).

(** [_stop_single_session] and [_fail_single_session] differ in the status
    they leave only. *)
Definition end_single_session (final : SessionStatus.t) (session_id : option Z)
    : M bool :=
  session ← get_session session_id;
  match session with
  | None => mret false
  | Some s =>
      if bool_decide (Session.status s ≠ SessionStatus.RUNNING) then mret false
      else
        process ← pop_worker (Session.id s);
        terminate process;;
        update_session (Session.id s)
          (λ r, Session.set_worker_pid None (Session.set_status final r));;
        commit;;
        mret true
  end.

Definition _stop_single_session : option Z → M bool :=
  end_single_session SessionStatus.STOPPED.

Definition _fail_single_session : option Z → M bool :=
  end_single_session SessionStatus.FAILED.

(** ** Commands and replies *)

(** The [data] object of a command: each key the handlers look at, absent
    ([None]) or holding a value of the type the handler expects. *)
Module Data.
Record t := {
  avatar_id : option Z;
  avatar_group : option string;
  ic_id : option Z;
  ic_group : option string;
  request_id : option Z;
  request_group : option string;
  source_id : option Z;
  dest_id : option Z;
  dest_group : option string;
  duration : option Z;
  session_id : option Z;
  entity_type : option string;
  id : option Z;
  group_type : option string;
  group_name : option string;
  member_id : option Z;
  avatar_identifier : option string;
  photo_data_b64 : option (list Z);    (* the JSON text, parsed *)
  info_data : option string
}.

Definition empty : t :=
  {| avatar_id := None; avatar_group := None; ic_id := None; ic_group := None;
     request_id := None; request_group := None; source_id := None;
     dest_id := None; dest_group := None; duration := None;
     session_id := None; entity_type := None; id := None;
     group_type := None; group_name := None; member_id := None;
     avatar_identifier := None; photo_data_b64 := None; info_data := None |}.
End Data.

(** One row of the answer of [view_running_on]. *)
Record ViewRow := {
  vr_session_id : Z;
  vr_type : string;
  vr_target : string;
  vr_duration_minutes : option Z
}.

(** What a handler returns: a status with a message, the table of
    [view_running_on], or nothing ([None], sent as JSON null). *)
Inductive Reply :=
| Message (status message : string)
| Table (avatar_name : string) (avatar_id : Z) (data : list ViewRow)
| Null.

Definition success (message : string) : Reply := Message "success" message.
Definition error (message : string) : Reply := Message "error" message.

Definition is_success (r : Reply) : bool :=
  match r with
  | Message st _ => bool_decide (st = "success")
  | Table _ _ _ => true
  | Null => false
  end.

Notation "x |> f" := (f x) (at level 45, left associativity, only parsing).

(** [try: body except Exception as e: rollback(); return error str(e)] *)
Definition guarded (body : M Reply) : M Reply :=
  try_except body (λ e, rollback;; mret (error e)).

(** ** healer_daemon.py: start handlers *)

Definition _get_target_avatar_ids (avatar_id : option Z)
    (avatar_group_name : option string) : M (list Z) :=
  match truthy_int avatar_id with
  | Some a =>
      avatar ← get_avatar (Some a);
      match avatar with
      | None => raise ("Avatar ID " +:+ pretty a +:+ " not found.")
      | Some _ => mret [a]
      end
  | None =>
      match truthy_str avatar_group_name with
      | Some n =>
          group ← avatar_group_by_name (Some n);
          match group with
          | None => raise ("Avatar group '" +:+ n +:+ "' not found.")
          | Some g =>
              members ← avatar_members (AvatarGroup.id g);
              let ids := map AvatarGroupMember.avatar_id members in
              match ids with
              | [] => raise ("Avatar group '" +:+ n +:+ "' is empty.")
              | _ => mret ids
              end
          end
      | None => raise "No target avatar or avatar group specified."
      end
  end.

Definition _get_target_request_ids (request_id : option Z)
    (request_group_name : option string) : M (list Z) :=
  match truthy_int request_id with
  | Some a =>
      request ← get_request (Some a);
      match request with
      | None => raise ("Request ID " +:+ pretty a +:+ " not found.")
      | Some _ => mret [a]
      end
  | None =>
      match truthy_str request_group_name with
      | Some n =>
          group ← request_group_by_name (Some n);
          match group with
          | None => raise ("Request group '" +:+ n +:+ "' not found.")
          | Some g =>
              members ← request_members (RequestGroup.id g);
              let ids := map RequestGroupMember.request_id members in
              match ids with
              | [] => raise ("Request group '" +:+ n +:+ "' is empty.")
              | _ => mret ids
              end
          end
      | None => raise "No target request or request group specified."
      end
  end.

(** *** datetime

    A [datetime] is the number of microseconds since [datetime.min]
    (0001-01-01 00:00:00), a [timedelta] a number of microseconds.
    [datetime_max] is [datetime.max] (9999-12-31 23:59:59.999999). *)
Definition datetime_max : Z := 315537897599999999.

(** [timedelta(minutes=m)] for an integer [m]: the days of a timedelta are
    a C int of magnitude 999999999 at most. *)
Definition timedelta_minutes (m : Z) : M Z :=
  let days := m `div` 1440 in
  if bool_decide (-2147483648 ≤ days ≤ 2147483647) then
    if bool_decide (-999999999 ≤ days ≤ 999999999) then mret (m * 60000000)
    else raise ("days=" +:+ pretty days +:+ "; must have magnitude <= 999999999")
  else raise "Python int too large to convert to C int".

(** [t + delta]: the sum has to be a date of the years 1 to 9999. *)
Definition datetime_add (t delta : Z) : M Z :=
  if bool_decide (0 ≤ t + delta ≤ datetime_max) then mret (t + delta)
  else raise "date value out of range".

(** [(utcnow() + timedelta(minutes=data['duration'])) if data.get('duration')
    else None]: the clock is read first, then the timedelta is built, then
    the two are added; either of the last two can raise OverflowError. *)
Definition end_time_from (data : Data.t) : M (option Z) :=
  match truthy_int (Data.duration data) with
  | Some minutes =>
      now ← utcnow;
      delta ← timedelta_minutes minutes;
      stop ← datetime_add now delta;
      mret (Some stop)
  | None => mret None
  end.

Definition from_group_op (parent_session : option Session.t) : string :=
  match parent_session with
  | Some p => " (from Group Op #" +:+ pretty (Session.id p) +:+ ")"
  | None => ""
  end.

Definition handle_start_ic (data : Data.t) : M Reply :=
  guarded (
    target_avatar_ids ←
      _get_target_avatar_ids (Data.avatar_id data) (Data.avatar_group data);
    ic_id ← index "ic_id" (Data.ic_id data);
    ic ← get_ic (Some ic_id);
    match ic with
    | None => raise ("IC " +:+ pretty ic_id +:+ " not found.")
    | Some ic =>
        parent_session ←
          (if bool_decide (1 < length target_avatar_ids)%nat then
             name ← index "avatar_group" (Data.avatar_group data);
             avatar_group ← avatar_group_by_name (Some name);
             group_name ← attr "name" AvatarGroup.name avatar_group;
             group_id ← attr "id" AvatarGroup.id avatar_group;
             let desc := "IC '" +:+ InformationCopy.name ic +:+
                         "' on Avatar Group '" +:+ group_name +:+ "'" in
             start ← utcnow;
             stop ← end_time_from data;
             p ← add (Session.new SessionType.IC_SESSION start stop
                        SessionStatus.RUNNING
                      |> Session.set_is_group_session true
                      |> Session.set_description (Some desc)
                      |> Session.set_avatar_group_id (Some group_id)
                      |> Session.set_ic_id (Some (InformationCopy.id ic)));
             commit;; mret (Some p)
           else mret None);
        created_sessions ←
          for_acc target_avatar_ids 0 (λ avatar_id created_sessions,
            avatar ← get_avatar (Some avatar_id);
            avatar_name ← attr "name" Avatar.name avatar;
            let child_desc :=
              "'" +:+ avatar_name +:+ "' <=> '" +:+ InformationCopy.name ic +:+ "'"
              +:+ from_group_op parent_session in
            start ← utcnow;
            stop ← end_time_from data;
            child_session ←
              add (Session.new SessionType.IC_SESSION start stop
                     SessionStatus.SCHEDULED
                   |> Session.set_parent_session_id (Session.id <$> parent_session)
                   |> Session.set_avatar_id (Some avatar_id)
                   |> Session.set_ic_id (Some ic_id)
                   |> Session.set_description (Some child_desc));
            commit;;
            _spawn_worker_for_session child_session;;
            mret (created_sessions + 1));
        mret (success ("Started " +:+ pretty created_sessions +:+ " session(s)."))
    end).

(** The parent of [handle_start_request], when a side has several ids. *)
Definition start_request_parent (data : Data.t)
    (target_avatar_ids target_request_ids : list Z) : M (option Session.t) :=
  if bool_decide (1 < length target_avatar_ids)%nat
     && bool_decide (1 < length target_request_ids)%nat then
    aname ← index "avatar_group" (Data.avatar_group data);
    avatar_group ← avatar_group_by_name (Some aname);
    rname ← index "request_group" (Data.request_group data);
    request_group ← request_group_by_name (Some rname);
    request_group_name ← attr "name" RequestGroup.name request_group;
    avatar_group_name ← attr "name" AvatarGroup.name avatar_group;
    let desc := "Request Group '" +:+ request_group_name +:+
                "' on Avatar Group '" +:+ avatar_group_name +:+ "'" in
    avatar_group_id ← attr "id" AvatarGroup.id avatar_group;
    request_group_id ← attr "id" RequestGroup.id request_group;
    start ← utcnow;
    stop ← end_time_from data;
    p ← add (Session.new SessionType.REQUEST_SESSION start stop SessionStatus.RUNNING
             |> Session.set_is_group_session true
             |> Session.set_description (Some desc)
             |> Session.set_avatar_group_id (Some avatar_group_id)
             |> Session.set_request_group_id (Some request_group_id));
    commit;; mret (Some p)
  else if bool_decide (1 < length target_avatar_ids)%nat then
    aname ← index "avatar_group" (Data.avatar_group data);
    avatar_group ← avatar_group_by_name (Some aname);
    request ← get_request (head target_request_ids);
    request_name ← attr "name" Request.name request;
    avatar_group_name ← attr "name" AvatarGroup.name avatar_group;
    let desc := "Request '" +:+ request_name +:+
                "' on Avatar Group '" +:+ avatar_group_name +:+ "'" in
    avatar_group_id ← attr "id" AvatarGroup.id avatar_group;
    request_id ← attr "id" Request.id request;
    start ← utcnow;
    stop ← end_time_from data;
    p ← add (Session.new SessionType.REQUEST_SESSION start stop SessionStatus.RUNNING
             |> Session.set_is_group_session true
             |> Session.set_description (Some desc)
             |> Session.set_avatar_group_id (Some avatar_group_id)
             |> Session.set_request_id (Some request_id));
    commit;; mret (Some p)
  else if bool_decide (1 < length target_request_ids)%nat then
    rname ← index "request_group" (Data.request_group data);
    request_group ← request_group_by_name (Some rname);
    avatar ← get_avatar (head target_avatar_ids);
    request_group_name ← attr "name" RequestGroup.name request_group;
    avatar_name ← attr "name" Avatar.name avatar;
    let desc := "Request Group '" +:+ request_group_name +:+
                "' on Avatar '" +:+ avatar_name +:+ "'" in
    request_group_id ← attr "id" RequestGroup.id request_group;
    avatar_id ← attr "id" Avatar.id avatar;
    start ← utcnow;
    stop ← end_time_from data;
    p ← add (Session.new SessionType.REQUEST_SESSION start stop SessionStatus.RUNNING
             |> Session.set_is_group_session true
             |> Session.set_description (Some desc)
             |> Session.set_request_group_id (Some request_group_id)
             |> Session.set_avatar_id (Some avatar_id));
    commit;; mret (Some p)
  else mret None.

Definition handle_start_request (data : Data.t) : M Reply :=
  guarded (
    target_avatar_ids ←
      _get_target_avatar_ids (Data.avatar_id data) (Data.avatar_group data);
    target_request_ids ←
      _get_target_request_ids (Data.request_id data) (Data.request_group data);
    parent_session ← start_request_parent data target_avatar_ids target_request_ids;
    created_sessions ←
      for_acc target_avatar_ids 0 (λ avatar_id created_sessions,
        for_acc target_request_ids created_sessions (λ request_id created_sessions,
          avatar ← get_avatar (Some avatar_id);
          request ← get_request (Some request_id);
          avatar_name ← attr "name" Avatar.name avatar;
          request_name ← attr "name" Request.name request;
          let child_desc :=
            "'" +:+ avatar_name +:+ "' <=> '" +:+ request_name +:+ "'"
            +:+ from_group_op parent_session in
          start ← utcnow;
          stop ← end_time_from data;
          child_session ←
            add (Session.new SessionType.REQUEST_SESSION start stop
                   SessionStatus.SCHEDULED
                 |> Session.set_parent_session_id (Session.id <$> parent_session)
                 |> Session.set_avatar_id (Some avatar_id)
                 |> Session.set_request_id (Some request_id)
                 |> Session.set_description (Some child_desc));
          commit;;
          _spawn_worker_for_session child_session;;
          mret (created_sessions + 1)));
    mret (success ("Started " +:+ pretty created_sessions +:+ " request session(s).")))
  .

Definition handle_start_link (data : Data.t) : M Reply :=
  guarded (
    source_id ← index "source_id" (Data.source_id data);
    dest_avatar_ids ←
      _get_target_avatar_ids (Data.dest_id data) (Data.dest_group data);
    source_avatar ← get_avatar (Some source_id);
    match source_avatar with
    | None => raise ("Source Avatar " +:+ pretty source_id +:+ " not found.")
    | Some source_avatar =>
        parent_session ←
          (if bool_decide (1 < length dest_avatar_ids)%nat then
             name ← index "dest_group" (Data.dest_group data);
             dest_group ← avatar_group_by_name (Some name);
             group_name ← attr "name" AvatarGroup.name dest_group;
             let desc := "Link from '" +:+ Avatar.name source_avatar +:+
                         "' to Avatar Group '" +:+ group_name +:+ "'" in
             group_id ← attr "id" AvatarGroup.id dest_group;
             start ← utcnow;
             stop ← end_time_from data;
             p ← add (Session.new SessionType.AVATAR_LINK start stop
                        SessionStatus.RUNNING
                      |> Session.set_is_group_session true
                      |> Session.set_description (Some desc)
                      |> Session.set_avatar_id (Some source_id)
                      |> Session.set_avatar_group_id (Some group_id));
             commit;; mret (Some p)
           else mret None);
        created_sessions ←
          for_acc dest_avatar_ids 0 (λ dest_id created_sessions,
            if bool_decide (source_id = dest_id) then mret created_sessions
            else
              dest_avatar ← get_avatar (Some dest_id);
              dest_name ← attr "name" Avatar.name dest_avatar;
              let child_desc :=
                "Link: '" +:+ Avatar.name source_avatar +:+ "' -> '" +:+ dest_name
                +:+ "'" +:+ from_group_op parent_session in
              start ← utcnow;
              stop ← end_time_from data;
              child_session ←
                add (Session.new SessionType.AVATAR_LINK start stop
                       SessionStatus.SCHEDULED
                     |> Session.set_parent_session_id (Session.id <$> parent_session)
                     |> Session.set_avatar_id (Some source_id)
                     |> Session.set_destination_avatar_id (Some dest_id)
                     |> Session.set_description (Some child_desc));
              commit;;
              _spawn_worker_for_session child_session;;
              mret (created_sessions + 1));
        mret (success ("Started " +:+ pretty created_sessions +:+ " link session(s)."))
    end).

Definition handle_start_group (data : Data.t) : M Reply :=
  guarded (
    let avatar_group_name := Data.avatar_group data in
    avatar_group ← avatar_group_by_name avatar_group_name;
    match avatar_group with
    | None => raise ("Avatar group '" +:+ str_opt avatar_group_name +:+ "' not found.")
    | Some avatar_group =>
        let ic_group_name := Data.ic_group data in
        ic_group ← ic_group_by_name ic_group_name;
        match ic_group with
        | None => raise ("IC group '" +:+ str_opt ic_group_name +:+ "' not found.")
        | Some ic_group =>
            a_members ← avatar_members (AvatarGroup.id avatar_group);
            i_members ← ic_members (ICGroup.id ic_group);
            if bool_decide (a_members = []) || bool_decide (i_members = []) then
              mret (error "Both avatar and IC groups must be non-empty.")
            else
              let desc := "IC Group '" +:+ ICGroup.name ic_group +:+
                          "' on Avatar Group '" +:+ AvatarGroup.name avatar_group
                          +:+ "'" in
              start ← utcnow;
              stop ← end_time_from data;
              parent_session ←
                add (Session.new SessionType.GROUP_IC_SESSION start stop
                       SessionStatus.RUNNING
                     |> Session.set_is_group_session true
                     |> Session.set_description (Some desc)
                     |> Session.set_avatar_group_id (Some (AvatarGroup.id avatar_group))
                     |> Session.set_ic_group_id (Some (ICGroup.id ic_group)));
              commit;;
              for_each a_members (λ avatar_member,
                for_each i_members (λ ic_member,
                  avatar ← get_avatar (Some (AvatarGroupMember.avatar_id avatar_member));
                  avatar_name ← attr "name" Avatar.name avatar;
                  ic ← get_ic (Some (ICGroupMember.ic_id ic_member));
                  ic_name ← attr "name" InformationCopy.name ic;
                  let child_desc :=
                    "'" +:+ avatar_name +:+ "' <=> '" +:+ ic_name +:+
                    "' (from Group Session #" +:+ pretty (Session.id parent_session)
                    +:+ ")" in
                  child_session ←
                    add (Session.new SessionType.IC_SESSION
                           (Session.start_time parent_session)
                           (Session.end_time parent_session)
                           SessionStatus.SCHEDULED
                         |> Session.set_parent_session_id
                              (Some (Session.id parent_session))
                         |> Session.set_avatar_id
                              (Some (AvatarGroupMember.avatar_id avatar_member))
                         |> Session.set_ic_id (Some (ICGroupMember.ic_id ic_member))
                         |> Session.set_description (Some child_desc));
                  commit;;
                  _spawn_worker_for_session child_session));;
              mret (success ("Started group session " +:+
                             pretty (Session.id parent_session) +:+ " with " +:+
                             pretty (Z.of_nat (length a_members * length i_members))
                             +:+ " workers."))
        end
    end).

(** ** healer_daemon.py: stop, update, view *)

(** [session.child_sessions] *)
Definition child_sessions (i : Z) : M (list Session.t) :=
  gets (λ d, filter (λ r, is_ (Session.parent_session_id r) i) (sessions (db d))).

(** [s.status == SessionStatus.RUNNING], read from the loaded object. *)
Definition is_running (i : Z) : M bool :=
  s ← get_session (Some i);
  mret (bool_decide (Session.status <$> s = Some SessionStatus.RUNNING)).

Definition handle_stop_session (data : Data.t) : M Reply :=
  let session_id := Data.session_id data in
  session ← get_session session_id;
  match session with
  | None => mret (error ("Session " +:+ str_int session_id +:+ " not found."))
  | Some session =>
      children ←
        (if Session.is_group_session session
            || bool_decide (Session.parent_session_id session = None)
         then child_sessions (Session.id session) else mret []);
      let sessions_to_stop := session :: children in
      stopped_count ←
        for_acc sessions_to_stop 0 (λ s stopped_count,
          running ← is_running (Session.id s);
          if (running : bool) then
            stopped ← _stop_single_session (Some (Session.id s));
            mret (if (stopped : bool) then stopped_count + 1 else stopped_count)
          else mret stopped_count);
      update_session (Session.id session) (Session.set_status SessionStatus.STOPPED);;
      commit;;
      mret (success ("Stopped " +:+ pretty stopped_count +:+ " session(s)."))
  end.

(** [bytes(json.loads(text))] on a list of integers. *)
Definition bytes_of_ints (l : list Z) : M bytes :=
  match mapM (λ z, if bool_decide (0 ≤ z) then Byte.of_N (Z.to_N z) else None) l with
  | Some b => mret b
  | None => raise "bytes must be in range(0, 256)"
  end.

Definition update_avatar (i : Z) (f : Avatar.t → Avatar.t) : M unit :=
  modify (with_db (with_avatars
    (map (λ r, if bool_decide (Avatar.id r = i) then f r else r)))).

Definition set_photo_data (v : bytes) (a : Avatar.t) : Avatar.t :=
  {| Avatar.id := Avatar.id a; Avatar.name := Avatar.name a;
     Avatar.photo_data := v; Avatar.info_data := Avatar.info_data a |}.

Definition set_info_data (v : string) (a : Avatar.t) : Avatar.t :=
  {| Avatar.id := Avatar.id a; Avatar.name := Avatar.name a;
     Avatar.photo_data := Avatar.photo_data a; Avatar.info_data := v |}.

Definition handle_update_entity (data : Data.t) : M Reply :=
  entity_type ← index "entity_type" (Data.entity_type data);
  entity_id ← index "id" (Data.id data);
  guarded (
    if bool_decide (entity_type = "avatar") then
      avatar ← get_avatar (Some entity_id);
      match avatar with
      | None => mret (error ("Avatar " +:+ pretty entity_id +:+ " not found."))
      | Some avatar =>
          match Data.photo_data_b64 data with
          | Some ints =>
              b ← bytes_of_ints ints;
              update_avatar (Avatar.id avatar) (set_photo_data b)
          | None => mret tt
          end;;
          match Data.info_data data with
          | Some text => update_avatar (Avatar.id avatar) (set_info_data text)
          | None => mret tt
          end;;
          modify (with_avatar_cache (delete entity_id));;
          commit;;
          affected_sessions ←
            query_sessions (λ _ r,
              bool_decide (Session.status r = SessionStatus.RUNNING)
              && (is_ (Session.avatar_id r) entity_id
                  || is_ (Session.destination_avatar_id r) entity_id));
          restarted_count ←
            for_acc affected_sessions 0 (λ session restarted_count,
              stopped ← _stop_single_session (Some (Session.id session));
              if (stopped : bool) then
                _spawn_worker_for_session session;;
                mret (restarted_count + 1)
              else mret restarted_count);
          mret (success ("Entity updated. Restarted " +:+ pretty restarted_count
                         +:+ " active session(s)."))
      end
    else
      mret (error ("Entity type '" +:+ entity_type +:+
                   "' not supported for updates."))).

(** [str.isdigit()] and [int(str)] on ASCII digits. *)
Definition digit (c : Ascii.ascii) : option Z :=
  let n := Z.of_N (Ascii.N_of_ascii c) in
  if bool_decide (48 ≤ n ≤ 57) then Some (n - 48) else None.

Fixpoint digits (s : string) : option (list Z) :=
  match s with
  | EmptyString => Some []
  | String c s' => d ← digit c; ds ← digits s'; Some (d :: ds)
  end.

Definition int_of_digits (s : string) : option Z :=
  match s with
  | EmptyString => None
  | _ => foldl (λ acc d, 10 * acc + d) 0 <$> digits s
  end.

(** [Session.parent_session.has(crit)] *)
Definition parent_has (tbl : list Session.t) (crit : Session.t → bool)
    (r : Session.t) : bool :=
  match Session.parent_session_id r with
  | Some p => existsb (λ x, bool_decide (Session.id x = p) && crit x) tbl
  | None => false
  end.

Definition handle_view_running_on (data : Data.t) : M Reply :=
  avatar_identifier ← index "avatar_identifier" (Data.avatar_identifier data);
  try_except (
    avatar ←
      match int_of_digits avatar_identifier with
      | Some n => get_avatar (Some n)
      | None => gets (λ d, find (λ a, bool_decide (Avatar.name a = avatar_identifier))
                                (avatars (db d)))
      end;
    match avatar with
    | None => mret (error ("Avatar '" +:+ avatar_identifier +:+ "' not found."))
    | Some avatar =>
        avatar_group_ids ←
          gets (λ d, g ← avatar_groups (db d);
                     m ← avatar_group_members (db d);
                     if bool_decide (AvatarGroupMember.group_id m = AvatarGroup.id g)
                        && bool_decide (AvatarGroupMember.avatar_id m = Avatar.id avatar)
                     then [AvatarGroup.id g] else []);
        running ←
          query_sessions (λ tbl r,
            bool_decide (Session.status r = SessionStatus.RUNNING)
            && negb (Session.is_group_session r)
            && (is_ (Session.avatar_id r) (Avatar.id avatar)
                || is_ (Session.destination_avatar_id r) (Avatar.id avatar)
                || parent_has tbl
                     (λ p, in_ (Session.avatar_group_id p) avatar_group_ids) r));
        response_data ←
          mapM (M := M) (λ s : Session.t,
            parent ← get_session (Session.parent_session_id s);
            let target_str :=
              match parent with
              | Some p =>
                  if Session.is_group_session p then
                    "Part of Group Session #" +:+ pretty (Session.id p) +:+ ": "
                    +:+ str_opt (Session.description p)
                  else str_opt (Session.description s)
              | None => str_opt (Session.description s)
              end in
            let duration :=
              e ← Session.end_time s;
              Some (Z.quot (e - Session.start_time s) 60000000) in
            mret {| vr_session_id := Session.id s;
                    vr_type := SessionType.value (Session.session_type s);
                    vr_target := target_str;
                    vr_duration_minutes := duration |}) running;
        mret (Table (Avatar.name avatar) (Avatar.id avatar) response_data)
    end)
    (λ e, mret (error e)).

(** ** healer_daemon.py: group membership *)

(** [parent_session.avatar_group], [.ic_group], [.ic], [.request],
    [.source_avatar]: the row a foreign key points to, if any. *)
Definition avatar_group_of (s : Session.t) : M (option AvatarGroup.t) :=
  gets (λ d, g ← Session.avatar_group_id s;
             find (λ x, bool_decide (AvatarGroup.id x = g)) (avatar_groups (db d))).

Definition ic_group_of (s : Session.t) : M (option ICGroup.t) :=
  gets (λ d, g ← Session.ic_group_id s;
             find (λ x, bool_decide (ICGroup.id x = g)) (ic_groups (db d))).

(** The child that [handle_add_member_to_group] and [handle_start_group]
    hang under a parent: it takes the parent's times. *)
Definition child_of (parent_session : Session.t) (kind : SessionType.t)
    (child_desc : string) : Session.t :=
  Session.new kind (Session.start_time parent_session)
    (Session.end_time parent_session) SessionStatus.SCHEDULED
  |> Session.set_parent_session_id (Some (Session.id parent_session))
  |> Session.set_description (Some child_desc).

Definition add_member_ic (group_name : string) (member_id : Z) : M Reply :=
  group ← ic_group_by_name (Some group_name);
  match group with
  | None => mret (error ("IC group '" +:+ group_name +:+ "' not found."))
  | Some group =>
      ic ← get_ic (Some member_id);
      match ic with
      | None => mret (error ("IC " +:+ pretty member_id +:+ " not found."))
      | Some _ =>
          members ← ic_members (ICGroup.id group);
          if bool_decide (member_id ∈ map ICGroupMember.ic_id members) then
            mret (success ("IC " +:+ pretty member_id +:+ " is already in group '"
                           +:+ group_name +:+ "'."))
          else
            modify (with_db (with_ic_group_members (λ l, l ++
              [{| ICGroupMember.group_id := ICGroup.id group;
                  ICGroupMember.ic_id := member_id |}])));;
            commit;;
            active_group_sessions ←
              query_sessions (λ _ r,
                Session.is_group_session r
                && bool_decide (Session.status r = SessionStatus.RUNNING)
                && is_ (Session.ic_group_id r) (ICGroup.id group));
            new_workers ←
              for_acc active_group_sessions 0 (λ parent_session new_workers,
                avatar_group ← avatar_group_of parent_session;
                group_id ← attr "members" AvatarGroup.id avatar_group;
                members ← avatar_members group_id;
                for_acc members new_workers (λ avatar_member new_workers,
                  mret (new_workers + 1)));
            mret (success ("Added IC " +:+ pretty member_id +:+ " to group '" +:+
                           group_name +:+ "'. Started " +:+ pretty new_workers
                           +:+ " new live session(s)."))
      end
  end.

(** The body of the loop over the active parents when an avatar joins. *)
Definition extend_parent (new_member_avatar : Avatar.t) (parent_session : Session.t)
    (new_workers : Z) : M Z :=
  let pid := pretty (Session.id parent_session) in
  match Session.session_type parent_session with
  | SessionType.GROUP_IC_SESSION =>
      (* Case 1: group-to-group session *)
      ic_group ← ic_group_of parent_session;
      match ic_group with
      | None => mret new_workers
      | Some ic_group =>
          members ← ic_members (ICGroup.id ic_group);
          for_acc members new_workers (λ ic_member new_workers,
            ic ← get_ic (Some (ICGroupMember.ic_id ic_member));
            ic_name ← attr "name" InformationCopy.name ic;
            let child_desc :=
              "'" +:+ Avatar.name new_member_avatar +:+ "' <=> '" +:+ ic_name +:+
              "' (from Group Session #" +:+ pid +:+ ")" in
            child_session ←
              add (child_of parent_session SessionType.IC_SESSION child_desc
                   |> Session.set_avatar_id (Some (Avatar.id new_member_avatar))
                   |> Session.set_ic_id (Some (ICGroupMember.ic_id ic_member)));
            commit;;
            _spawn_worker_for_session child_session;;
            mret (new_workers + 1))
      end
  | SessionType.IC_SESSION =>
      (* Case 2: single IC to group *)
      ic ← get_ic (Session.ic_id parent_session);
      match ic with
      | None => mret new_workers
      | Some ic =>
          let child_desc :=
            "'" +:+ Avatar.name new_member_avatar +:+ "' <=> '" +:+
            InformationCopy.name ic +:+ "' (from Group Op #" +:+ pid +:+ ")" in
          child_session ←
            add (child_of parent_session SessionType.IC_SESSION child_desc
                 |> Session.set_avatar_id (Some (Avatar.id new_member_avatar))
                 |> Session.set_ic_id (Session.ic_id parent_session));
          commit;;
          _spawn_worker_for_session child_session;;
          mret (new_workers + 1)
      end
  | SessionType.REQUEST_SESSION =>
      (* Case 3: single request to group *)
      request ← get_request (Session.request_id parent_session);
      match request with
      | None => mret new_workers
      | Some request =>
          let child_desc :=
            "'" +:+ Avatar.name new_member_avatar +:+ "' <=> '" +:+
            Request.name request +:+ "' (from Group Op #" +:+ pid +:+ ")" in
          child_session ←
            add (child_of parent_session SessionType.REQUEST_SESSION child_desc
                 |> Session.set_avatar_id (Some (Avatar.id new_member_avatar))
                 |> Session.set_request_id (Session.request_id parent_session));
          commit;;
          _spawn_worker_for_session child_session;;
          mret (new_workers + 1)
      end
  | SessionType.AVATAR_LINK =>
      (* Case 4: avatar link to group *)
      source_avatar ← get_avatar (Session.avatar_id parent_session);
      match source_avatar with
      | None => mret new_workers
      | Some source_avatar =>
          let child_desc :=
            "Link: '" +:+ Avatar.name source_avatar +:+ "' -> '" +:+
            Avatar.name new_member_avatar +:+ "' (from Group Op #" +:+ pid +:+ ")" in
          child_session ←
            add (child_of parent_session SessionType.AVATAR_LINK child_desc
                 |> Session.set_avatar_id (Session.avatar_id parent_session)
                 |> Session.set_destination_avatar_id
                      (Some (Avatar.id new_member_avatar)));
          commit;;
          _spawn_worker_for_session child_session;;
          mret (new_workers + 1)
      end
  end.

Definition add_member_avatar (group_name : string) (member_id : Z) : M Reply :=
  group ← avatar_group_by_name (Some group_name);
  match group with
  | None => mret (error ("Avatar group '" +:+ group_name +:+ "' not found."))
  | Some group =>
      new_member_avatar ← get_avatar (Some member_id);
      match new_member_avatar with
      | None => mret (error ("Avatar " +:+ pretty member_id +:+ " not found."))
      | Some new_member_avatar =>
          members ← avatar_members (AvatarGroup.id group);
          if bool_decide (member_id ∈ map AvatarGroupMember.avatar_id members) then
            mret (success ("Avatar " +:+ pretty member_id +:+
                           " is already in group '" +:+ group_name +:+ "'."))
          else
            modify (with_db (with_avatar_group_members (λ l, l ++
              [{| AvatarGroupMember.group_id := AvatarGroup.id group;
                  AvatarGroupMember.avatar_id := member_id |}])));;
            commit;;
            active_group_sessions ←
              query_sessions (λ _ r,
                Session.is_group_session r
                && bool_decide (Session.status r = SessionStatus.RUNNING)
                && is_ (Session.avatar_group_id r) (AvatarGroup.id group));
            new_workers ←
              for_acc active_group_sessions 0 (extend_parent new_member_avatar);
            mret (success ("Added Avatar " +:+ pretty member_id +:+ " to group '"
                           +:+ group_name +:+ "'. Started " +:+ pretty new_workers
                           +:+ " new live session(s)."))
      end
  end.

Definition add_member_request (group_name : string) (member_id : Z) : M Reply :=
  group ← request_group_by_name (Some group_name);
  match group with
  | None => mret (error ("Request group '" +:+ group_name +:+ "' not found."))
  | Some group =>
      request ← get_request (Some member_id);
      match request with
      | None => mret (error ("Request " +:+ pretty member_id +:+ " not found."))
      | Some _ =>
          members ← request_members (RequestGroup.id group);
          if bool_decide (member_id ∈ map RequestGroupMember.request_id members) then
            mret (success ("Request " +:+ pretty member_id +:+
                           " is already in group '" +:+ group_name +:+ "'."))
          else
            modify (with_db (with_request_group_members (λ l, l ++
              [{| RequestGroupMember.group_id := RequestGroup.id group;
                  RequestGroupMember.request_id := member_id |}])));;
            commit;;
            (* For now the member is added and no new session is started. *)
            mret (success ("Added Request " +:+ pretty member_id +:+ " to group '"
                           +:+ group_name +:+ "'. No new sessions started."))
      end
  end.

Definition handle_add_member_to_group (data : Data.t) : M Reply :=
  group_type ← index "group_type" (Data.group_type data);
  group_name ← index "group_name" (Data.group_name data);
  member_id ← index "member_id" (Data.member_id data);
  guarded (
    if bool_decide (group_type = "ic") then add_member_ic group_name member_id
    else if bool_decide (group_type = "avatar") then
      add_member_avatar group_name member_id
    else if bool_decide (group_type = "request") then
      add_member_request group_name member_id
    else mret Null).

(** The rows to stop when a member leaves: children of a running parent
    bound to the group whose own side is the member. *)
Definition stop_all (sessions_to_stop : list Session.t) : M Z :=
  for_acc sessions_to_stop 0 (λ session stopped_count,
    stopped ← _stop_single_session (Some (Session.id session));
    mret (if (stopped : bool) then stopped_count + 1 else stopped_count)).

Definition running_parent (group_col : Session.t → option Z) (g : Z)
    (p : Session.t) : bool :=
  Session.is_group_session p
  && bool_decide (Session.status p = SessionStatus.RUNNING)
  && is_ (group_col p) g.

Definition handle_remove_member_from_group (data : Data.t) : M Reply :=
  group_type ← index "group_type" (Data.group_type data);
  group_name ← index "group_name" (Data.group_name data);
  member_id ← index "member_id" (Data.member_id data);
  guarded (
    if bool_decide (group_type = "ic") then
      group ← ic_group_by_name (Some group_name);
      match group with
      | None => mret (error ("IC group '" +:+ group_name +:+ "' not found."))
      | Some group =>
          members ← ic_members (ICGroup.id group);
          if bool_decide (member_id ∈ map ICGroupMember.ic_id members) then
            sessions_to_stop ←
              query_sessions (λ tbl r,
                parent_has tbl (running_parent Session.ic_group_id (ICGroup.id group)) r
                && is_ (Session.ic_id r) member_id);
            stopped_count ← stop_all sessions_to_stop;
            modify (with_db (with_ic_group_members (filter (λ m,
              negb (bool_decide (ICGroupMember.group_id m = ICGroup.id group)
                    && bool_decide (ICGroupMember.ic_id m = member_id))))));;
            commit;;
            mret (success ("Removed IC " +:+ pretty member_id +:+ " from group '"
                           +:+ group_name +:+ "'. Stopped " +:+ pretty stopped_count
                           +:+ " live session(s)."))
          else
            mret (success ("IC " +:+ pretty member_id +:+ " was not in group '"
                           +:+ group_name +:+ "'."))
      end
    else if bool_decide (group_type = "avatar") then
      group ← avatar_group_by_name (Some group_name);
      match group with
      | None => mret (error ("Avatar group '" +:+ group_name +:+ "' not found."))
      | Some group =>
          members ← avatar_members (AvatarGroup.id group);
          if bool_decide (member_id ∈ map AvatarGroupMember.avatar_id members) then
            sessions_to_stop ←
              query_sessions (λ tbl r,
                parent_has tbl
                  (running_parent Session.avatar_group_id (AvatarGroup.id group)) r
                && is_ (Session.avatar_id r) member_id);
            stopped_count ← stop_all sessions_to_stop;
            modify (with_db (with_avatar_group_members (filter (λ m,
              negb (bool_decide (AvatarGroupMember.group_id m = AvatarGroup.id group)
                    && bool_decide (AvatarGroupMember.avatar_id m = member_id))))));;
            commit;;
            mret (success ("Removed Avatar " +:+ pretty member_id +:+ " from group '"
                           +:+ group_name +:+ "'. Stopped " +:+ pretty stopped_count
                           +:+ " live session(s)."))
          else
            mret (success ("Avatar " +:+ pretty member_id +:+ " was not in group '"
                           +:+ group_name +:+ "'."))
      end
    else if bool_decide (group_type = "request") then
      group ← request_group_by_name (Some group_name);
      match group with
      | None => mret (error ("Request group '" +:+ group_name +:+ "' not found."))
      | Some group =>
          members ← request_members (RequestGroup.id group);
          if bool_decide (member_id ∈ map RequestGroupMember.request_id members) then
            sessions_to_stop ←
              query_sessions (λ tbl r,
                parent_has tbl
                  (running_parent Session.request_group_id (RequestGroup.id group)) r
                && is_ (Session.request_id r) member_id);
            stopped_count ← stop_all sessions_to_stop;
            modify (with_db (with_request_group_members (filter (λ m,
              negb (bool_decide (RequestGroupMember.group_id m = RequestGroup.id group)
                    && bool_decide (RequestGroupMember.request_id m = member_id))))));;
            commit;;
            mret (success ("Removed Request " +:+ pretty member_id +:+
                           " from group '" +:+ group_name +:+ "'. Stopped " +:+
                           pretty stopped_count +:+ " live session(s)."))
          else
            mret (success ("Request " +:+ pretty member_id +:+
                           " was not in group '" +:+ group_name +:+ "'."))
      end
    else mret Null).

(** ** healer_daemon.py: removal *)

(** The primary keys that go when the sessions [roots] are deleted:
    [Session.child_sessions] cascades ("all, delete-orphan"), so children
    follow their parent, to any depth. *)
Definition cascade (tbl : list Session.t) (roots : list Z) : list Z :=
  Nat.iter (length tbl)
    (λ ids, ids ++ map Session.id
       (filter (λ r, in_ (Session.parent_session_id r) ids) tbl))
    roots.

(** [db_session.delete(avatar)]: [source_sessions], [dest_sessions] and
    [groups] cascade. *)
Definition delete_avatar (a : Z) : M unit :=
  modify (with_db (λ st,
    let roots :=
      map Session.id
        (filter (λ r, is_ (Session.avatar_id r) a
                      || is_ (Session.destination_avatar_id r) a) (sessions st)) in
    let gone := cascade (sessions st) roots in
    st |> with_sessions (filter (λ r, negb (bool_decide (Session.id r ∈ gone))))
       |> with_avatar_group_members
            (filter (λ m, negb (bool_decide (AvatarGroupMember.avatar_id m = a))))
       |> with_avatars (filter (λ r, negb (bool_decide (Avatar.id r = a)))))).

Definition handle_remove_entity (data : Data.t) : M Reply :=
  entity_type ← index "entity_type" (Data.entity_type data);
  entity_id ← index "id" (Data.id data);
  guarded (
    if bool_decide (entity_type = "avatar") then
      entity ← get_avatar (Some entity_id);
      match entity with
      | None => mret (success (entity_type +:+ " " +:+ pretty entity_id +:+
                               " already deleted."))
      | Some entity =>
          source_sessions ←
            gets (λ d, filter (λ r, is_ (Session.avatar_id r) (Avatar.id entity))
                              (sessions (db d)));
          dest_sessions ←
            gets (λ d, filter (λ r, is_ (Session.destination_avatar_id r)
                                        (Avatar.id entity)) (sessions (db d)));
          let sessions_to_stop := source_sessions ++ dest_sessions in
          stopped_count ← stop_all sessions_to_stop;
          delete_avatar (Avatar.id entity);;
          commit;;
          modify (with_avatar_cache (delete entity_id));;
          mret (success ("Stopped " +:+ pretty stopped_count +:+
                         " session(s) and removed " +:+ entity_type +:+ " " +:+
                         pretty entity_id +:+ "."))
      end
    else if bool_decide (entity_type = "ic") then
      entity ← get_ic (Some entity_id);
      match entity with
      | None => mret (success (entity_type +:+ " " +:+ pretty entity_id +:+
                               " already deleted."))
      | Some _ =>
          (* entity.source_sessions *)
          raise "'InformationCopy' object has no attribute 'source_sessions'"
      end
    else if bool_decide (entity_type = "request") then
      entity ← get_request (Some entity_id);
      match entity with
      | None => mret (success (entity_type +:+ " " +:+ pretty entity_id +:+
                               " already deleted."))
      | Some _ =>
          (* entity.source_sessions *)
          raise "'Request' object has no attribute 'source_sessions'"
      end
    else mret (error "Removal for this entity type not implemented.")).

(** [db_session.delete(group)]: the memberships cascade; the sessions that
    point to the group are kept and lose the reference. *)
Definition delete_avatar_group (g : Z) : M unit :=
  modify (with_db (λ st,
    st |> with_sessions (map (λ r, if is_ (Session.avatar_group_id r) g
                                   then Session.set_avatar_group_id None r else r))
       |> with_avatar_group_members
            (filter (λ m, negb (bool_decide (AvatarGroupMember.group_id m = g))))
       |> with_avatar_groups
            (filter (λ x, negb (bool_decide (AvatarGroup.id x = g)))))).

Definition delete_ic_group (g : Z) : M unit :=
  modify (with_db (λ st,
    st |> with_sessions (map (λ r, if is_ (Session.ic_group_id r) g
                                   then Session.set_ic_group_id None r else r))
       |> with_ic_group_members
            (filter (λ m, negb (bool_decide (ICGroupMember.group_id m = g))))
       |> with_ic_groups (filter (λ x, negb (bool_decide (ICGroup.id x = g)))))).

Definition delete_request_group (g : Z) : M unit :=
  modify (with_db (λ st,
    st |> with_sessions (map (λ r, if is_ (Session.request_group_id r) g
                                   then Session.set_request_group_id None r else r))
       |> with_request_group_members
            (filter (λ m, negb (bool_decide (RequestGroupMember.group_id m = g))))
       |> with_request_groups
            (filter (λ x, negb (bool_decide (RequestGroup.id x = g)))))).

Definition handle_remove_group (data : Data.t) : M Reply :=
  group_type ← index "group_type" (Data.group_type data);
  group_name ← index "group_name" (Data.group_name data);
  guarded (
    let gone := success ("Group '" +:+ group_name +:+
                         "' not found or already deleted.") in
    let done := success ("Group '" +:+ group_name +:+
                         "' and all its memberships have been deleted.") in
    (* This logic can be expanded to stop sessions before deleting *)
    if bool_decide (group_type = "avatar") then
      group ← avatar_group_by_name (Some group_name);
      match group with
      | None => mret gone
      | Some g => delete_avatar_group (AvatarGroup.id g);; commit;; mret done
      end
    else if bool_decide (group_type = "ic") then
      group ← ic_group_by_name (Some group_name);
      match group with
      | None => mret gone
      | Some g => delete_ic_group (ICGroup.id g);; commit;; mret done
      end
    else if bool_decide (group_type = "request") then
      group ← request_group_by_name (Some group_name);
      match group with
      | None => mret gone
      | Some g => delete_request_group (RequestGroup.id g);; commit;; mret done
      end
    else mret (error ("Unknown group type '" +:+ group_type +:+ "'"))).

(** ** healer_daemon.py: fail and redo *)

(** [set.update]: the elements of [more] not yet in the set, by identity. *)
Definition set_update (acc more : list Session.t) : list Session.t :=
  foldl (λ acc r,
           if bool_decide (Session.id r ∈ map Session.id acc) then acc
           else acc ++ [r]) acc more.

Definition fail_all (sessions_to_fail : list Session.t) : M Z :=
  for_acc sessions_to_fail 0 (λ session failed_count,
    failed ← _fail_single_session (Some (Session.id session));
    mret (if (failed : bool) then failed_count + 1 else failed_count)).

Definition handle_fail_sessions_on_target (data : Data.t) : M Reply :=
  let avatar_id := Data.avatar_id data in
  let group_name := Data.avatar_group data in
  let identifier :=
    match truthy_str group_name with
    | Some n => "group '" +:+ n +:+ "'"
    | None => "avatar ID " +:+ str_int avatar_id
    end in
  guarded (
    from_group ←
      match truthy_str group_name with
      | Some n =>
          group ← avatar_group_by_name (Some n);
          match group with
          | None => mret (inl (error ("Avatar group '" +:+ n +:+ "' not found.")))
          | Some group =>
              (* all parent sessions for this group, regardless of status *)
              parent_sessions ←
                query_sessions (λ _ r,
                  is_ (Session.avatar_group_id r) (AvatarGroup.id group));
              let parent_session_ids := map Session.id parent_sessions in
              child_sessions ←
                query_sessions (λ _ r,
                  in_ (Session.parent_session_id r) parent_session_ids
                  && bool_decide (Session.status r = SessionStatus.RUNNING));
              (* mark the parent group sessions themselves as FAILED *)
              for_each parent_sessions (λ parent,
                update_session (Session.id parent)
                  (Session.set_status SessionStatus.FAILED));;
              mret (inr (set_update [] child_sessions))
          end
      | None => mret (inr [])
      end;
    match from_group with
    | inl reply => mret reply
    | inr sessions_to_fail =>
        sessions_to_fail ←
          match truthy_int avatar_id with
          | Some a =>
              direct_sessions ←
                query_sessions (λ _ r,
                  bool_decide (Session.status r = SessionStatus.RUNNING)
                  && (is_ (Session.avatar_id r) a
                      || is_ (Session.destination_avatar_id r) a));
              mret (set_update sessions_to_fail direct_sessions)
          | None => mret sessions_to_fail
          end;
        match sessions_to_fail with
        | [] => mret (success ("No running sessions found for " +:+ identifier
                               +:+ "."))
        | _ =>
            failed_count ← fail_all sessions_to_fail;
            commit;;
            mret (success ("Set " +:+ pretty failed_count +:+
                           " running session(s) for " +:+ identifier
                           +:+ " to FAILED."))
        end
    end).

Definition handle_fail_all_running_sessions (data : Data.t) : M Reply :=
  guarded (
    running_sessions ←
      query_sessions (λ _ r, bool_decide (Session.status r = SessionStatus.RUNNING));
    match running_sessions with
    | [] => mret (success "No running sessions to fail.")
    | _ =>
        failed_count ← fail_all running_sessions;
        mret (success ("Successfully failed " +:+ pretty failed_count +:+
                       " running session(s)."))
    end).

Definition handle_redo_failed_sessions (data : Data.t) : M Reply :=
  guarded (
    failed_sessions ←
      query_sessions (λ _ r, bool_decide (Session.status r = SessionStatus.FAILED));
    match failed_sessions with
    | [] => mret (success "No failed sessions found to restart.")
    | _ =>
        restarted_count ←
          for_acc failed_sessions 0 (λ old_session restarted_count,
            (* group parent sessions are skipped: their children are
               restarted individually *)
            if Session.is_group_session old_session then
              update_session (Session.id old_session)
                (Session.set_status SessionStatus.RESTARTED);;
              commit;;
              mret restarted_count
            else
              start ← utcnow;
              new_session ←
                add (Session.new (Session.session_type old_session) start
                       (Session.end_time old_session) SessionStatus.SCHEDULED
                     |> Session.set_parent_session_id
                          (Session.parent_session_id old_session)
                     |> Session.set_is_group_session
                          (Session.is_group_session old_session)
                     |> Session.set_description
                          (Some ("[REDO] " +:+ str_opt (Session.description old_session)))
                     |> Session.set_avatar_id (Session.avatar_id old_session)
                     |> Session.set_ic_id (Session.ic_id old_session)
                     |> Session.set_request_id (Session.request_id old_session)
                     |> Session.set_destination_avatar_id
                          (Session.destination_avatar_id old_session)
                     |> Session.set_avatar_group_id
                          (Session.avatar_group_id old_session)
                     |> Session.set_ic_group_id (Session.ic_group_id old_session));
              commit;;
              _spawn_worker_for_session new_session;;
              update_session (Session.id old_session)
                (Session.set_status SessionStatus.RESTARTED);;
              commit;;
              mret (restarted_count + 1));
        mret (success ("Successfully restarted " +:+ pretty restarted_count +:+
                       " failed session(s)."))
    end).

(** ** healer_daemon.py: the main loop *)

(** What [run] does before it listens: sessions found RUNNING are set to
    FAILED for a manual restart. *)
Definition recover : M unit :=
  running_sessions ←
    query_sessions (λ _ r, bool_decide (Session.status r = SessionStatus.RUNNING));
  match running_sessions with
  | [] => mret tt
  | _ =>
      for_each running_sessions (λ session,
        update_session (Session.id session)
          (Session.set_status SessionStatus.FAILED));;
      commit
  end.

Definition ACTION_HANDLERS (action : string) : option (Data.t → M Reply) :=
  if bool_decide (action = "ping") then Some (λ _, mret (success "pong"))
  else if bool_decide (action = "start_ic") then Some handle_start_ic
  else if bool_decide (action = "start_request") then Some handle_start_request
  else if bool_decide (action = "start_link") then Some handle_start_link
  else if bool_decide (action = "start_group") then Some handle_start_group
  else if bool_decide (action = "stop_session") then Some handle_stop_session
  else if bool_decide (action = "view_running_on") then Some handle_view_running_on
  else if bool_decide (action = "add_member_to_group") then
    Some handle_add_member_to_group
  else if bool_decide (action = "remove_member_from_group") then
    Some handle_remove_member_from_group
  else if bool_decide (action = "remove_entity") then Some handle_remove_entity
  else if bool_decide (action = "remove_group") then Some handle_remove_group
  else if bool_decide (action = "redo_failed") then Some handle_redo_failed_sessions
  else if bool_decide (action = "update_entity") then Some handle_update_entity
  else if bool_decide (action = "fail_sessions_on_target") then
    Some handle_fail_sessions_on_target
  else if bool_decide (action = "fail_all_running") then
    Some handle_fail_all_running_sessions
  else None.

(** One turn of the loop of [run]: dispatch the command, and on an
    exception that a handler lets through roll back and answer with it. *)
Definition serve (action : string) (data : Data.t) : M Reply :=
  guarded (
    match ACTION_HANDLERS action with
    | Some handler => handler data
    | None => mret (error ("Unknown command: " +:+ action))
    end).

(** The reply and the daemon after one command. *)
Definition run (action : string) (data : Data.t) (d : HealerDaemon)
    : Reply * HealerDaemon :=
  match serve action data d with
  | (Ok reply, d') => (reply, d')
  | (Raise e, d') => (error e, d')
  end.

(** ** healer_cli.py: the [data] objects the front-end sends *)

Definition cmd_start_ic (avatar_id : option Z) (avatar_group : option string)
    (ic_id : Z) (duration : option Z) : Data.t :=
  {| Data.avatar_id := avatar_id; Data.avatar_group := avatar_group;
     Data.ic_id := Some ic_id; Data.ic_group := None; Data.request_id := None;
     Data.request_group := None; Data.source_id := None; Data.dest_id := None;
     Data.dest_group := None; Data.duration := duration; Data.session_id := None;
     Data.entity_type := None; Data.id := None; Data.group_type := None;
     Data.group_name := None; Data.member_id := None;
     Data.avatar_identifier := None; Data.photo_data_b64 := None;
     Data.info_data := None |}.

Definition cmd_start_group (avatar_group ic_group : string) (duration : option Z)
    : Data.t :=
  {| Data.avatar_id := None; Data.avatar_group := Some avatar_group;
     Data.ic_id := None; Data.ic_group := Some ic_group; Data.request_id := None;
     Data.request_group := None; Data.source_id := None; Data.dest_id := None;
     Data.dest_group := None; Data.duration := duration; Data.session_id := None;
     Data.entity_type := None; Data.id := None; Data.group_type := None;
     Data.group_name := None; Data.member_id := None;
     Data.avatar_identifier := None; Data.photo_data_b64 := None;
     Data.info_data := None |}.

Definition cmd_stop_session (session_id : Z) : Data.t :=
  {| Data.avatar_id := None; Data.avatar_group := None; Data.ic_id := None;
     Data.ic_group := None; Data.request_id := None; Data.request_group := None;
     Data.source_id := None; Data.dest_id := None; Data.dest_group := None;
     Data.duration := None; Data.session_id := Some session_id;
     Data.entity_type := None; Data.id := None; Data.group_type := None;
     Data.group_name := None; Data.member_id := None;
     Data.avatar_identifier := None; Data.photo_data_b64 := None;
     Data.info_data := None |}.

Definition cmd_entity (entity_type : string) (id : Z) : Data.t :=
  {| Data.avatar_id := None; Data.avatar_group := None; Data.ic_id := None;
     Data.ic_group := None; Data.request_id := None; Data.request_group := None;
     Data.source_id := None; Data.dest_id := None; Data.dest_group := None;
     Data.duration := None; Data.session_id := None;
     Data.entity_type := Some entity_type; Data.id := Some id;
     Data.group_type := None; Data.group_name := None; Data.member_id := None;
     Data.avatar_identifier := None; Data.photo_data_b64 := None;
     Data.info_data := None |}.

Definition cmd_group (group_type group_name : string) (member_id : option Z)
    : Data.t :=
  {| Data.avatar_id := None; Data.avatar_group := None; Data.ic_id := None;
     Data.ic_group := None; Data.request_id := None; Data.request_group := None;
     Data.source_id := None; Data.dest_id := None; Data.dest_group := None;
     Data.duration := None; Data.session_id := None; Data.entity_type := None;
     Data.id := None; Data.group_type := Some group_type;
     Data.group_name := Some group_name; Data.member_id := member_id;
     Data.avatar_identifier := None; Data.photo_data_b64 := None;
     Data.info_data := None |}.

Definition cmd_fail (avatar_id : option Z) (avatar_group : option string) : Data.t :=
  {| Data.avatar_id := avatar_id; Data.avatar_group := avatar_group;
     Data.ic_id := None; Data.ic_group := None; Data.request_id := None;
     Data.request_group := None; Data.source_id := None; Data.dest_id := None;
     Data.dest_group := None; Data.duration := None; Data.session_id := None;
     Data.entity_type := None; Data.id := None; Data.group_type := None;
     Data.group_name := None; Data.member_id := None;
     Data.avatar_identifier := None; Data.photo_data_b64 := None;
     Data.info_data := None |}.

(** ** Observations on a store *)

(** The status of the session with primary key [i]. *)
Definition status_of (i : Z) (st : Store) : option SessionStatus.t :=
  Session.status <$> find (λ r, bool_decide (Session.id r = i)) (sessions st).

(** The leaves under the parent [p] that are RUNNING. *)
Definition running_leaves (p : Z) (st : Store) : list Session.t :=
  filter (λ r, is_ (Session.parent_session_id r) p
               && negb (Session.is_group_session r)
               && bool_decide (Session.status r = SessionStatus.RUNNING))
         (sessions st).

(** The rows a command created: those whose key the sequence had not
    handed out before. *)
Definition created (d d' : HealerDaemon) : list Session.t :=
  filter (λ r, next_session_id d ≤ Session.id r) (sessions (db d')).

(** ** A small catalogue to run the handlers on

    Three avatars, two information copies and a request; the avatar group
    G = {Ann, Bob}, the avatar group Solo = {Cy} and the IC group H = {IC7}.
    The clock advances by one microsecond per reading. *)
Module Scenario.

Definition catalogue : Store :=
  {| avatars :=
       [ {| Avatar.id := 1; Avatar.name := "Ann";
            Avatar.photo_data := []; Avatar.info_data := "a" |};
         {| Avatar.id := 2; Avatar.name := "Bob";
            Avatar.photo_data := []; Avatar.info_data := "b" |};
         {| Avatar.id := 3; Avatar.name := "Cy";
            Avatar.photo_data := []; Avatar.info_data := "c" |} ];
     information_copies :=
       [ {| InformationCopy.id := 7; InformationCopy.name := "IC7";
            InformationCopy.wav_data := [] |};
         {| InformationCopy.id := 8; InformationCopy.name := "IC8";
            InformationCopy.wav_data := [] |} ];
     requests :=
       [ {| Request.id := 5; Request.name := "R5"; Request.request_data := "r" |} ];
     avatar_groups :=
       [ {| AvatarGroup.id := 10; AvatarGroup.name := "G" |};
         {| AvatarGroup.id := 11; AvatarGroup.name := "Solo" |} ];
     avatar_group_members :=
       [ {| AvatarGroupMember.group_id := 10; AvatarGroupMember.avatar_id := 1 |};
         {| AvatarGroupMember.group_id := 10; AvatarGroupMember.avatar_id := 2 |};
         {| AvatarGroupMember.group_id := 11; AvatarGroupMember.avatar_id := 3 |} ];
     ic_groups := [ {| ICGroup.id := 20; ICGroup.name := "H" |} ];
     ic_group_members :=
       [ {| ICGroupMember.group_id := 20; ICGroupMember.ic_id := 7 |} ];
     request_groups := [];
     request_group_members := [];
     sessions := [] |}.

Definition boot (st : Store) : HealerDaemon :=
  {| db := st; saved := st; next_session_id := 1;
     ic_cache := ∅; avatar_cache := ∅; request_cache := ∅;
     active_workers := ∅; live := ∅; next_pid := 100;
     utc := λ n, 1000 + Z.of_nat n; reads := 0 |}.

Definition fresh : HealerDaemon := boot catalogue.

(** After [start_group G H]: parent 1, leaves 2 and 3, all RUNNING. *)
Definition group_on_group : HealerDaemon :=
  (run "start_group" (cmd_start_group "G" "H" (Some 30)) fresh).2.

(** The rows of that table, by position (0 is the parent). *)
Definition group_on_group_row (i : nat) : Session.t :=
  default (Session.new SessionType.IC_SESSION 0 None SessionStatus.SCHEDULED)
          (sessions (db group_on_group) !! i).

(** After [start_ic] of IC7 on Ann: the single session 1, RUNNING. *)
Definition one_leaf : HealerDaemon :=
  (run "start_ic" (cmd_start_ic (Some 1) None 7 None) fresh).2.

(** Then [fail_all_running]: session 1 is FAILED. *)
Definition one_failed : HealerDaemon :=
  (run "fail_all_running" Data.empty one_leaf).2.

(** [start_ic] of IC7 on G (parent 1, leaves 2, 3), the parent stopped,
    then [start_ic] of IC8 on G (parent 4, leaves 5, 6). *)
Definition stopped_and_running : HealerDaemon :=
  let d1 := (run "start_ic" (cmd_start_ic None (Some "G") 7 None) fresh).2 in
  let d2 := (run "stop_session" (cmd_stop_session 1) d1).2 in
  (run "start_ic" (cmd_start_ic None (Some "G") 8 None) d2).2.

(** After [start_group G H], then [fail_all_running]: the parent 1 and the
    leaves 2 and 3 are FAILED. *)
Definition group_failed : HealerDaemon :=
  (run "fail_all_running" Data.empty group_on_group).2.

End Scenario.

(** ** healer_cli.py: further [data] objects *)

Definition cmd_view (avatar_identifier : string) : Data.t :=
  {| Data.avatar_id := None; Data.avatar_group := None; Data.ic_id := None;
     Data.ic_group := None; Data.request_id := None; Data.request_group := None;
     Data.source_id := None; Data.dest_id := None; Data.dest_group := None;
     Data.duration := None; Data.session_id := None; Data.entity_type := None;
     Data.id := None; Data.group_type := None; Data.group_name := None;
     Data.member_id := None; Data.avatar_identifier := Some avatar_identifier;
     Data.photo_data_b64 := None; Data.info_data := None |}.

Definition cmd_start_request (avatar_id : option Z) (avatar_group : option string)
    (request_id : option Z) (request_group : option string) (duration : option Z)
    : Data.t :=
  {| Data.avatar_id := avatar_id; Data.avatar_group := avatar_group;
     Data.ic_id := None; Data.ic_group := None; Data.request_id := request_id;
     Data.request_group := request_group; Data.source_id := None;
     Data.dest_id := None; Data.dest_group := None; Data.duration := duration;
     Data.session_id := None; Data.entity_type := None; Data.id := None;
     Data.group_type := None; Data.group_name := None; Data.member_id := None;
     Data.avatar_identifier := None; Data.photo_data_b64 := None;
     Data.info_data := None |}.

Definition cmd_start_link (source_id : Z) (dest_id : option Z)
    (dest_group : option string) (duration : option Z) : Data.t :=
  {| Data.avatar_id := None; Data.avatar_group := None; Data.ic_id := None;
     Data.ic_group := None; Data.request_id := None; Data.request_group := None;
     Data.source_id := Some source_id; Data.dest_id := dest_id;
     Data.dest_group := dest_group; Data.duration := duration;
     Data.session_id := None; Data.entity_type := None; Data.id := None;
     Data.group_type := None; Data.group_name := None; Data.member_id := None;
     Data.avatar_identifier := None; Data.photo_data_b64 := None;
     Data.info_data := None |}.

(** ** Reasoning about handlers *)

(** [hoare P m Q E]: from a daemon that satisfies [P], the computation [m]
    ends in a daemon that satisfies [Q a] when it returns [a], and [E] when
    it raises.  Computations are total functions, so there is always an
    outcome. *)
Definition hoare {A} (P : HealerDaemon → Prop) (m : M A)
    (Q : A → HealerDaemon → Prop) (E : HealerDaemon → Prop) : Prop :=
  ∀ d, P d →
    match m d with
    | (Ok a, d') => Q a d'
    | (Raise _, d') => E d'
    end.

(** [keeps I m]: [I] is an invariant of [m], on every exit. *)
Definition keeps {A} (I : HealerDaemon → Prop) (m : M A) : Prop :=
  hoare I m (λ _, I) I.

(** [gives I φ m]: [I] is an invariant of [m] and the value returned
    satisfies [φ]. *)
Definition gives {A} (I : HealerDaemon → Prop) (φ : A → Prop) (m : M A) : Prop :=
  hoare I m (λ a d, φ a ∧ I d) I.

(** ** Integrity of the store *)

(** Primary key and sequence of the sessions table. *)
Definition keyed (st : Store) (n : Z) : Prop :=
  NoDup (map Session.id (sessions st))
  ∧ ∀ r, r ∈ sessions st → Session.id r < n.

(** Foreign keys of the membership tables. *)
Definition members_exist (st : Store) : Prop :=
  (∀ m, m ∈ avatar_group_members st →
        ∃ a, a ∈ avatars st ∧ Avatar.id a = AvatarGroupMember.avatar_id m)
  ∧ (∀ m, m ∈ ic_group_members st →
          ∃ c, c ∈ information_copies st
               ∧ InformationCopy.id c = ICGroupMember.ic_id m)
  ∧ (∀ m, m ∈ request_group_members st →
          ∃ q, q ∈ requests st ∧ Request.id q = RequestGroupMember.request_id m).

(** Nothing is pending in the unit of work, and the keys are sound. *)
Definition settled (d : HealerDaemon) : Prop :=
  saved d = db d ∧ keyed (db d) (next_session_id d).

(** The rows with key [i] have a status in [A], in the working copy and in
    the committed one, and the sequence is past [i]. *)
Definition within (A : SessionStatus.t → Prop) (i : Z) (d : HealerDaemon) : Prop :=
  (∀ r, r ∈ sessions (db d) → Session.id r = i → A (Session.status r))
  ∧ (∀ r, r ∈ sessions (saved d) → Session.id r = i → A (Session.status r))
  ∧ i < next_session_id d.

(** The leaves created since the sequence stood at [n0] that hang under a
    parent of kind GROUP_IC_SESSION are plain IC sessions. *)
Definition leaves_typed (n0 : Z) (st : Store) : Prop :=
  ∀ r p, r ∈ sessions st → p ∈ sessions st → n0 ≤ Session.id r →
         Session.parent_session_id r = Some (Session.id p) →
         Session.session_type p = SessionType.GROUP_IC_SESSION →
         Session.session_type r = SessionType.IC_SESSION
         ∧ Session.is_group_session r = false.

(** The parents [L] that a handler loaded are still in the table, under the
    same key and kind. *)
Definition present (L : list Session.t) (st : Store) : Prop :=
  ∀ P, P ∈ L → ∃ P', P' ∈ sessions st ∧ Session.id P' = Session.id P
                     ∧ Session.session_type P' = Session.session_type P.

Definition typed (L : list Session.t) (n0 n : Z) (st : Store) : Prop :=
  keyed st n ∧ leaves_typed n0 st ∧ present L st.

Definition typing (L : list Session.t) (n0 : Z) (d : HealerDaemon) : Prop :=
  typed L n0 (next_session_id d) (db d) ∧ typed L n0 (next_session_id d) (saved d).

(** The sequence still stands at [n0]: no row was created yet. *)
Definition untouched (n0 : Z) (d : HealerDaemon) : Prop :=
  typing [] n0 d ∧ next_session_id d = n0.

(** ** The three kinds of group, by the [group_type] of a command *)

Definition group_named (group_type name : string) (st : Store) : option Z :=
  if bool_decide (group_type = "avatar") then
    AvatarGroup.id <$> find (λ g, bool_decide (AvatarGroup.name g = name))
                            (avatar_groups st)
  else if bool_decide (group_type = "ic") then
    ICGroup.id <$> find (λ g, bool_decide (ICGroup.name g = name)) (ic_groups st)
  else if bool_decide (group_type = "request") then
    RequestGroup.id <$> find (λ g, bool_decide (RequestGroup.name g = name))
                             (request_groups st)
  else None.

(** The keys of the groups of a kind, and the groups its memberships and a
    session point to. *)
Definition group_ids (group_type : string) (st : Store) : list Z :=
  if bool_decide (group_type = "avatar") then map AvatarGroup.id (avatar_groups st)
  else if bool_decide (group_type = "ic") then map ICGroup.id (ic_groups st)
  else map RequestGroup.id (request_groups st).

Definition membership_group_ids (group_type : string) (st : Store) : list Z :=
  if bool_decide (group_type = "avatar") then
    map AvatarGroupMember.group_id (avatar_group_members st)
  else if bool_decide (group_type = "ic") then
    map ICGroupMember.group_id (ic_group_members st)
  else map RequestGroupMember.group_id (request_group_members st).

Definition session_group (group_type : string) (r : Session.t) : option Z :=
  if bool_decide (group_type = "avatar") then Session.avatar_group_id r
  else if bool_decide (group_type = "ic") then Session.ic_group_id r
  else Session.request_group_id r.

(** What a supervisor sees of a session: its key, status and worker. *)
Definition lifecycle (r : Session.t) : Z * SessionStatus.t * option Z :=
  (Session.id r, Session.status r, Session.worker_pid r).

(** ** The expansion of [start_group] *)

(** A row without what the supervisor writes on it. *)
Definition plan (r : Session.t) : Session.t :=
  Session.set_worker_pid None (Session.set_status SessionStatus.SCHEDULED r).

(** The store without its sessions. *)
Definition catalogue_of (st : Store) : Store := with_sessions (λ _, []) st.

(** The two sides of an IC leaf. *)
Definition sides (r : Session.t) : option Z * option Z :=
  (Session.avatar_id r, Session.ic_id r).

(** [total I m]: [I] is an invariant of [m], and [m] does not raise. *)
Definition total {A} (I : HealerDaemon → Prop) (m : M A) : Prop :=
  hoare I m (λ _, I) (λ _, False).

(** The table while [start_group] expands: the rows of [d0], the parent,
    and one leaf for each of [pairs], in order. *)
Definition expanding (d0 : HealerDaemon) (parent : Session.t)
    (pairs : list (Z * Z)) (d : HealerDaemon) : Prop :=
  catalogue_of (db d) = catalogue_of (db d0)
  ∧ next_session_id d0 < next_session_id d
  ∧ ∃ P leaves,
      sessions (db d) = sessions (db d0) ++ P :: leaves
      ∧ plan P = plan parent
      ∧ map sides leaves = map (λ p, (Some p.1, Some p.2)) pairs
      ∧ Forall (λ r, Session.is_group_session r = false
                     ∧ Session.parent_session_id r = Some (Session.id parent))
               leaves.

(** The ids of the members of a group, in table order. *)
Definition avatar_ids_of (g : Z) (st : Store) : list Z :=
  map AvatarGroupMember.avatar_id
    (filter (λ m, bool_decide (AvatarGroupMember.group_id m = g))
            (avatar_group_members st)).

Definition ic_ids_of (g : Z) (st : Store) : list Z :=
  map ICGroupMember.ic_id
    (filter (λ m, bool_decide (ICGroupMember.group_id m = g)) (ic_group_members st)).

(** ** The end time of a command *)

(** [representable data now]: at the clock reading [now] the end time
    [now + timedelta(minutes=duration)] exists, that is, the timedelta can
    be built and the sum is a date of the years 1 to 9999; without a
    duration there is no end time to compute. *)
Definition representable (data : Data.t) (now : Z) : Prop :=
  match truthy_int (Data.duration data) with
  | Some m => -999999999 ≤ m `div` 1440 ≤ 999999999
              ∧ 0 ≤ now + m * 60000000 ≤ datetime_max
  | None => True
  end.

(** ** What a command may do to a terminal session *)

(** The sessions that go when the avatar [a] is deleted: those that have
    it as source or destination, and all the sessions below them. *)
Definition goes_with (a : Z) (st : Store) : list Z :=
  cascade (sessions st)
    (map Session.id
       (filter (λ r, is_ (Session.avatar_id r) a
                     || is_ (Session.destination_avatar_id r) a) (sessions st))).

(** The command is [remove_entity] on an existing avatar, and the session
    [i] goes with it. *)
Definition removed_with (action : string) (data : Data.t) (d : HealerDaemon)
    (i : Z) : Prop :=
  action = "remove_entity" ∧ Data.entity_type data = Some "avatar"
  ∧ ∃ a, Data.id data = Some a
         ∧ is_Some (find (λ r, bool_decide (Avatar.id r = a)) (avatars (db d)))
         ∧ i ∈ goes_with a (db d).

(** The command names an existing avatar group, and the committed row of
    the session [i] refers to that group: [fail_sessions_on_target] takes
    such a session for a parent of the group. *)
Definition marked (data : Data.t) (d : HealerDaemon) (i : Z) : Prop :=
  ∃ n g r, truthy_str (Data.avatar_group data) = Some n
    ∧ find (λ g, bool_decide (AvatarGroup.name g = n)) (avatar_groups (db d))
      = Some g
    ∧ find (λ r, bool_decide (Session.id r = i)) (sessions (saved d)) = Some r
    ∧ Session.avatar_group_id r = Some (AvatarGroup.id g).

(** The session [i] has a row, in the working copy and in the committed
    one. *)
Definition held (i : Z) (d : HealerDaemon) : Prop :=
  i ∈ map Session.id (sessions (db d)) ∧ i ∈ map Session.id (sessions (saved d)).

(** What the cascade of a deletion looks at: key, parent and the two
    avatars of a row. *)
Definition outline (r : Session.t) : Z * option Z * option Z * option Z :=
  (Session.id r, Session.parent_session_id r, Session.avatar_id r,
   Session.destination_avatar_id r).

Definition shape (l : list Session.t)
    : list (Z * option Z * option Z * option Z) :=
  map outline l.

(** While [remove_entity] stops the sessions of the avatar, the table keeps
    its shape [sh] and the row of [i]. *)
Definition stopping (i : Z) (sh : list (Z * option Z * option Z * option Z))
    (d : HealerDaemon) : Prop :=
  shape (sessions (db d)) = sh ∧ held i d.

(** ** Further observations *)

(** The names the dispatch table of [run] knows. *)
Definition actions : list string :=
  [ "ping"; "start_ic"; "start_request"; "start_link"; "start_group";
    "stop_session"; "view_running_on"; "add_member_to_group";
    "remove_member_from_group"; "remove_entity"; "remove_group"; "redo_failed";
    "update_entity"; "fail_sessions_on_target"; "fail_all_running" ].

(** The row of the session [i]. *)
Definition row (i : Z) (st : Store) : option Session.t :=
  find (λ r, bool_decide (Session.id r = i)) (sessions st).

(** A computation that leaves the daemon as it found it. *)
Definition reads_only {A} (m : M A) : Prop := ∀ d, (m d).2 = d.

(** The rows with key [i] rewritten by [f], the other rows as they are. *)
Definition rewritten (i : Z) (f : Session.t → Session.t) (l : list Session.t)
    : list Session.t :=
  map (λ r, if bool_decide (Session.id r = i) then f r else r) l.

(** [d'] differs from [d] in its caches at most. *)
Definition same_but_caches (d d' : HealerDaemon) : Prop :=
  db d' = db d ∧ saved d' = saved d ∧ next_session_id d' = next_session_id d
  ∧ active_workers d' = active_workers d ∧ live d' = live d
  ∧ next_pid d' = next_pid d.

(** What [_get_target_avatar_ids] resolves to without an avatar id: the
    member ids of the named group, in the order of the membership table. *)
Definition avatar_id_absent (avatar_group_name : option string) (d : HealerDaemon)
    (ids : list Z) : Prop :=
  ∃ n g, truthy_str avatar_group_name = Some n
         ∧ find (λ g, bool_decide (AvatarGroup.name g = n)) (avatar_groups (db d))
           = Some g
         ∧ ids = map AvatarGroupMember.avatar_id
                   (filter (λ m, bool_decide (AvatarGroupMember.group_id m
                                              = AvatarGroup.id g))
                           (avatar_group_members (db d))).

(** ** Invariants of the command loop *)

(** [closed I]: the primitive steps of the handlers keep [I], and so do the
    steps that touch neither store, the sequence, nor the caches. *)
Record closed (I : HealerDaemon → Prop) : Prop := {
  closed_env : ∀ d d',
    db d' = db d → saved d' = saved d → next_session_id d' = next_session_id d →
    avatar_cache d' = avatar_cache d → ic_cache d' = ic_cache d →
    request_cache d' = request_cache d → I d → I d';
  closed_commit : keeps I commit;
  closed_rollback : keeps I rollback;
  closed_add : ∀ s, keeps I (add s);
  closed_update : ∀ j f,
    (∀ r, Session.id (f r) = Session.id r) → keeps I (update_session j f);
  closed_load_avatar : ∀ k, keeps I (_load_avatar_to_cache k);
  closed_load_ic : ∀ k, keeps I (_load_ic_to_cache k);
  closed_load_request : ∀ k, keeps I (_load_request_to_cache k);
  closed_leave_avatar : ∀ p : AvatarGroupMember.t → bool,
    keeps I (modify (with_db (with_avatar_group_members (filter p))));
  closed_leave_ic : ∀ p : ICGroupMember.t → bool,
    keeps I (modify (with_db (with_ic_group_members (filter p))));
  closed_leave_request : ∀ p : RequestGroupMember.t → bool,
    keeps I (modify (with_db (with_request_group_members (filter p))));
  closed_delete_avatar_group : ∀ g, keeps I (delete_avatar_group g);
  closed_delete_ic_group : ∀ g, keeps I (delete_ic_group g);
  closed_delete_request_group : ∀ g, keeps I (delete_request_group g)
}.

(** Primary keys: in both copies of the store the session ids are pairwise
    distinct and below the sequence. *)
Definition keys_sound (d : HealerDaemon) : Prop :=
  keyed (db d) (next_session_id d) ∧ keyed (saved d) (next_session_id d).

(** Foreign keys of the membership tables, in both copies. *)
Definition members_sound (d : HealerDaemon) : Prop :=
  members_exist (db d) ∧ members_exist (saved d).

(** The payload of an avatar, as [_load_avatar_to_cache] builds it. *)
Definition avatar_payload (a : Avatar.t) : bytes :=
  Avatar.photo_data a ++ encode (Avatar.info_data a).

(** The cached avatar payloads, but for the key [skip], are those of the
    rows of the working copy. *)
Definition avatars_cached (skip : option Z) (d : HealerDaemon) : Prop :=
  ∀ k b, Some k ≠ skip → avatar_cache d !! k = Some b →
    ∃ a, find (λ r, bool_decide (Avatar.id r = k)) (avatars (db d)) = Some a
         ∧ b = avatar_payload a.

(** The information copies and requests: the two copies of the store agree
    on them, and the cached payloads are those of their rows. *)
Definition fixed_cached (d : HealerDaemon) : Prop :=
  information_copies (saved d) = information_copies (db d)
  ∧ requests (saved d) = requests (db d)
  ∧ (∀ k b, ic_cache d !! k = Some b →
       ∃ c, find (λ r, bool_decide (InformationCopy.id r = k))
                 (information_copies (db d)) = Some c
            ∧ b = InformationCopy.wav_data c)
  ∧ (∀ k b, request_cache d !! k = Some b →
       ∃ q, find (λ r, bool_decide (Request.id r = k)) (requests (db d)) = Some q
            ∧ b = encode (Request.request_data q)).

(** Every cached payload is the payload of the row it was loaded from, as
    the database has it now. *)
Definition caches_coherent (d : HealerDaemon) : Prop :=
  avatars (saved d) = avatars (db d) ∧ avatars_cached None d ∧ fixed_cached d.

(** The same while the avatar [i] is being rewritten or deleted: its own
    entry may be out of date. *)
Definition stale (i : Z) (d : HealerDaemon) : Prop :=
  avatars_cached (Some i) d ∧ fixed_cached d.

(** ** The unit of work between commands *)

(** Nothing is pending: the working copy is the committed one. *)
Definition clean (d : HealerDaemon) : Prop := saved d = db d.

(** [leaves_clean m]: started with nothing pending, [m] returns with
    nothing pending.  [ends_clean m]: however it is started, [m] returns
    with nothing pending (its last write is followed by a commit or a
    rollback). *)
Definition leaves_clean {A} (m : M A) : Prop :=
  hoare clean m (λ _, clean) (λ _, True).

Definition ends_clean {A} (m : M A) : Prop :=
  hoare (λ _, True) m (λ _, clean) (λ _, True).

(** ** Ending sessions in bulk *)

(** A RUNNING row ended with the status [final]; any other row as it is. *)
Definition end_running (final : SessionStatus.t) (r : Session.t) : Session.t :=
  if bool_decide (Session.status r = SessionStatus.RUNNING)
  then Session.set_worker_pid None (Session.set_status final r)
  else r.

(** The table after the sessions with a key in [ids] were ended. *)
Definition ended (final : SessionStatus.t) (ids : list Z) (l : list Session.t)
    : list Session.t :=
  map (λ r, if bool_decide (Session.id r ∈ ids) then end_running final r else r) l.

(** What ending sessions leaves alone: the catalogue, the sequence, the
    caches, the clock and the process ids yet to be handed out. *)
Definition only_sessions (d0 d : HealerDaemon) : Prop :=
  catalogue_of (db d) = catalogue_of (db d0)
  ∧ next_session_id d = next_session_id d0
  ∧ avatar_cache d = avatar_cache d0
  ∧ ic_cache d = ic_cache d0
  ∧ request_cache d = request_cache d0
  ∧ next_pid d = next_pid d0
  ∧ reads d = reads d0.

(** The daemon after the sessions [ids] of [d0] were ended one by one:
    nothing is pending, the table is [ended], the sessions among [ids] that
    were RUNNING have no registered worker, and the other workers are as
    they were. *)
Definition ended_from (final : SessionStatus.t) (d0 : HealerDaemon) (ids : list Z)
    (d : HealerDaemon) : Prop :=
  clean d
  ∧ only_sessions d0 d
  ∧ sessions (db d) = ended final ids (sessions (db d0))
  ∧ (∀ i, i ∈ ids → Session.status <$> row i (db d0) = Some SessionStatus.RUNNING →
          active_workers d !! i = None)
  ∧ (∀ i, i ∉ ids → active_workers d !! i = active_workers d0 !! i).

(** ** Spawning and [redo_failed] *)

(** A payload can be loaded: it is in the cache, or its row exists. *)
Definition avatar_loadable (d : HealerDaemon) (k : option Z) : bool :=
  match k with
  | Some a =>
      match avatar_cache d !! a,
            find (λ r, bool_decide (Avatar.id r = a)) (avatars (db d)) with
      | None, None => false
      | _, _ => true
      end
  | None => false
  end.

Definition ic_loadable (d : HealerDaemon) (k : option Z) : bool :=
  match k with
  | Some a =>
      match ic_cache d !! a,
            find (λ r, bool_decide (InformationCopy.id r = a))
                 (information_copies (db d)) with
      | None, None => false
      | _, _ => true
      end
  | None => false
  end.

Definition request_loadable (d : HealerDaemon) (k : option Z) : bool :=
  match k with
  | Some a =>
      match request_cache d !! a,
            find (λ r, bool_decide (Request.id r = a)) (requests (db d)) with
      | None, None => false
      | _, _ => true
      end
  | None => false
  end.

(** The two payloads of a session, by its kind, can be loaded. *)
Definition payloads_loadable (d : HealerDaemon) (s : Session.t) : bool :=
  match Session.session_type s with
  | SessionType.IC_SESSION | SessionType.GROUP_IC_SESSION =>
      avatar_loadable d (Session.avatar_id s) && ic_loadable d (Session.ic_id s)
  | SessionType.REQUEST_SESSION =>
      avatar_loadable d (Session.avatar_id s)
      && request_loadable d (Session.request_id s)
  | SessionType.AVATAR_LINK =>
      avatar_loadable d (Session.avatar_id s)
      && avatar_loadable d (Session.destination_avatar_id s)
  end.

(** [d'] is [d] with more payloads cached, at most. *)
Definition cached_more (d d' : HealerDaemon) : Prop :=
  db d' = db d ∧ saved d' = saved d ∧ next_session_id d' = next_session_id d
  ∧ active_workers d' = active_workers d ∧ live d' = live d
  ∧ next_pid d' = next_pid d ∧ utc d' = utc d ∧ reads d' = reads d
  ∧ (∀ k, avatar_loadable d' k = avatar_loadable d k)
  ∧ (∀ k, ic_loadable d' k = ic_loadable d k)
  ∧ (∀ k, request_loadable d' k = request_loadable d k).

(** The session that [redo_failed] is to create for the FAILED session
    [old] at the time [now]: the kind, the parent and the seven references
    of [old], the description of [old] after "[REDO] ", the end time of
    [old], and the status SCHEDULED. *)
Definition redo_of (old : Session.t) (now : Z) : Session.t :=
  {| Session.id := 0;
     Session.parent_session_id := Session.parent_session_id old;
     Session.is_group_session := false;
     Session.description :=
       Some ("[REDO] " +:+ str_opt (Session.description old));
     Session.avatar_id := Session.avatar_id old;
     Session.ic_id := Session.ic_id old;
     Session.request_id := Session.request_id old;
     Session.destination_avatar_id := Session.destination_avatar_id old;
     Session.avatar_group_id := Session.avatar_group_id old;
     Session.ic_group_id := Session.ic_group_id old;
     Session.request_group_id := Session.request_group_id old;
     Session.session_type := Session.session_type old;
     Session.start_time := now;
     Session.end_time := Session.end_time old;
     Session.status := SessionStatus.SCHEDULED;
     Session.worker_pid := None |}.

(** A session that was found FAILED is RESTARTED. *)
Definition restarted (ids : list Z) (r : Session.t) : Session.t :=
  if bool_decide (Session.id r ∈ ids)
  then Session.set_status SessionStatus.RESTARTED r else r.

(** What spawning makes of the daemon [d]: the outcome is committed; when
    the payloads could be loaded ([ok]) the session is RUNNING under the
    pid of a new live process, registered as its worker, and when not it is
    FAILED and no process was started.  The sequence, the clock and what
    can be loaded are as they were. *)
Definition spawn_left (s : Session.t) (ok : bool) (d d' : HealerDaemon) : Prop :=
  saved d' = db d'
  ∧ next_session_id d' = next_session_id d ∧ utc d' = utc d ∧ reads d' = reads d
  ∧ (∀ k, avatar_loadable d' k = avatar_loadable d k)
  ∧ (∀ k, ic_loadable d' k = ic_loadable d k)
  ∧ (∀ k, request_loadable d' k = request_loadable d k)
  ∧ if ok
    then db d' = with_sessions
                   (rewritten (Session.id s)
                      (λ r, Session.set_worker_pid (Some (next_pid d))
                              (Session.set_status SessionStatus.RUNNING r)))
                   (db d)
         ∧ active_workers d' = <[Session.id s := next_pid d]> (active_workers d)
         ∧ live d' = {[next_pid d]} ∪ live d
         ∧ next_pid d' = next_pid d + 1
    else db d' = with_sessions
                   (rewritten (Session.id s)
                      (Session.set_status SessionStatus.FAILED)) (db d)
         ∧ active_workers d' = active_workers d ∧ live d' = live d
         ∧ next_pid d' = next_pid d.

(** What spawning leaves of the row of a new session: RUNNING under the
    pid of its registered worker when its payloads could be loaded ([ok]),
    FAILED without a worker when they could not. *)
Definition spawned (ok : bool) (d : HealerDaemon) (n : Session.t) : Prop :=
  if ok
  then Session.status n = SessionStatus.RUNNING
       ∧ ∃ pid, Session.worker_pid n = Some pid
                ∧ active_workers d !! Session.id n = Some pid
  else Session.status n = SessionStatus.FAILED ∧ Session.worker_pid n = None
       ∧ active_workers d !! Session.id n = None.

(** Only group sessions carry a reference to a request group. *)
Definition leaves_ungrouped (st : Store) : Prop :=
  ∀ r, r ∈ sessions st → Session.is_group_session r = false →
       Session.request_group_id r = None.

(** The workers are registered under keys that the sequence has handed
    out, and the sequence starts above 0. *)
Definition workers_known (d : HealerDaemon) : Prop :=
  0 < next_session_id d
  ∧ ∀ j, is_Some (active_workers d !! j) → j < next_session_id d.

(** The daemon while [redo_failed] works through the sessions it found
    FAILED in [d0], after those of [pre]: they are RESTARTED; for each that
    is not a group session the clock was read and a session was created,
    under the next key of the sequence; the new session has the fields of
    [redo_of] and was spawned. *)
Definition redoing (d0 : HealerDaemon) (pre : list Session.t) (d : HealerDaemon)
    : Prop :=
  let redone := filter (λ r, negb (Session.is_group_session r)) pre in
  utc d = utc d0
  ∧ reads d = (reads d0 + length redone)%nat
  ∧ next_session_id d = next_session_id d0 + Z.of_nat (length redone)
  ∧ (∀ j, is_Some (active_workers d !! j) → j < next_session_id d)
  ∧ (∀ k, avatar_loadable d k = avatar_loadable d0 k)
  ∧ (∀ k, ic_loadable d k = ic_loadable d0 k)
  ∧ (∀ k, request_loadable d k = request_loadable d0 k)
  ∧ ∃ news,
      sessions (db d)
      = map (restarted (map Session.id pre)) (sessions (db d0)) ++ news
      ∧ map Session.id news
        = map (λ k, next_session_id d0 + Z.of_nat k) (seq 0 (length redone))
      ∧ map Session.start_time news
        = map (λ k, utc d0 (reads d0 + k)%nat) (seq 0 (length redone))
      ∧ Forall2 (λ old new,
                   plan new = plan (Session.set_id (Session.id new)
                                      (redo_of old (Session.start_time new)))
                   ∧ spawned (payloads_loadable d0 old) d new)
                redone news.

(** Only group sessions refer to a request group, in the working copy and
    in the last commit. *)
Definition ungrouped (d : HealerDaemon) : Prop :=
  leaves_ungrouped (db d) ∧ leaves_ungrouped (saved d).

(** * Hoare rules *)

Section Rules.
Context {A B : Type}.
Implicit Types (P I E : HealerDaemon → Prop).

Lemma hoare_ret P (a : A) (Q : A → HealerDaemon → Prop) E :
  (∀ d, P d → Q a d) → hoare P (mret a) Q E.
Proof. intros H d Hd. cbn. auto. Qed.

Lemma hoare_raise P (e : string) (Q : A → HealerDaemon → Prop) E :
  (∀ d, P d → E d) → hoare P (raise e) Q E.
Proof. intros H d Hd. cbn. auto. Qed.

Lemma hoare_gets P (f : HealerDaemon → A) (Q : A → HealerDaemon → Prop) E :
  (∀ d, P d → Q (f d) d) → hoare P (gets f) Q E.
Proof. intros H d Hd. cbn. auto. Qed.

Lemma hoare_modify P (f : HealerDaemon → HealerDaemon)
    (Q : unit → HealerDaemon → Prop) E :
  (∀ d, P d → Q tt (f d)) → hoare P (modify f) Q E.
Proof. intros H d Hd. cbn. auto. Qed.

Lemma hoare_bind P (m : M A) (f : A → M B) (R : A → HealerDaemon → Prop)
    (Q : B → HealerDaemon → Prop) E :
  hoare P m R E → (∀ a, hoare (R a) (f a) Q E) → hoare P (m ≫= f) Q E.
Proof.
  intros Hm Hf d Hd. specialize (Hm d Hd).
  unfold mbind, M_bind. destruct (m d) as [[a|e] d']; [|done].
  by apply Hf.
Qed.

Lemma hoare_try P (m : M A) (h : string → M A) (Q : A → HealerDaemon → Prop)
    (E' E : HealerDaemon → Prop) :
  hoare P m Q E' → (∀ e, hoare E' (h e) Q E) → hoare P (try_except m h) Q E.
Proof.
  intros Hm Hh d Hd. specialize (Hm d Hd).
  unfold try_except. destruct (m d) as [[a|e] d']; [done|].
  by apply Hh.
Qed.

Lemma hoare_conseq (P P' : HealerDaemon → Prop) (m : M A)
    (Q Q' : A → HealerDaemon → Prop) (E E' : HealerDaemon → Prop) :
  hoare P' m Q' E' →
  (∀ d, P d → P' d) → (∀ a d, Q' a d → Q a d) → (∀ d, E' d → E d) →
  hoare P m Q E.
Proof.
  intros Hm HP HQ HE d Hd. specialize (Hm d (HP d Hd)).
  destruct (m d) as [[a|e] d']; auto.
Qed.

(** A fact that does not depend on the daemon can leave the precondition. *)
Lemma hoare_pure (φ : Prop) P (m : M A) (Q : A → HealerDaemon → Prop) E :
  (φ → hoare P m Q E) → hoare (λ d, φ ∧ P d) m Q E.
Proof. intros H d [Hφ Hd]. by apply H. Qed.

Lemma keeps_bind I (m : M A) (f : A → M B) :
  keeps I m → (∀ a, keeps I (f a)) → keeps I (m ≫= f).
Proof. intros Hm Hf. by apply hoare_bind with (R := λ _, I). Qed.

Lemma gives_bind I (φ : A → Prop) (m : M A) (f : A → M B) :
  gives I φ m → (∀ a, φ a → keeps I (f a)) → keeps I (m ≫= f).
Proof.
  intros Hm Hf. apply hoare_bind with (R := λ a d, φ a ∧ I d); [done|].
  intros a d [Hφ Hd]. by apply Hf.
Qed.

Lemma gives_bind_gives I (φ : A → Prop) (ψ : B → Prop) (m : M A) (f : A → M B) :
  gives I φ m → (∀ a, φ a → gives I ψ (f a)) → gives I ψ (m ≫= f).
Proof.
  intros Hm Hf. apply hoare_bind with (R := λ a d, φ a ∧ I d); [done|].
  intros a d [Hφ Hd]. by apply Hf.
Qed.

Lemma keeps_gives I (φ : A → Prop) (m : M A) :
  gives I φ m → keeps I m.
Proof. intros H. eapply hoare_conseq; [exact H|..]; [done|by intros ?? []|done]. Qed.

Lemma gives_true I (m : M A) : keeps I m → gives I (λ _, True) m.
Proof. intros H. eapply hoare_conseq; [exact H|..]; done. Qed.

Lemma keeps_ret I (a : A) : keeps I (mret a).
Proof. by apply hoare_ret. Qed.

Lemma gives_ret I (φ : A → Prop) (a : A) : φ a → gives I φ (mret a).
Proof. intros. by apply hoare_ret. Qed.

Lemma keeps_raise I (e : string) : keeps I (raise e : M A).
Proof. by apply hoare_raise. Qed.

Lemma gives_raise I (φ : A → Prop) (e : string) : gives I φ (raise e : M A).
Proof. by apply hoare_raise. Qed.

Lemma keeps_gets I (f : HealerDaemon → A) : keeps I (gets f).
Proof. by apply hoare_gets. Qed.

Lemma keeps_try I (m : M A) (h : string → M A) :
  keeps I m → (∀ e, keeps I (h e)) → keeps I (try_except m h).
Proof. intros. by apply hoare_try with (E' := I). Qed.

End Rules.

Lemma keeps_for_acc {A B} (I : HealerDaemon → Prop) (xs : list A) (acc : B) (body : A → B → M B) :
  (∀ x acc, x ∈ xs → keeps I (body x acc)) → keeps I (for_acc xs acc body).
Proof.
  revert acc. induction xs as [|x xs IH]; intros acc H; simpl.
  - apply keeps_ret.
  - apply keeps_bind.
    + apply H. left.
    + intros a. apply IH. intros. apply H. by right.
Qed.

Lemma keeps_for_each {A} (I : HealerDaemon → Prop) (xs : list A) (body : A → M unit) :
  (∀ x, x ∈ xs → keeps I (body x)) → keeps I (for_each xs body).
Proof.
  induction xs as [|x xs IH]; intros H; simpl.
  - apply keeps_ret.
  - apply keeps_bind.
    + apply H. left.
    + intros a. apply IH. intros. apply H. by right.
Qed.

Lemma keeps_weaken {A} (I I0 : HealerDaemon → Prop) (m : M A) :
  keeps I m → (∀ d, I d → I0 d) → hoare I m (λ _, I0) I0.
Proof. intros H HI. eapply hoare_conseq; [exact H|..]; auto. Qed.

Lemma keeps_index {A} I (key : string) (v : option A) : keeps I (index key v).
Proof. destruct v; [apply keeps_ret | apply keeps_raise]. Qed.

Lemma keeps_attr {A B} I (name : string) (f : A → B) (obj : option A) :
  keeps I (attr name f obj).
Proof. destruct obj; [apply keeps_ret | apply keeps_raise]. Qed.

(** A step that reads: its value is known and the daemon is as it was. *)
Lemma hoare_read {A B} (d0 : HealerDaemon) (m : M A) (a : A) (f : A → M B)
    (Q : B → HealerDaemon → Prop) (E : HealerDaemon → Prop) :
  m d0 = (Ok a, d0) → hoare (λ d, d = d0) (f a) Q E →
  hoare (λ d, d = d0) (m ≫= f) Q E.
Proof.
  intros Hm Hf d ->. unfold mbind, M_bind. rewrite Hm. by apply Hf.
Qed.

(** A step whose outcome is known. *)
Lemma hoare_step {A B} (d0 d1 : HealerDaemon) (m : M A) (a : A) (f : A → M B)
    (Q : B → HealerDaemon → Prop) (E : HealerDaemon → Prop) :
  m d0 = (Ok a, d1) → hoare (λ d, d = d1) (f a) Q E →
  hoare (λ d, d = d0) (m ≫= f) Q E.
Proof.
  intros Hm Hf d ->. unfold mbind, M_bind. rewrite Hm. by apply Hf.
Qed.

Lemma hoare_read_raise {A B} (d0 : HealerDaemon) (m : M A) (e : string)
    (f : A → M B) (Q : B → HealerDaemon → Prop) (E : HealerDaemon → Prop) :
  m d0 = (Raise e, d0) → E d0 → hoare (λ d, d = d0) (m ≫= f) Q E.
Proof. intros Hm HE d ->. unfold mbind, M_bind. by rewrite Hm. Qed.

Lemma no_raise {A} (P : HealerDaemon → Prop) (m : M A)
    (Q : A → HealerDaemon → Prop) (E : HealerDaemon → Prop) :
  hoare P m Q (λ _, False) → hoare P m Q E.
Proof. intros H. eapply hoare_conseq; [exact H|..]; done. Qed.

(** What [run] makes of the outcome of the handler it dispatches to. *)
Lemma run_handler (action : string) (handler : Data.t → M Reply) (data : Data.t)
    (d : HealerDaemon) :
  ACTION_HANDLERS action = Some handler →
  run action data d
  = match handler data d with
    | (Ok reply, d') => (reply, d')
    | (Raise e, d') => (error e, with_db (λ _, saved d') d')
    end.
Proof.
  intros H. unfold run, serve, guarded, try_except. rewrite H.
  by destruct (handler data d) as [[reply|e] d'].
Qed.

(** * The status of a session under the primitives *)

Ltac kstep :=
  lazymatch goal with
  | |- keeps _ (mret _) => apply keeps_ret
  | |- keeps _ (raise _) => apply keeps_raise
  | |- keeps _ (gets _) => apply keeps_gets
  | |- keeps _ (index _ _) => apply keeps_index
  | |- keeps _ (attr _ _ _) => apply keeps_attr
  | |- keeps _ (mbind _ _) => apply keeps_bind; [| intros ?]
  | |- keeps _ (try_except _ _) => apply keeps_try; [| intros ?]
  | |- keeps _ (for_acc _ _ _) => apply keeps_for_acc; intros ? ? ?
  | |- keeps _ (for_each _ _) => apply keeps_for_each; intros ? ?
  | |- keeps _ (let _ := _ in _) => cbv zeta
  | |- keeps _ (match ?x with _ => _ end) => destruct x eqn:?
  | |- keeps _ (if ?b then _ else _) => destruct b eqn:?
  end.

Lemma elem_of_find {A} (f : A → bool) (l : list A) (x : A) :
  find f l = Some x → x ∈ l ∧ f x = true.
Proof.
  intros H. apply find_some in H as [H1 H2]. by rewrite list_elem_of_In.
Qed.

Section Within.
Variable A : SessionStatus.t → Prop.
Variable i : Z.
Local Notation "'I'" := (within A i).

Lemma within_commit : keeps I commit.
Proof. apply hoare_modify. intros d (H1 & H2 & H3). by split_and!. Qed.

Lemma within_rollback : keeps I rollback.
Proof. apply hoare_modify. intros d (H1 & H2 & H3). by split_and!. Qed.

Lemma within_utcnow : keeps I utcnow.
Proof. intros d (H1 & H2 & H3). by split_and!. Qed.

Lemma within_guarded (m : M Reply) : keeps I m → keeps I (guarded m).
Proof.
  intros H. apply keeps_try; [done|]. intros e. kstep; [apply within_rollback|kstep].
Qed.

Lemma within_add (s : Session.t) : gives I (λ s', i < Session.id s') (add s).
Proof.
  intros d (H1 & H2 & H3). cbn. split; [done|]. split_and!; cbn.
  - intros r [Hr|Hr]%elem_of_app; [by apply H1|].
    apply list_elem_of_singleton in Hr as ->. cbn. lia.
  - done.
  - lia.
Qed.

Lemma within_update (j : Z) (f : Session.t → Session.t) :
  (∀ r, Session.id (f r) = Session.id r) →
  j ≠ i ∨ (∀ r, A (Session.status r) → A (Session.status (f r))) →
  keeps I (update_session j f).
Proof.
  intros Hid Hf. apply hoare_modify. intros d (H1 & H2 & H3). split_and!; cbn; [|done..].
  intros r (x & -> & Hx)%list_elem_of_fmap Hi.
  case_bool_decide as Hj.
  - rewrite Hid in Hi. destruct Hf as [Hf|Hf]; [congruence|]. by apply Hf, H1.
  - by apply H1.
Qed.

Lemma within_cache (f : HealerDaemon → HealerDaemon) :
  (∀ d, sessions (db (f d)) = sessions (db d)) →
  (∀ d, sessions (saved (f d)) = sessions (saved d)) →
  (∀ d, next_session_id (f d) = next_session_id d) →
  keeps I (modify f).
Proof.
  intros E1 E2 E3. apply hoare_modify. intros d (H1 & H2 & H3).
  unfold within. by rewrite E1, E2, E3.
Qed.

Lemma within_load_avatar (k : option Z) : keeps I (_load_avatar_to_cache k).
Proof.
  unfold _load_avatar_to_cache. repeat kstep; try apply keeps_gets.
  by apply within_cache.
Qed.

Lemma within_load_ic (k : option Z) : keeps I (_load_ic_to_cache k).
Proof.
  unfold _load_ic_to_cache. repeat kstep; try apply keeps_gets.
  by apply within_cache.
Qed.

Lemma within_load_request (k : option Z) : keeps I (_load_request_to_cache k).
Proof.
  unfold _load_request_to_cache. repeat kstep; try apply keeps_gets.
  by apply within_cache.
Qed.

Lemma within_process_start : keeps I process_start.
Proof. intros d (H1 & H2 & H3). by split_and!. Qed.

Lemma within_pop_worker (j : Z) : keeps I (pop_worker j).
Proof. intros d (H1 & H2 & H3). by split_and!. Qed.

Lemma within_terminate (p : option Z) : keeps I (terminate p).
Proof. destruct p; [by apply within_cache | apply keeps_ret]. Qed.

Lemma within_spawn (s : Session.t) :
  Session.id s ≠ i → keeps I (_spawn_worker_for_session s).
Proof.
  intros Hs. unfold _spawn_worker_for_session.
  repeat kstep;
    try first [ apply within_load_avatar | apply within_load_ic
              | apply within_load_request | apply within_process_start
              | apply within_commit | by apply within_cache
              | apply within_update; [done | by left] ].
Qed.

Hypothesis not_running : ¬ A SessionStatus.RUNNING.

Lemma within_get_session (j : option Z) :
  gives I (λ s, ∀ x, s = Some x →
                     j = Some (Session.id x)
                     ∧ (Session.status x = SessionStatus.RUNNING → Session.id x ≠ i))
    (get_session j).
Proof.
  apply hoare_gets. intros d (H1 & H2 & H3). split; [|done].
  intros x Hx. destruct j as [j|]; [|done]. cbn in Hx.
  apply elem_of_find in Hx as [Hx Hj]. apply bool_decide_eq_true in Hj.
  split; [congruence|]. intros Hrun Hi. apply not_running.
  rewrite <- Hrun. by apply H1.
Qed.

Lemma within_end_single (final : SessionStatus.t) (j : option Z) :
  gives I (λ b, b = true → j ≠ Some i) (end_single_session final j).
Proof.
  unfold end_single_session.
  eapply gives_bind_gives; [apply within_get_session|].
  intros [s|] Hs; [|by apply gives_ret].
  destruct (Hs s eq_refl) as [-> Hrun].
  case_bool_decide as Hst; [by apply gives_ret|].
  assert (Session.id s ≠ i) by (apply Hrun; by destruct (Session.status s)).
  eapply gives_bind_gives; [apply gives_true, within_pop_worker|]. intros p _.
  eapply gives_bind_gives; [apply gives_true, within_terminate|]. intros _ _.
  eapply gives_bind_gives;
    [apply gives_true, within_update; [done|by left]|]. intros _ _.
  eapply gives_bind_gives; [apply gives_true, within_commit|]. intros _ _.
  apply gives_ret. congruence.
Qed.


Ltac wstep :=
  first
  [ apply within_commit | apply within_rollback | apply within_utcnow
  | apply within_load_avatar | apply within_load_ic | apply within_load_request
  | apply within_process_start | apply within_pop_worker | apply within_terminate
  | apply within_guarded
  | lazymatch goal with
    | |- keeps _ (mbind _ (add _)) =>
        eapply gives_bind; [apply within_add | intros ? ?]
    | |- keeps _ (mbind _ (end_single_session _ _)) =>
        eapply gives_bind; [apply within_end_single | intros ? ?]
    | |- keeps _ (mbind _ (_stop_single_session _)) =>
        eapply gives_bind; [apply within_end_single | intros ? ?]
    | |- keeps _ (mbind _ (_fail_single_session _)) =>
        eapply gives_bind; [apply within_end_single | intros ? ?]
    | |- keeps _ (_spawn_worker_for_session _) =>
        apply within_spawn; first [cbn in *; lia | naive_solver]
    | |- keeps _ (modify (with_avatar_cache _)) => by apply within_cache
    | |- keeps _ (modify (with_active_workers _)) => by apply within_cache
    end
  | kstep ].

Lemma within_end_time (data : Data.t) : keeps I (end_time_from data).
Proof. unfold end_time_from, timedelta_minutes, datetime_add. repeat wstep. Qed.

Lemma within_targets_avatar (a : option Z) (g : option string) :
  keeps I (_get_target_avatar_ids a g).
Proof. unfold _get_target_avatar_ids. repeat wstep. Qed.

Lemma within_targets_request (a : option Z) (g : option string) :
  keeps I (_get_target_request_ids a g).
Proof. unfold _get_target_request_ids. repeat wstep. Qed.

Lemma within_start_ic (data : Data.t) : keeps I (handle_start_ic data).
Proof.
  unfold handle_start_ic.
  repeat first [apply within_end_time | apply within_targets_avatar | wstep].
Qed.

Lemma within_start_request (data : Data.t) : keeps I (handle_start_request data).
Proof.
  unfold handle_start_request, start_request_parent.
  repeat first [apply within_end_time | apply within_targets_avatar
               | apply within_targets_request | wstep].
Qed.

Lemma within_start_link (data : Data.t) : keeps I (handle_start_link data).
Proof.
  unfold handle_start_link.
  repeat first [apply within_end_time | apply within_targets_avatar | wstep].
Qed.

Lemma within_start_group (data : Data.t) : keeps I (handle_start_group data).
Proof.
  unfold handle_start_group.
  repeat first [apply within_end_time | wstep].
Qed.


Lemma within_stop_session (data : Data.t) :
  Data.session_id data ≠ Some i → keeps I (handle_stop_session data).
Proof.
  intros Hne. unfold handle_stop_session.
  eapply gives_bind; [apply within_get_session|]. intros [session|] Hs; [|wstep].
  destruct (Hs session eq_refl) as [Hid _].
  assert (Session.id session ≠ i) by congruence.
  unfold is_running, child_sessions.
  repeat first [apply within_update; [done | by left] | wstep].
Qed.

Lemma within_update_avatar (j : Z) (f : Avatar.t → Avatar.t) :
  keeps I (update_avatar j f).
Proof. by apply within_cache. Qed.

Lemma within_bytes_of_ints (l : list Z) : keeps I (bytes_of_ints l).
Proof. unfold bytes_of_ints. repeat wstep. Qed.

Lemma within_query (crit : list Session.t → Session.t → bool) :
  keeps I (query_sessions crit).
Proof. apply keeps_gets. Qed.

Lemma within_update_entity (data : Data.t) : keeps I (handle_update_entity data).
Proof.
  unfold handle_update_entity.
  repeat first [apply within_update_avatar | apply within_bytes_of_ints
               | apply within_query | wstep].
Qed.


Lemma within_view_running_on (data : Data.t) :
  keeps I (handle_view_running_on data).
Proof.
  unfold handle_view_running_on.
  repeat first [apply within_query | wstep].
  match goal with |- keeps _ (mapM _ ?l) => induction l as [|x l IH] end; cbn.
  - apply keeps_ret.
  - unfold get_session. repeat first [apply IH | wstep].
Qed.

Lemma within_members (f : Store → Store) :
  (∀ st, sessions (f st) = sessions st) → keeps I (modify (with_db f)).
Proof. intros E. apply within_cache; intros d; cbn; by rewrite ?E. Qed.

Lemma within_add_member (data : Data.t) :
  keeps I (handle_add_member_to_group data).
Proof.
  unfold handle_add_member_to_group, add_member_ic, add_member_avatar,
    add_member_request, avatar_group_of.
  repeat first [by apply within_members | apply within_query | wstep].
  unfold extend_parent, ic_group_of.
  repeat first [by apply within_members | apply within_query | wstep].
Qed.

Lemma within_stop_all (l : list Session.t) : keeps I (stop_all l).
Proof. unfold stop_all. repeat wstep. Qed.

Lemma within_fail_all (l : list Session.t) : keeps I (fail_all l).
Proof. unfold fail_all. repeat wstep. Qed.

Lemma within_remove_member (data : Data.t) :
  keeps I (handle_remove_member_from_group data).
Proof.
  unfold handle_remove_member_from_group.
  repeat first [by apply within_members | apply within_query
               | apply within_stop_all | wstep].
Qed.

Lemma within_delete_avatar (a : Z) : keeps I (delete_avatar a).
Proof.
  apply hoare_modify. intros d (H1 & H2 & H3). split_and!; [|done..].
  cbn. intros r [_ Hr]%list_elem_of_filter. by apply H1.
Qed.

Lemma within_remove_entity (data : Data.t) : keeps I (handle_remove_entity data).
Proof.
  unfold handle_remove_entity.
  repeat first [apply within_delete_avatar | apply within_stop_all | wstep].
Qed.

Lemma within_clear (g : Z) (col : Session.t → option Z)
    (clr : Session.t → Session.t) (f : Store → Store) :
  (∀ r, Session.status (clr r) = Session.status r) →
  (∀ r, Session.id (clr r) = Session.id r) →
  (∀ st, sessions (f st) = map (λ r, if is_ (col r) g then clr r else r) (sessions st)) →
  keeps I (modify (with_db f)).
Proof.
  intros Hst Hid E. apply hoare_modify. intros d (H1 & H2 & H3).
  split_and!; [|done..]. cbn. rewrite E.
  intros r (x & -> & Hx)%list_elem_of_fmap Hi.
  destruct (is_ (col x) g); [|by apply H1].
  rewrite Hst. apply H1; [done|]. by rewrite <- Hid.
Qed.

Lemma within_remove_group (data : Data.t) : keeps I (handle_remove_group data).
Proof.
  unfold handle_remove_group.
  repeat first
    [ by eapply (within_clear _ Session.avatar_group_id (Session.set_avatar_group_id None))
    | by eapply (within_clear _ Session.ic_group_id (Session.set_ic_group_id None))
    | by eapply (within_clear _ Session.request_group_id
                   (Session.set_request_group_id None))
    | wstep ].
Qed.

Lemma within_fail_all_running (data : Data.t) :
  keeps I (handle_fail_all_running_sessions data).
Proof.
  unfold handle_fail_all_running_sessions.
  repeat first [apply within_query | apply within_fail_all | wstep].
Qed.

(** [fail_sessions_on_target] writes FAILED on the sessions it takes for
    parents of the named group: on the session [i] only if it is [marked]. *)
Lemma within_fail_on_target (data : Data.t) (d0 : HealerDaemon) :
  I d0 →
  is_Some (find (λ r, bool_decide (Session.id r = i)) (sessions (saved d0))) →
  (marked data d0 i → A SessionStatus.FAILED) →
  hoare (λ d, d = d0) (handle_fail_sessions_on_target data) (λ _, I) I.
Proof.
  intros H0 [r0 Hr0] HA. unfold handle_fail_sessions_on_target, guarded.
  cbv zeta.
  apply hoare_try with (E' := I);
    [|intros e; apply keeps_bind; [apply within_rollback|intros ?; apply keeps_ret]].
  apply hoare_bind with (R := λ _, I).
  - destruct (truthy_str (Data.avatar_group data)) as [n|] eqn:Hn;
      [|apply hoare_ret; by intros ? ->].
    eapply hoare_read; [reflexivity|]. cbn [mbind option_bind].
    destruct (find _ (avatar_groups (db d0))) as [g|] eqn:Hg;
      [|apply hoare_ret; by intros ? ->].
    eapply hoare_read; [reflexivity|]. eapply hoare_read; [reflexivity|].
    eapply hoare_conseq with (P' := I) (Q' := λ _, I) (E' := I);
      [|by intros ? ->|done|done].
    apply keeps_bind; [|intros ?; apply keeps_ret].
    apply keeps_for_each. intros parent Hp. apply within_update; [done|].
    destruct (decide (Session.id parent = i)) as [Hi|Hi]; [right|by left].
    intros r _. cbn. apply HA.
    apply list_elem_of_filter in Hp as [Hc Hp].
    exists n, g, r0. split_and!; [done..|].
    unfold flushed in Hc. rewrite Hi, Hr0 in Hc. cbn in Hc.
    by apply bool_decide_unpack in Hc.
  - intros from_group.
    change (keeps I (match from_group with
                     | inl reply => mret reply
                     | inr sessions_to_fail =>
                         sessions_to_fail ←
                           match truthy_int (Data.avatar_id data) with
                           | Some a =>
                               direct_sessions ←
                                 query_sessions (λ _ r,
                                   bool_decide (Session.status r = SessionStatus.RUNNING)
                                   && (is_ (Session.avatar_id r) a
                                       || is_ (Session.destination_avatar_id r) a));
                               mret (set_update sessions_to_fail direct_sessions)
                           | None => mret sessions_to_fail
                           end;
                         match sessions_to_fail with
                         | [] => mret (success ("No running sessions found for " +:+
                                   match truthy_str (Data.avatar_group data) with
                                   | Some n => "group '" +:+ n +:+ "'"
                                   | None => "avatar ID " +:+ str_int (Data.avatar_id data)
                                   end +:+ "."))
                         | _ =>
                             failed_count ← fail_all sessions_to_fail;
                             commit;;
                             mret (success ("Set " +:+ pretty failed_count +:+
                                            " running session(s) for " +:+
                                   match truthy_str (Data.avatar_group data) with
                                   | Some n => "group '" +:+ n +:+ "'"
                                   | None => "avatar ID " +:+ str_int (Data.avatar_id data)
                                   end +:+ " to FAILED."))
                         end
                     end)).
    repeat first [apply within_query | apply within_fail_all | wstep].
Qed.

(** What [redo_failed] finds FAILED: if the session [i] is among them,
    FAILED is one of the statuses it may have. *)
Lemma within_query_status (st : SessionStatus.t) :
  gives I (λ l, ∀ r, r ∈ l → Session.id r = i → A st)
    (query_sessions (λ _ r, bool_decide (Session.status r = st))).
Proof.
  apply hoare_gets. intros d (H1 & H2 & H3). split; [|done].
  intros r [Hc Hr]%list_elem_of_filter Hi.
  apply bool_decide_unpack in Hc. rewrite <- Hc. unfold flushed.
  destruct (find _ (sessions (saved d))) as [x|] eqn:Hx; cbn.
  - apply elem_of_find in Hx as [Hx Hid]. apply bool_decide_eq_true in Hid.
    apply H2; [done|congruence].
  - by apply H1.
Qed.

Lemma within_redo (data : Data.t) :
  (A SessionStatus.FAILED → A SessionStatus.RESTARTED) →
  keeps I (handle_redo_failed_sessions data).
Proof.
  intros HA. unfold handle_redo_failed_sessions. apply within_guarded.
  eapply gives_bind; [apply (within_query_status SessionStatus.FAILED)|].
  intros l Hl. destruct l as [|r0 l]; [wstep|].
  apply keeps_bind; [|intros ?; wstep].
  apply keeps_for_acc. intros old n Hold.
  assert (Session.id old = i → A SessionStatus.RESTARTED) as Hok
    by (intros Hi; apply HA; by eapply Hl).
  assert (keeps I (update_session (Session.id old)
                     (Session.set_status SessionStatus.RESTARTED))) as Hupd.
  { apply within_update; [done|].
    destruct (decide (Session.id old = i)) as [Hi|Hi]; [right|by left].
    intros r _. by apply Hok. }
  repeat first [apply Hupd | wstep].
Qed.

Lemma within_recover : A SessionStatus.FAILED → keeps I recover.
Proof.
  intros HA. unfold recover.
  repeat first [apply within_query | apply within_update; [done | by right] | wstep].
Qed.

End Within.

(** * Every command, seen from one terminal session *)

Lemma within_serve (A : SessionStatus.t → Prop) (i : Z) (action : string)
    (data : Data.t) :
  ¬ A SessionStatus.RUNNING →
  (action = "stop_session" → Data.session_id data ≠ Some i) →
  action ≠ "fail_sessions_on_target" →
  (action = "redo_failed" → A SessionStatus.FAILED → A SessionStatus.RESTARTED) →
  keeps (within A i) (serve action data).
Proof.
  intros Hrun Hstop Hfail Hredo. unfold serve, ACTION_HANDLERS.
  apply within_guarded.
  repeat case_bool_decide;
    first [ apply keeps_ret
          | by apply within_start_ic | by apply within_start_request
          | by apply within_start_link | by apply within_start_group
          | apply within_stop_session; auto
          | by apply within_view_running_on | by apply within_add_member
          | by apply within_remove_member | by apply within_remove_entity
          | by apply within_remove_group | apply within_redo; auto
          | by apply within_update_entity
          | by apply within_fail_all_running
          | by exfalso; apply Hfail ].
Qed.

Lemma within_serve_fail (A : SessionStatus.t → Prop) (i : Z) (data : Data.t)
    (d0 : HealerDaemon) :
  ¬ A SessionStatus.RUNNING →
  within A i d0 →
  is_Some (find (λ r, bool_decide (Session.id r = i)) (sessions (saved d0))) →
  (marked data d0 i → A SessionStatus.FAILED) →
  hoare (λ d, d = d0) (serve "fail_sessions_on_target" data)
        (λ _, within A i) (within A i).
Proof.
  intros Hrun H0 Hrow HA. unfold serve, guarded.
  change (ACTION_HANDLERS "fail_sessions_on_target")
    with (Some handle_fail_sessions_on_target).
  apply hoare_try with (E' := within A i);
    [by apply within_fail_on_target|].
  intros e. apply keeps_bind; [apply within_rollback|intros ?; apply keeps_ret].
Qed.

Lemma status_of_within (A : SessionStatus.t → Prop) (i : Z) (d : HealerDaemon) :
  within A i d →
  (∀ x, status_of i (db d) = Some x → A x)
  ∧ (∀ x, status_of i (saved d) = Some x → A x).
Proof.
  intros (H1 & H2 & _). unfold status_of.
  split; intros x Hx; destruct (find _ _) as [r|] eqn:Hr; try done;
    injection Hx as <-; apply elem_of_find in Hr as [Hr Hi];
    apply bool_decide_eq_true in Hi; auto.
Qed.

Lemma status_of_unique (i : Z) (st : Store) (n : Z) (s : SessionStatus.t)
    (r : Session.t) :
  keyed st n → status_of i st = Some s → r ∈ sessions st → Session.id r = i →
  Session.status r = s ∧ i < n.
Proof.
  intros [Hnd Hlt] Hst Hr Hi. unfold status_of in Hst.
  destruct (find _ _) as [r0|] eqn:Hr0; [|done]. injection Hst as Hst.
  apply elem_of_find in Hr0 as [Hr0 Hi0]. apply bool_decide_eq_true in Hi0.
  split; [|rewrite <- Hi; by apply Hlt].
  replace r with r0; [done|].
  apply list_elem_of_lookup in Hr as [k Hk], Hr0 as [j Hj].
  assert (k = j) as ->; [|congruence].
  eapply NoDup_lookup; [exact Hnd|..]; rewrite list_lookup_fmap.
  - by rewrite Hk.
  - rewrite Hj. cbn. congruence.
Qed.

(** A session with the status [s1] in the working copy and [s2] in the
    committed one lies within every set of statuses that has both. *)
Lemma within_start (A : SessionStatus.t → Prop) (i : Z) (s1 s2 : SessionStatus.t)
    (d : HealerDaemon) :
  keyed (db d) (next_session_id d) → keyed (saved d) (next_session_id d) →
  status_of i (db d) = Some s1 → status_of i (saved d) = Some s2 →
  A s1 → A s2 → within A i d.
Proof.
  intros K1 K2 H1 H2 A1 A2. split_and!.
  - intros r Hr Hi. by destruct (status_of_unique i _ _ s1 r K1 H1 Hr Hi) as [-> _].
  - intros r Hr Hi. by destruct (status_of_unique i _ _ s2 r K2 H2 Hr Hi) as [-> _].
  - unfold status_of in H1. destruct (find _ _) as [r|] eqn:Hr; [|done].
    apply elem_of_find in Hr as [Hr Hi]. apply bool_decide_eq_true in Hi.
    destruct K1 as [_ Hlt]. rewrite <- Hi. by apply Hlt.
Qed.

Lemma keyed_list (st : Store) (n : Z) :
  bool_decide (NoDup (map Session.id (sessions st))) = true →
  forallb (λ r, bool_decide (Session.id r < n)) (sessions st) = true →
  keyed st n.
Proof.
  intros H1 H2. split; [by apply bool_decide_eq_true in H1|].
  intros r Hr. rewrite forallb_forall in H2.
  apply list_elem_of_In, H2 in Hr. by apply bool_decide_eq_true in Hr.
Qed.

(** * The kind of the leaves under a group-to-group parent *)

Lemma keyed_unique (st : Store) (n : Z) (x y : Session.t) :
  keyed st n → x ∈ sessions st → y ∈ sessions st →
  Session.id x = Session.id y → x = y.
Proof.
  intros [Hnd _] Hx Hy Hid.
  apply list_elem_of_lookup in Hx as [k Hk], Hy as [j Hj].
  assert (k = j) as ->; [|congruence].
  eapply NoDup_lookup; [exact Hnd|..]; rewrite list_lookup_fmap.
  - by rewrite Hk.
  - rewrite Hj. cbn. congruence.
Qed.

Lemma typed_map (L : list Session.t) (n0 n : Z) (st : Store)
    (g : Session.t → Session.t) :
  (∀ r, Session.id (g r) = Session.id r) →
  (∀ r, Session.parent_session_id (g r) = Session.parent_session_id r) →
  (∀ r, Session.session_type (g r) = Session.session_type r) →
  (∀ r, Session.is_group_session (g r) = Session.is_group_session r) →
  typed L n0 n st → typed L n0 n (with_sessions (map g) st).
Proof.
  intros Hid Hpar Hty Hgr ([Hnd Hlt] & Hleaf & Hpres).
  unfold typed, keyed. split_and!; cbn.
  - rewrite map_map. erewrite map_ext; [exact Hnd|]. intros r. cbn. apply Hid.
  - intros r (x & -> & Hx)%list_elem_of_fmap. rewrite Hid. by apply Hlt.
  - intros r p (x & -> & Hx)%list_elem_of_fmap (y & -> & Hy)%list_elem_of_fmap.
    rewrite !Hid, Hpar, !Hty, Hgr. by apply Hleaf.
  - intros P HP. destruct (Hpres P HP) as (P' & HP' & E1 & E2).
    exists (g P'). rewrite Hid, Hty. split_and!; [|done..].
    apply list_elem_of_fmap. by exists P'.
Qed.

Section Typing.
Variable n0 : Z.

Lemma typing_commit L : keeps (typing L n0) commit.
Proof. apply hoare_modify. by intros d [H1 H2]. Qed.

Lemma typing_commit_clean L :
  hoare (typing L n0) commit (λ _ d, typing L n0 d ∧ saved d = db d) (typing L n0).
Proof. apply hoare_modify. by intros d [H1 H2]. Qed.

Lemma typing_rollback L : keeps (typing L n0) rollback.
Proof. apply hoare_modify. by intros d [H1 H2]. Qed.

Lemma typing_utcnow L : keeps (typing L n0) utcnow.
Proof. by intros d [H1 H2]. Qed.

Lemma typing_except L (e : string) :
  keeps (typing L n0) (rollback;; mret (error e)).
Proof. kstep; [apply typing_rollback|kstep]. Qed.

Lemma typing_guarded L (m : M Reply) :
  keeps (typing L n0) m → keeps (typing L n0) (guarded m).
Proof. intros H. apply keeps_try; [done|]. apply typing_except. Qed.

Lemma typing_same L (f : HealerDaemon → HealerDaemon) :
  (∀ d, sessions (db (f d)) = sessions (db d)) →
  (∀ d, sessions (saved (f d)) = sessions (saved d)) →
  (∀ d, next_session_id (f d) = next_session_id d) →
  keeps (typing L n0) (modify f).
Proof.
  intros E1 E2 E3. apply hoare_modify. intros d [H1 H2].
  unfold typing, typed, keyed, leaves_typed, present in *.
  by rewrite E1, E2, E3.
Qed.

Lemma typing_update L (j : Z) (g : Session.t → Session.t) :
  (∀ r, Session.id (g r) = Session.id r) →
  (∀ r, Session.parent_session_id (g r) = Session.parent_session_id r) →
  (∀ r, Session.session_type (g r) = Session.session_type r) →
  (∀ r, Session.is_group_session (g r) = Session.is_group_session r) →
  keeps (typing L n0) (update_session j g).
Proof.
  intros Hid Hpar Hty Hgr. apply hoare_modify. intros d [H1 H2]. split; [|done].
  apply (typed_map L n0 _ (db d)
           (λ r, if bool_decide (Session.id r = j) then g r else r));
    [| | | |done]; intros r; by case_bool_decide.
Qed.

Lemma typing_weaken L d : typing L n0 d → typing [] n0 d.
Proof.
  intros [(H1 & H2 & _) (H3 & H4 & _)].
  unfold typing, typed. split_and!; try done; by intros P ?%elem_of_nil.
Qed.

Lemma typing_load_avatar L (k : option Z) :
  keeps (typing L n0) (_load_avatar_to_cache k).
Proof.
  unfold _load_avatar_to_cache. repeat kstep; try apply keeps_gets.
  by apply typing_same.
Qed.

Lemma typing_load_ic L (k : option Z) : keeps (typing L n0) (_load_ic_to_cache k).
Proof.
  unfold _load_ic_to_cache. repeat kstep; try apply keeps_gets.
  by apply typing_same.
Qed.

Lemma typing_load_request L (k : option Z) :
  keeps (typing L n0) (_load_request_to_cache k).
Proof.
  unfold _load_request_to_cache. repeat kstep; try apply keeps_gets.
  by apply typing_same.
Qed.

Lemma typing_process_start L : keeps (typing L n0) process_start.
Proof. by intros d [H1 H2]. Qed.

Lemma typing_spawn L (s : Session.t) :
  keeps (typing L n0) (_spawn_worker_for_session s).
Proof.
  unfold _spawn_worker_for_session.
  repeat kstep;
    try first [ apply typing_load_avatar | apply typing_load_ic
              | apply typing_load_request | apply typing_process_start
              | apply typing_commit | by apply typing_same
              | by apply typing_update ].
Qed.

(** A new row joins the table: it must not be a GROUP_IC parent that rows
    already point to, and if it hangs under a loaded parent of kind
    GROUP_IC it must be a plain IC session. *)
Lemma typing_add_child L (P c : Session.t) :
  P ∈ L →
  Session.parent_session_id c = Some (Session.id P) →
  Session.session_type c ≠ SessionType.GROUP_IC_SESSION →
  (Session.session_type P = SessionType.GROUP_IC_SESSION →
   Session.session_type c = SessionType.IC_SESSION
   ∧ Session.is_group_session c = false) →
  keeps (typing L n0) (add c).
Proof.
  intros HP Hpar Hty Hic d [(Hk & Hleaf & Hpres) (Hk' & Hleaf' & Hpres')]. cbn.
  destruct Hk as [Hnd Hlt], Hk' as [Hnd' Hlt'].
  unfold typing, typed, keyed. split_and!; cbn.
  - rewrite fmap_app. apply NoDup_app. split_and!; [done| |apply NoDup_singleton].
    intros x (r & -> & Hr)%list_elem_of_fmap Hx. cbn in Hx.
    apply list_elem_of_singleton in Hx. apply Hlt in Hr. lia.
  - intros r [Hr|Hr]%elem_of_app; [apply Hlt in Hr; lia|].
    apply list_elem_of_singleton in Hr as ->. cbn. lia.
  - destruct (Hpres P HP) as (P' & HP' & E1 & E2).
    intros r p [Hr|Hr]%elem_of_app [Hp|Hp]%elem_of_app Hn Hrp Hpt.
    + by apply (Hleaf r p).
    + apply list_elem_of_singleton in Hp as ->. cbn in Hpt. done.
    + apply list_elem_of_singleton in Hr as ->. cbn in *.
      assert (p = P') as ->.
      { apply (keyed_unique (db d) (next_session_id d)); [by split|done|done|].
        congruence. }
      apply Hic. congruence.
    + apply list_elem_of_singleton in Hp as ->. cbn in Hpt. done.
  - intros Q HQ. destruct (Hpres Q HQ) as (Q' & HQ' & E1 & E2).
    exists Q'. split_and!; [|done..]. apply elem_of_app. by left.
  - done.
  - intros r Hr. apply Hlt' in Hr. lia.
  - done.
  - done.
Qed.

(** What a query hands back is in the table. *)
Lemma typing_query (crit : list Session.t → Session.t → bool) :
  hoare (λ d, typing [] n0 d ∧ saved d = db d) (query_sessions crit)
        (λ l d, typing l n0 d) (typing [] n0).
Proof.
  apply hoare_gets. intros d [[(Hk & Hleaf & _) _] Hclean].
  assert (typed (filter (λ r, crit (map (flushed d) (sessions (db d))) (flushed d r))
                        (sessions (db d))) n0 (next_session_id d) (db d)) as Ht.
  { unfold typed. split_and!; [done..|].
    intros P [_ HP]%list_elem_of_filter. by exists P. }
  split; [done|]. by rewrite Hclean.
Qed.


Ltac tstep :=
  first
  [ apply typing_commit | apply typing_rollback | apply typing_utcnow
  | apply typing_spawn | apply typing_guarded
  | by apply typing_same
  | lazymatch goal with
    | |- keeps _ (mbind _ (add _)) =>
        apply keeps_bind;
        [ eapply typing_add_child;
          [ eassumption | reflexivity | discriminate
          | cbn; intros; first [done | congruence] ]
        | intros ? ]
    end
  | kstep ].

Lemma typing_end_time L (data : Data.t) : keeps (typing L n0) (end_time_from data).
Proof. unfold end_time_from, timedelta_minutes, datetime_add. repeat tstep. Qed.

Lemma typing_extend L (new_member_avatar : Avatar.t) (P : Session.t) (acc : Z) :
  P ∈ L → keeps (typing L n0) (extend_parent new_member_avatar P acc).
Proof.
  intros HP. unfold extend_parent, ic_group_of, child_of. repeat tstep.
Qed.

Lemma typing_add_member_avatar (group_name : string) (member_id : Z) :
  keeps (typing [] n0) (add_member_avatar group_name member_id).
Proof.
  unfold add_member_avatar.
  repeat lazymatch goal with
         | |- keeps _ (mbind _ commit) => fail
         | _ => first [by apply typing_same | kstep]
         end.
  eapply hoare_bind; [apply typing_commit_clean|]. intros ?.
  eapply hoare_bind; [apply typing_query|]. intros l.
  apply (keeps_weaken (typing l n0)); [|apply typing_weaken].
  kstep; [|kstep]. apply keeps_for_acc. intros P acc HP. by apply typing_extend.
Qed.

Lemma typing_add_member (data : Data.t) :
  keeps (typing [] n0) (handle_add_member_to_group data).
Proof.
  unfold handle_add_member_to_group.
  unfold add_member_ic, add_member_request, avatar_group_of.
  repeat first [apply typing_add_member_avatar | tstep].
Qed.

Lemma untouched_utcnow : hoare (untouched n0) utcnow (λ _, untouched n0) (typing [] n0).
Proof. intros d [[H1 H2] H3]. by split. Qed.

Lemma untouched_end_time (data : Data.t) :
  hoare (untouched n0) (end_time_from data) (λ _, untouched n0) (typing [] n0).
Proof.
  unfold end_time_from, timedelta_minutes, datetime_add.
  destruct (truthy_int _); [|by apply hoare_ret].
  eapply hoare_bind; [apply untouched_utcnow|]. intros now. cbv zeta.
  apply hoare_bind with (R := λ _, untouched n0).
  { repeat case_bool_decide;
      first [by apply hoare_ret | by apply hoare_raise; intros ? []]. }
  intros delta. apply hoare_bind with (R := λ _, untouched n0).
  { case_bool_decide;
      first [by apply hoare_ret | by apply hoare_raise; intros ? []]. }
  intros stop. by apply hoare_ret.
Qed.

Lemma untouched_gets {A} (f : HealerDaemon → A) :
  hoare (untouched n0) (gets f) (λ _, untouched n0) (typing [] n0).
Proof. by apply hoare_gets. Qed.

(** The parent of [start_group] joins a table that has no new row yet, and
    is committed. *)
Lemma typing_add_parent (c : Session.t) :
  Session.parent_session_id c = None →
  hoare (untouched n0) (p ← add c; commit;; mret p) (λ p d, typing [p] n0 d)
        (typing [] n0).
Proof.
  intros Hpar d [[(Hk & Hleaf & _) _] Hn]. cbn.
  destruct Hk as [Hnd Hlt].
  assert (typed [Session.set_id (next_session_id d) c] n0 (next_session_id d + 1)
            (with_sessions (λ l, l ++ [Session.set_id (next_session_id d) c]) (db d)))
    as Ht; [|by split].
  unfold typed, keyed. split_and!; cbn.
  - rewrite fmap_app. apply NoDup_app. split_and!; [done| |apply NoDup_singleton].
    intros x (r & -> & Hr)%list_elem_of_fmap Hx. cbn in Hx.
    apply list_elem_of_singleton in Hx. apply Hlt in Hr. lia.
  - intros r [Hr|Hr]%elem_of_app; [apply Hlt in Hr; lia|].
    apply list_elem_of_singleton in Hr as ->. cbn. lia.
  - intros r p [Hr|Hr]%elem_of_app _ Hge Hrp _.
    + apply Hlt in Hr. lia.
    + apply list_elem_of_singleton in Hr as ->. cbn in Hrp. congruence.
  - intros P ->%list_elem_of_singleton. eexists. split_and!; [|done..].
    apply elem_of_app. right. by apply list_elem_of_singleton.
Qed.

Lemma typing_start_group (data : Data.t) :
  hoare (untouched n0) (handle_start_group data) (λ _, typing [] n0) (typing [] n0).
Proof.
  unfold handle_start_group.
  apply hoare_try with (E' := typing [] n0); [|apply typing_except].
  eapply hoare_bind; [apply untouched_gets|]. intros [avatar_group|];
    [|by apply hoare_raise; intros ? []].
  eapply hoare_bind; [apply untouched_gets|]. intros [ic_group|];
    [|by apply hoare_raise; intros ? []].
  eapply hoare_bind; [apply untouched_gets|]. intros a_members.
  eapply hoare_bind; [apply untouched_gets|]. intros i_members.
  destruct (_ || _); [by apply hoare_ret; intros ? []|].
  eapply hoare_bind; [apply untouched_utcnow|]. intros start.
  eapply hoare_bind; [apply untouched_end_time|]. intros stop.
  match goal with
  | |- hoare _ (mbind ?k (add ?c)) _ _ =>
      change (hoare (untouched n0)
                (mbind (λ p, commit ≫= λ _, k p) (add c))
                (λ _, typing [] n0) (typing [] n0))
  end.
  match goal with
  | |- hoare _ (mbind (λ p, commit ≫= λ _, ?k p) (add ?c)) _ _ =>
      assert (hoare (untouched n0) ((p ← add c; commit;; mret p) ≫= k)
                (λ _, typing [] n0) (typing [] n0)) as Hgoal
  end.
  { eapply hoare_bind; [by apply typing_add_parent|]. intros p.
    apply (keeps_weaken (typing [p] n0)); [|apply typing_weaken].
    assert (p ∈ [p]) as Hp by apply list_elem_of_singleton, eq_refl.
    unfold child_of. repeat tstep. }
  intros d Hd. specialize (Hgoal d Hd). revert Hgoal.
  unfold mbind, M_bind, mret, M_ret, add, commit, modify. cbn. done.
Qed.

End Typing.

(** C10. The sessions that [start_group] and [add_member_to_group] create
    under a parent of kind GROUP_IC_SESSION have kind IC_SESSION and are
    not group sessions. *)
Theorem group_leaves_are_ic_sessions (action : string) (data : Data.t)
    (d : HealerDaemon) :
  action = "start_group" ∨ action = "add_member_to_group" →
  settled d →
  let d' := (run action data d).2 in
  ∀ r p, r ∈ created d d' → p ∈ sessions (db d') →
         Session.parent_session_id r = Some (Session.id p) →
         Session.session_type p = SessionType.GROUP_IC_SESSION →
         Session.session_type r = SessionType.IC_SESSION
         ∧ Session.is_group_session r = false.
Proof.
  intros Hact [Hclean Hkeyed] d'.
  assert (untouched (next_session_id d) d) as Hd.
  { assert (typed [] (next_session_id d) (next_session_id d) (db d)) as Ht.
    { unfold typed. split_and!; [done| |by intros P ?%elem_of_nil].
      intros r p Hr _ Hge. destruct Hkeyed as [_ Hlt]. apply Hlt in Hr. lia. }
    split; [|done]. split; [done|]. by rewrite Hclean. }
  assert (typing [] (next_session_id d) d') as [(_ & Hleaf & _) _].
  { assert (hoare (untouched (next_session_id d)) (serve action data)
              (λ _, typing [] (next_session_id d)) (typing [] (next_session_id d)))
      as Hs.
    { unfold serve. apply hoare_try with (E' := typing [] (next_session_id d));
        [|apply typing_except].
      destruct Hact as [-> | ->]; cbn.
      - apply typing_start_group.
      - eapply hoare_conseq; [apply typing_add_member|by intros ? []|done..]. }
    specialize (Hs d Hd). unfold d', run.
    by destruct (serve action data d) as [[reply|e] d1]. }
  intros r p [Hge Hr]%list_elem_of_filter Hp. by apply Hleaf.
Qed.

(** * The handlers on the small catalogue *)

Lemma group_leaves_are_ic_sessions_witness :
  Session.session_type (Scenario.group_on_group_row 1) = SessionType.IC_SESSION
  ∧ Session.is_group_session (Scenario.group_on_group_row 1) = false.
Proof.
  apply (group_leaves_are_ic_sessions "start_group"
           (cmd_start_group "G" "H" (Some 30)) Scenario.fresh)
    with (p := Scenario.group_on_group_row 0).
  - left. reflexivity.
  - split; [vm_compute; reflexivity | apply keyed_list; vm_compute; reflexivity].
  - apply (list_elem_of_lookup_2 _ 1%nat). vm_compute. reflexivity.
  - apply (list_elem_of_lookup_2 _ 0%nat). vm_compute. reflexivity.
  - vm_compute. reflexivity.
  - vm_compute. reflexivity.
Defined.

(** C1. Adding the information copy 8 to the IC group H while the
    group-to-group parent 1 runs over G = {Ann, Bob} and H: the reply
    announces two new live sessions, and the table of sessions, the leaves
    RUNNING under the parent and the workers are what they were. *)
Theorem add_ic_member_creates_no_leaf :
  let d := Scenario.group_on_group in
  let out := run "add_member_to_group" (cmd_group "ic" "H" (Some 8)) d in
  out.1 = success "Added IC 8 to group 'H'. Started 2 new live session(s)."
  ∧ sessions (db out.2) = sessions (db d)
  ∧ length (running_leaves 1 (db out.2)) = length (running_leaves 1 (db d))
  ∧ created d out.2 = []
  ∧ active_workers out.2 = active_workers d.
Proof. vm_compute. repeat split; reflexivity. Qed.

(** C4. [start_ic] of IC7 on the group G for 30 minutes, with a clock that
    moves between two readings: the leaves 2 and 3 hang under the parent 1
    and carry their own, later, start and end times. *)
Theorem start_ic_leaves_take_fresh_times :
  let out := run "start_ic" (cmd_start_ic None (Some "G") 7 (Some 30)) Scenario.fresh in
  map (λ r, (Session.id r, Session.parent_session_id r, Session.start_time r,
             Session.end_time r)) (sessions (db out.2))
  = [ (1, None, 1000, Some 1800001001);
      (2, Some 1, 1002, Some 1800001003);
      (3, Some 1, 1004, Some 1800001005) ].
Proof. vm_compute. reflexivity. Qed.

(** C6. [stop_session] on the FAILED session 1 (started on Ann, then failed
    by [fail_all_running]): the reply is a success that counts no stopped
    session, and the status of the session is now STOPPED. *)
Theorem stop_overwrites_failed_status :
  let d := Scenario.one_failed in
  let out := run "stop_session" (cmd_stop_session 1) d in
  status_of 1 (db d) = Some SessionStatus.FAILED
  ∧ out.1 = success "Stopped 0 session(s)."
  ∧ status_of 1 (db out.2) = Some SessionStatus.STOPPED
  ∧ status_of 1 (saved out.2) = Some SessionStatus.STOPPED.
Proof. vm_compute. repeat split; reflexivity. Qed.

(** C8. [remove_entity] on the information copy 7 while session 1 runs on
    it: the handler raises on [entity.source_sessions], the reply is an
    error, and nothing is stopped, deleted or evicted. *)
Theorem remove_ic_entity_fails :
  let d := Scenario.one_leaf in
  let out := run "remove_entity" (cmd_entity "ic" 7) d in
  out.1 = error "'InformationCopy' object has no attribute 'source_sessions'"
  ∧ db out.2 = db d
  ∧ status_of 1 (db out.2) = Some SessionStatus.RUNNING
  ∧ is_Some (ic_cache out.2 !! 7)
  ∧ active_workers out.2 = active_workers d.
Proof. vm_compute. repeat split; try reflexivity. by eexists. Qed.

(** C2. The avatar group Solo has one member, Cy.  [start_ic],
    [start_request] and [start_link] with Solo as their group argument
    succeed and create the one leaf, without a parent: no row of the table
    is a group session.  The same [start_request] on the group G, which has
    two members, creates the parent 1 and hangs the leaves under it. *)
Theorem one_member_group_gets_no_parent :
  let rows := λ out : Reply * HealerDaemon,
    map (λ r, (Session.id r, Session.is_group_session r,
               Session.parent_session_id r)) (sessions (db out.2)) in
  let solo_ic :=
    run "start_ic" (cmd_start_ic None (Some "Solo") 7 None) Scenario.fresh in
  let solo_request :=
    run "start_request" (cmd_start_request None (Some "Solo") (Some 5) None None)
        Scenario.fresh in
  let solo_link :=
    run "start_link" (cmd_start_link 1 None (Some "Solo") None) Scenario.fresh in
  let group_request :=
    run "start_request" (cmd_start_request None (Some "G") (Some 5) None None)
        Scenario.fresh in
  avatar_ids_of 11 (db Scenario.fresh) = [3]
  ∧ solo_ic.1 = success "Started 1 session(s)."
  ∧ rows solo_ic = [ (1, false, None) ]
  ∧ solo_request.1 = success "Started 1 request session(s)."
  ∧ rows solo_request = [ (1, false, None) ]
  ∧ solo_link.1 = success "Started 1 link session(s)."
  ∧ rows solo_link = [ (1, false, None) ]
  ∧ group_request.1 = success "Started 2 request session(s)."
  ∧ rows group_request = [ (1, true, None); (2, false, Some 1); (3, false, Some 1) ].
Proof. vm_compute. repeat split; reflexivity. Qed.

(** C3, as stated, fails: the parent 1 is STOPPED, and
    [fail_sessions_on_target] on the group G, which is not [redo_failed],
    leaves it FAILED. *)
Lemma fail_on_group_overwrites_stopped_parent :
  let d := Scenario.stopped_and_running in
  let out := run "fail_sessions_on_target" (cmd_fail None (Some "G")) d in
  status_of 1 (db d) = Some SessionStatus.STOPPED
  ∧ out.1 = success "Set 2 running session(s) for group 'G' to FAILED."
  ∧ status_of 1 (db out.2) = Some SessionStatus.FAILED
  ∧ status_of 1 (saved out.2) = Some SessionStatus.FAILED.
Proof. vm_compute. repeat split; reflexivity. Qed.

(** C7, as stated, fails: [remove_group] on the avatar group G deletes the
    group while the leaves 2 and 3 of the parent 1 bound to it stay
    RUNNING, with their workers alive. *)
Lemma remove_group_leaves_children_running :
  let d := Scenario.group_on_group in
  let out := run "remove_group" (cmd_group "avatar" "G" None) d in
  out.1 = success "Group 'G' and all its memberships have been deleted."
  ∧ map AvatarGroup.name (avatar_groups (db out.2)) = ["Solo"]
  ∧ map (λ r, (Session.id r, Session.parent_session_id r, Session.status r,
               Session.worker_pid r)) (sessions (db out.2))
    = [ (1, None, SessionStatus.RUNNING, None);
        (2, Some 1, SessionStatus.RUNNING, Some 100);
        (3, Some 1, SessionStatus.RUNNING, Some 101) ]
  ∧ elements (live out.2) = elements (live d)
  ∧ active_workers out.2 = active_workers d.
Proof. vm_compute. repeat split; reflexivity. Qed.

(** * Removing a group *)

Lemma lifecycle_clear (col : Session.t → option Z) (clr : Session.t → Session.t)
    (g : Z) (l : list Session.t) :
  (∀ r, lifecycle (clr r) = lifecycle r) →
  map lifecycle (map (λ r, if is_ (col r) g then clr r else r) l) = map lifecycle l.
Proof.
  intros H. rewrite map_map. apply map_ext. intros r. by destruct (is_ _ _).
Qed.

Lemma not_elem_of_map_filter {A} (f : A → Z) (g : Z) (l : list A) :
  g ∉ map f (filter (λ x, negb (bool_decide (f x = g))) l).
Proof.
  intros (x & -> & [Hx _]%list_elem_of_filter)%list_elem_of_fmap.
  apply negb_prop_elim in Hx. apply Hx. by apply bool_decide_pack.
Qed.

Lemma cleared_column (col : Session.t → option Z) (clr : Session.t → Session.t)
    (g : Z) (l : list Session.t) (r : Session.t) :
  (∀ x, col (clr x) = None) →
  r ∈ map (λ r, if is_ (col r) g then clr r else r) l → col r ≠ Some g.
Proof.
  intros H (x & -> & _)%list_elem_of_fmap. unfold is_.
  case_bool_decide; [by rewrite H|done].
Qed.

(** C7 (as amended). [remove_group] stops no session: it deregisters and
    terminates no worker, and it writes no status and no worker pid.  The
    rows of the working copy keep their key, status and worker pid, or take
    those of the last commit when the command fails and is rolled back; the
    committed rows keep theirs, or take those of the working copy when the
    deletion of the group is committed.  When the named group exists, the
    command succeeds and commits, and the group, its memberships and the
    references of the sessions to it are gone. *)
Theorem remove_group_stops_nothing (data : Data.t) (d : HealerDaemon) :
  let out := run "remove_group" data d in
  active_workers out.2 = active_workers d
  ∧ live out.2 = live d
  ∧ (map lifecycle (sessions (db out.2)) = map lifecycle (sessions (db d))
     ∨ (is_success out.1 = false
        ∧ map lifecycle (sessions (db out.2)) = map lifecycle (sessions (saved d))))
  ∧ (map lifecycle (sessions (saved out.2)) = map lifecycle (sessions (saved d))
     ∨ (is_success out.1 = true
        ∧ map lifecycle (sessions (saved out.2)) = map lifecycle (sessions (db d))))
  ∧ ∀ group_type group_name g,
      Data.group_type data = Some group_type →
      Data.group_name data = Some group_name →
      group_named group_type group_name (db d) = Some g →
      is_success out.1 = true
      ∧ saved out.2 = db out.2
      ∧ (g ∉ group_ids group_type (db out.2))
      ∧ (g ∉ membership_group_ids group_type (db out.2))
      ∧ ∀ r, r ∈ sessions (db out.2) → session_group group_type r ≠ Some g.
Proof.
  intros out. subst out.
  unfold run, serve. replace (ACTION_HANDLERS "remove_group")
    with (Some handle_remove_group) by reflexivity.
  unfold handle_remove_group, guarded, try_except, index, raise, rollback,
    commit, modify, delete_avatar_group, delete_ic_group, delete_request_group,
    avatar_group_by_name, ic_group_by_name, request_group_by_name, gets, mbind,
    M_bind, mret, M_ret.
  destruct (Data.group_type data) as [group_type|] eqn:Ht; cbn;
    [|split_and!; [done|done|by right|by left|done]].
  destruct (Data.group_name data) as [group_name|] eqn:Hn; cbn;
    [|split_and!; [done|done|by right|by left|done]].
  unfold group_named, group_ids, membership_group_ids, session_group.
  destruct (decide (group_type = "avatar")) as [->|Ha].
  { rewrite !(bool_decide_true ("avatar" = "avatar")) by done. cbn.
    destruct (find _ (avatar_groups (db d))) as [grp|] eqn:Hg; cbn.
    - split_and!; [done|done|left; by apply lifecycle_clear
                  |right; split; [done|by apply lifecycle_clear]|].
      intros ? ? g [= <-] [= <-]. cbn. rewrite Hg. intros [= <-]. split_and!.
      + done.
      + done.
      + apply not_elem_of_map_filter.
      + apply not_elem_of_map_filter.
      + intros r Hr.
        by apply (cleared_column _ (Session.set_avatar_group_id None) _ _ _
                    (λ _, eq_refl) Hr).
    - split_and!; [done|done|by left|by left|].
      intros ? ? g [= <-] [= <-]. cbn. by rewrite Hg. }
  rewrite !(bool_decide_false _ Ha).
  destruct (decide (group_type = "ic")) as [->|Hi].
  { rewrite !(bool_decide_true ("ic" = "ic")) by done. cbn.
    destruct (find _ (ic_groups (db d))) as [grp|] eqn:Hg; cbn.
    - split_and!; [done|done|left; by apply lifecycle_clear
                  |right; split; [done|by apply lifecycle_clear]|].
      intros ? ? g [= <-] [= <-]. cbn. rewrite Hg. intros [= <-]. split_and!.
      + done.
      + done.
      + apply not_elem_of_map_filter.
      + apply not_elem_of_map_filter.
      + intros r Hr.
        by apply (cleared_column _ (Session.set_ic_group_id None) _ _ _
                    (λ _, eq_refl) Hr).
    - split_and!; [done|done|by left|by left|].
      intros ? ? g [= <-] [= <-]. cbn. by rewrite Hg. }
  rewrite !(bool_decide_false _ Hi).
  destruct (decide (group_type = "request")) as [->|Hr].
  { rewrite !(bool_decide_true ("request" = "request")) by done. cbn.
    destruct (find _ (request_groups (db d))) as [grp|] eqn:Hg; cbn.
    - split_and!; [done|done|left; by apply lifecycle_clear
                  |right; split; [done|by apply lifecycle_clear]|].
      intros ? ? g [= <-] [= <-]. cbn. rewrite Hg. intros [= <-]. split_and!.
      + done.
      + done.
      + apply not_elem_of_map_filter.
      + apply not_elem_of_map_filter.
      + intros r Hr.
        by apply (cleared_column _ (Session.set_request_group_id None) _ _ _
                    (λ _, eq_refl) Hr).
    - split_and!; [done|done|by left|by left|].
      intros ? ? g [= <-] [= <-]. cbn. by rewrite Hg. }
  rewrite !(bool_decide_false _ Hr). cbn.
  split_and!; [done|done|by left|by left|]. intros ? ? g [= <-] [= <-].
  by rewrite !bool_decide_false by done.
Qed.

(** * The expansion of a group-to-group command *)

Section Total.
Context {A B : Type}.
Implicit Types (I : HealerDaemon → Prop).

Lemma total_ret I (a : A) : total I (mret a).
Proof. by apply hoare_ret. Qed.

Lemma total_gets I (f : HealerDaemon → A) : total I (gets f).
Proof. by apply hoare_gets. Qed.

Lemma total_bind I (m : M A) (f : A → M B) :
  total I m → (∀ a, total I (f a)) → total I (m ≫= f).
Proof. intros Hm Hf. by apply hoare_bind with (R := λ _, I). Qed.

Lemma total_try I (m : M A) (h : string → M A) :
  keeps I m → (∀ e, total I (h e)) → total I (try_except m h).
Proof. intros. by apply hoare_try with (E' := I). Qed.

End Total.

Lemma hoare_for_each_prefix {A} (Inv : list A → HealerDaemon → Prop)
    (E : HealerDaemon → Prop) (xs : list A) (body : A → M unit) :
  (∀ pre x, x ∈ xs → hoare (Inv pre) (body x) (λ _, Inv (pre ++ [x])) E) →
  hoare (Inv []) (for_each xs body) (λ _, Inv xs) E.
Proof.
  intros Hbody.
  assert (∀ pre, hoare (Inv pre) (for_each xs body) (λ _, Inv (pre ++ xs)) E) as H;
    [|apply (H [])].
  induction xs as [|x xs IH]; intros pre; simpl.
  - apply hoare_ret. intros d Hd. by rewrite app_nil_r.
  - eapply hoare_bind; [apply Hbody; left|]. intros ?.
    rewrite (cons_middle x pre xs), app_assoc. apply IH.
    intros. apply Hbody. by right.
Qed.

Lemma find_exists {A} (f : A → Z) (k : Z) (l : list A) :
  (∃ x, x ∈ l ∧ f x = k) → ∃ y, find (λ r, bool_decide (f r = k)) l = Some y.
Proof.
  intros (x & Hx & Hk). destruct (find _ l) as [y|] eqn:Hy; [by eexists|].
  apply list_elem_of_In in Hx. eapply find_none in Hy; [|exact Hx].
  by rewrite bool_decide_true in Hy.
Qed.

Lemma list_prod_snoc {A B} (l : list A) (a : A) (k : list B) :
  list_prod (l ++ [a]) k = list_prod l k ++ map (pair a) k.
Proof.
  induction l as [|x l IH]; simpl; [by rewrite app_nil_r|].
  by rewrite IH, app_assoc.
Qed.

Lemma plan_fields (g : Session.t → Session.t) (r : Session.t) :
  plan (g r) = plan r →
  Session.id (g r) = Session.id r ∧ sides (g r) = sides r
  ∧ Session.is_group_session (g r) = Session.is_group_session r
  ∧ Session.parent_session_id (g r) = Session.parent_session_id r.
Proof.
  intros H. split_and!.
  - by apply (f_equal Session.id) in H.
  - by apply (f_equal sides) in H.
  - by apply (f_equal Session.is_group_session) in H.
  - by apply (f_equal Session.parent_session_id) in H.
Qed.

Section Expanding.
Variable d0 : HealerDaemon.
Variable parent : Session.t.
Hypothesis old_keys : ∀ r, r ∈ sessions (db d0) → Session.id r < next_session_id d0.
Hypothesis parent_key : Session.id parent = next_session_id d0.

Local Notation "'Ex'" := (expanding d0 parent).

Lemma expanding_same pairs (f : HealerDaemon → HealerDaemon) :
  (∀ d, db (f d) = db d) →
  (∀ d, next_session_id (f d) = next_session_id d) →
  total (Ex pairs) (modify f).
Proof.
  intros E1 E2. apply hoare_modify. intros d H. unfold expanding. by rewrite E1, E2.
Qed.

Lemma expanding_commit pairs : total (Ex pairs) commit.
Proof. by apply expanding_same. Qed.

Lemma expanding_process_start pairs : total (Ex pairs) process_start.
Proof. by intros d H. Qed.

Lemma expanding_update pairs (j : Z) (g : Session.t → Session.t) :
  next_session_id d0 ≤ j →
  (∀ r, plan (g r) = plan r) →
  total (Ex pairs) (update_session j g).
Proof.
  intros Hj Hg. apply hoare_modify.
  intros d (Hcat & Hn & P & leaves & Hs & HP & Hsides & Hall).
  assert (∀ r, Session.id (g r) = Session.id r) as Hid
    by (intros r; by apply plan_fields).
  split_and!; [done..|]. cbn. rewrite Hs.
  exists (if bool_decide (Session.id P = j) then g P else P),
         (map (λ r, if bool_decide (Session.id r = j) then g r else r) leaves).
  split_and!.
  - rewrite map_app. cbn. f_equal.
    rewrite <- (map_id (sessions (db d0))) at 2. apply map_ext_in.
    intros r Hr%list_elem_of_In%old_keys. case_bool_decide; [lia|done].
  - case_bool_decide; [by rewrite Hg|done].
  - rewrite <- Hsides, map_map. apply map_ext. intros r.
    case_bool_decide; [|done]. by apply plan_fields.
  - apply Forall_fmap. eapply Forall_impl; [exact Hall|]. intros r [H1 H2]. cbn.
    case_bool_decide; [|done].
    destruct (plan_fields g r (Hg r)) as (_ & _ & -> & ->). done.
Qed.

Lemma expanding_keeps pairs {X} (m : M X) : total (Ex pairs) m → keeps (Ex pairs) m.
Proof. intros H. eapply hoare_conseq; [exact H|..]; done. Qed.

Lemma expanding_load_avatar pairs (k : option Z) :
  keeps (Ex pairs) (_load_avatar_to_cache k).
Proof.
  unfold _load_avatar_to_cache. repeat kstep; try apply keeps_gets.
  by apply expanding_keeps, expanding_same.
Qed.

Lemma expanding_load_ic pairs (k : option Z) :
  keeps (Ex pairs) (_load_ic_to_cache k).
Proof.
  unfold _load_ic_to_cache. repeat kstep; try apply keeps_gets.
  by apply expanding_keeps, expanding_same.
Qed.

Lemma expanding_load_request pairs (k : option Z) :
  keeps (Ex pairs) (_load_request_to_cache k).
Proof.
  unfold _load_request_to_cache. repeat kstep; try apply keeps_gets.
  by apply expanding_keeps, expanding_same.
Qed.

(** The supervisor writes on the row it spawns and on no other, and it
    does not raise. *)
Lemma expanding_spawn pairs (s : Session.t) :
  next_session_id d0 ≤ Session.id s →
  total (Ex pairs) (_spawn_worker_for_session s).
Proof.
  intros Hs. unfold _spawn_worker_for_session.
  case_bool_decide; [apply total_ret|].
  apply total_bind; [apply total_gets|]. intros workers.
  case_bool_decide; [apply total_ret|].
  apply total_try.
  - repeat kstep;
      try first [ apply expanding_load_avatar | apply expanding_load_ic
                | apply expanding_load_request
                | apply expanding_keeps, expanding_process_start
                | apply expanding_keeps, expanding_commit
                | by apply expanding_keeps, expanding_same
                | by apply expanding_keeps, expanding_update ].
  - intros e. apply total_bind; [by apply expanding_update|].
    intros ?. apply expanding_commit.
Qed.

(** One more leaf. *)
Lemma expanding_add pairs (c : Session.t) (a i : Z) :
  Session.is_group_session c = false →
  Session.parent_session_id c = Some (Session.id parent) →
  sides c = (Some a, Some i) →
  hoare (Ex pairs) (add c)
        (λ c' d, next_session_id d0 ≤ Session.id c' ∧ Ex (pairs ++ [(a, i)]) d)
        (λ _, False).
Proof.
  intros Hg Hp Hs d (Hcat & Hn & P & leaves & Hd & HP & Hsides & Hall). cbn.
  split; [lia|]. split_and!; [done|cbn; lia|]. cbn.
  exists P, (leaves ++ [Session.set_id (next_session_id d) c]). split_and!.
  - by rewrite Hd, <- app_assoc.
  - done.
  - by rewrite !map_app, Hsides; cbn; rewrite <- Hs.
  - apply Forall_app. split; [done|]. by apply Forall_singleton.
Qed.


Hypothesis fk : members_exist (db d0).

Lemma expanding_get_avatar pairs (m : AvatarGroupMember.t) :
  m ∈ avatar_group_members (db d0) →
  hoare (Ex pairs) (get_avatar (Some (AvatarGroupMember.avatar_id m)))
        (λ v d, is_Some v ∧ Ex pairs d) (λ _, False).
Proof.
  intros Hm. apply hoare_gets. intros d H. split; [|done].
  destruct H as (Hcat & _). apply (f_equal avatars) in Hcat. cbn in Hcat |- *.
  rewrite Hcat. destruct fk as (Hfk & _ & _).
  destruct (find_exists Avatar.id (AvatarGroupMember.avatar_id m)
              (avatars (db d0)) (Hfk m Hm)) as [y Hy].
  rewrite Hy. by eexists.
Qed.

Lemma expanding_get_ic pairs (m : ICGroupMember.t) :
  m ∈ ic_group_members (db d0) →
  hoare (Ex pairs) (get_ic (Some (ICGroupMember.ic_id m)))
        (λ v d, is_Some v ∧ Ex pairs d) (λ _, False).
Proof.
  intros Hm. apply hoare_gets. intros d H. split; [|done].
  destruct H as (Hcat & _). apply (f_equal information_copies) in Hcat.
  cbn in Hcat |- *. rewrite Hcat. destruct fk as (_ & Hfk & _).
  destruct (find_exists InformationCopy.id (ICGroupMember.ic_id m)
              (information_copies (db d0)) (Hfk m Hm)) as [y Hy].
  rewrite Hy. by eexists.
Qed.

End Expanding.

Lemma hoare_known {A B} (P : HealerDaemon → Prop) (φ : A → Prop) (m : M A)
    (f : A → M B) (Q : B → HealerDaemon → Prop) (E : HealerDaemon → Prop) :
  hoare P m (λ a d, φ a ∧ P d) E → (∀ a, φ a → hoare P (f a) Q E) →
  hoare P (m ≫= f) Q E.
Proof.
  intros Hm Hf. eapply hoare_bind; [exact Hm|]. intros a d [Ha Hd]. by apply Hf.
Qed.

Lemma total_bind_hoare {A B} (I : HealerDaemon → Prop) (m : M A) (f : A → M B)
    (Q : B → HealerDaemon → Prop) (E : HealerDaemon → Prop) :
  total I m → (∀ a, hoare I (f a) Q E) → hoare I (m ≫= f) Q E.
Proof.
  intros Hm Hf. eapply hoare_bind; [|exact Hf].
  eapply hoare_conseq; [exact Hm|..]; done.
Qed.

(** The leaves of one avatar member. *)
Lemma expanding_inner (d0 : HealerDaemon) (p : Session.t) (pairs : list (Z * Z))
    (avatar_member : AvatarGroupMember.t) (i_members : list ICGroupMember.t) :
  (∀ r, r ∈ sessions (db d0) → Session.id r < next_session_id d0) →
  members_exist (db d0) →
  avatar_member ∈ avatar_group_members (db d0) →
  (∀ m, m ∈ i_members → m ∈ ic_group_members (db d0)) →
  hoare (expanding d0 p pairs)
    (for_each i_members (λ ic_member,
       avatar ← get_avatar (Some (AvatarGroupMember.avatar_id avatar_member));
       avatar_name ← attr "name" Avatar.name avatar;
       ic ← get_ic (Some (ICGroupMember.ic_id ic_member));
       ic_name ← attr "name" InformationCopy.name ic;
       let child_desc :=
         "'" +:+ avatar_name +:+ "' <=> '" +:+ ic_name +:+
         "' (from Group Session #" +:+ pretty (Session.id p) +:+ ")" in
       child_session ←
         add (Session.new SessionType.IC_SESSION (Session.start_time p)
                (Session.end_time p) SessionStatus.SCHEDULED
              |> Session.set_parent_session_id (Some (Session.id p))
              |> Session.set_avatar_id (Some (AvatarGroupMember.avatar_id avatar_member))
              |> Session.set_ic_id (Some (ICGroupMember.ic_id ic_member))
              |> Session.set_description (Some child_desc));
       commit;;
       _spawn_worker_for_session child_session))
    (λ _, expanding d0 p
            (pairs ++ map (pair (AvatarGroupMember.avatar_id avatar_member))
                          (map ICGroupMember.ic_id i_members)))
    (λ _, False).
Proof.
  intros Hold Hfk Ha Hi.
  set (Inv := λ pre, expanding d0 p
                       (pairs ++ map (pair (AvatarGroupMember.avatar_id avatar_member))
                                     (map ICGroupMember.ic_id pre))).
  apply hoare_conseq with (P' := Inv []) (Q' := λ _, Inv i_members)
                          (E' := λ _, False);
    [|intros d Hd; unfold Inv; cbn; by rewrite app_nil_r|done|done].
  apply hoare_for_each_prefix. unfold Inv.
  intros pre ic_member Hin.
  eapply hoare_known; [by apply expanding_get_avatar|]. intros ? [avatar ->].
  apply total_bind_hoare; [apply total_ret|]. intros avatar_name.
  eapply hoare_known; [by apply expanding_get_ic; [|apply Hi]|]. intros ? [ic ->].
  apply total_bind_hoare; [apply total_ret|]. intros ic_name.
  eapply hoare_bind; [by apply expanding_add|]. intros child d [Hc Hd]. revert d Hd.
  rewrite !map_app, app_assoc. cbn.
  apply (total_bind _ commit); [by apply expanding_commit|]. intros ?.
  by apply expanding_spawn.
Qed.

(** All the leaves: the product of the two groups, avatar by avatar. *)
Lemma expanding_outer (d0 : HealerDaemon) (p : Session.t)
    (a_members : list AvatarGroupMember.t) (i_members : list ICGroupMember.t) :
  (∀ r, r ∈ sessions (db d0) → Session.id r < next_session_id d0) →
  members_exist (db d0) →
  (∀ m, m ∈ a_members → m ∈ avatar_group_members (db d0)) →
  (∀ m, m ∈ i_members → m ∈ ic_group_members (db d0)) →
  hoare (expanding d0 p [])
    (for_each a_members (λ avatar_member,
       for_each i_members (λ ic_member,
         avatar ← get_avatar (Some (AvatarGroupMember.avatar_id avatar_member));
         avatar_name ← attr "name" Avatar.name avatar;
         ic ← get_ic (Some (ICGroupMember.ic_id ic_member));
         ic_name ← attr "name" InformationCopy.name ic;
         let child_desc :=
           "'" +:+ avatar_name +:+ "' <=> '" +:+ ic_name +:+
           "' (from Group Session #" +:+ pretty (Session.id p) +:+ ")" in
         child_session ←
           add (Session.new SessionType.IC_SESSION (Session.start_time p)
                  (Session.end_time p) SessionStatus.SCHEDULED
                |> Session.set_parent_session_id (Some (Session.id p))
                |> Session.set_avatar_id
                     (Some (AvatarGroupMember.avatar_id avatar_member))
                |> Session.set_ic_id (Some (ICGroupMember.ic_id ic_member))
                |> Session.set_description (Some child_desc));
         commit;;
         _spawn_worker_for_session child_session)))
    (λ _, expanding d0 p
            (list_prod (map AvatarGroupMember.avatar_id a_members)
                       (map ICGroupMember.ic_id i_members)))
    (λ _, False).
Proof.
  intros Hold Hfk Ha Hi.
  apply (hoare_for_each_prefix
           (λ pre, expanding d0 p
                     (list_prod (map AvatarGroupMember.avatar_id pre)
                                (map ICGroupMember.ic_id i_members)))).
  intros pre avatar_member Hin. rewrite map_app. cbn. rewrite list_prod_snoc.
  apply expanding_inner; auto.
Qed.

Lemma group_named_avatar (an : string) (st : Store) (ga : Z) :
  group_named "avatar" an st = Some ga →
  ∃ g, find (λ g, bool_decide (AvatarGroup.name g = an)) (avatar_groups st) = Some g
       ∧ AvatarGroup.id g = ga.
Proof.
  unfold group_named. rewrite bool_decide_true by done.
  destruct (find _ _) as [g|]; [|done]. intros [= <-]. by exists g.
Qed.

Lemma group_named_ic (n : string) (st : Store) (gi : Z) :
  group_named "ic" n st = Some gi →
  ∃ g, find (λ g, bool_decide (ICGroup.name g = n)) (ic_groups st) = Some g
       ∧ ICGroup.id g = gi.
Proof.
  unfold group_named. rewrite bool_decide_false by done.
  rewrite bool_decide_true by done.
  destruct (find _ _) as [g|]; [|done]. intros [= <-]. by exists g.
Qed.

Lemma members_exist_list (st : Store) :
  forallb (λ m, existsb (λ a, bool_decide (Avatar.id a = AvatarGroupMember.avatar_id m))
                        (avatars st)) (avatar_group_members st) = true →
  forallb (λ m, existsb (λ c, bool_decide (InformationCopy.id c = ICGroupMember.ic_id m))
                        (information_copies st)) (ic_group_members st) = true →
  forallb (λ m, existsb (λ q, bool_decide (Request.id q = RequestGroupMember.request_id m))
                        (requests st)) (request_group_members st) = true →
  members_exist st.
Proof.
  intros H1 H2 H3. rewrite forallb_forall in H1, H2, H3. split_and!.
  - intros m Hm%list_elem_of_In%H1%existsb_exists. destruct Hm as (a & Ha & E).
    exists a. split; [by apply list_elem_of_In|by apply bool_decide_eq_true in E].
  - intros m Hm%list_elem_of_In%H2%existsb_exists. destruct Hm as (a & Ha & E).
    exists a. split; [by apply list_elem_of_In|by apply bool_decide_eq_true in E].
  - intros m Hm%list_elem_of_In%H3%existsb_exists. destruct Hm as (a & Ha & E).
    exists a. split; [by apply list_elem_of_In|by apply bool_decide_eq_true in E].
Qed.


(** * What the resolution of a side tells *)

Lemma targets_avatar_read (a : option Z) (g : option string) (d : HealerDaemon) :
  (_get_target_avatar_ids a g d).2 = d.
Proof.
  unfold _get_target_avatar_ids, get_avatar, avatar_group_by_name, avatar_members,
    gets, raise, mbind, M_bind, mret, M_ret.
  repeat (case_match; cbn; try done).
Qed.

Lemma targets_request_read (a : option Z) (g : option string) (d : HealerDaemon) :
  (_get_target_request_ids a g d).2 = d.
Proof.
  unfold _get_target_request_ids, get_request, request_group_by_name,
    request_members, gets, raise, mbind, M_bind, mret, M_ret.
  repeat (case_match; cbn; try done).
Qed.

Lemma find_id_exists {A} (f : A → Z) (k : Z) (l : list A) (y : A) :
  find (λ r, bool_decide (f r = k)) l = Some y → ∃ x, x ∈ l ∧ f x = k.
Proof.
  intros [H1 H2]%elem_of_find. apply bool_decide_eq_true in H2. by exists y.
Qed.

(** A side that resolves gives at least one id, each of an existing row;
    more than one id comes from a named group. *)
Lemma targets_avatar_ok (a : option Z) (g : option string) (d : HealerDaemon)
    (ids : list Z) :
  members_exist (db d) →
  (_get_target_avatar_ids a g d).1 = Ok ids →
  ids ≠ []
  ∧ (∀ i, i ∈ ids → ∃ x, get_avatar (Some i) d = (Ok (Some x), d))
  ∧ ((1 < length ids)%nat →
     ∃ n grp, g = Some n ∧ avatar_group_by_name (Some n) d = (Ok (Some grp), d)).
Proof.
  intros (Hfk & _ & _).
  unfold _get_target_avatar_ids, get_avatar, avatar_group_by_name, avatar_members,
    gets, raise, mbind, M_bind, mret, M_ret.
  destruct (truthy_int a) as [k|] eqn:Ha; cbn.
  { destruct (find _ (avatars (db d))) as [x|] eqn:Hx; cbn; [|done].
    intros [= <-]. split_and!; [done| |cbn; lia].
    intros i ->%list_elem_of_singleton. exists x. cbn. by rewrite Hx. }
  destruct (truthy_str g) as [n|] eqn:Hg; cbn; [|done].
  destruct (find _ (avatar_groups (db d))) as [grp|] eqn:Hgrp; cbn; [|done].
  destruct (map _ _) as [|i0 rest] eqn:Hids; cbn; [done|].
  intros [= <-]. split_and!; [done| |].
  - intros i Hi. rewrite <- Hids in Hi.
    apply list_elem_of_fmap in Hi as (m & -> & [_ Hm]%list_elem_of_filter).
    destruct (find_exists Avatar.id (AvatarGroupMember.avatar_id m)
                (avatars (db d)) (Hfk m Hm)) as [y Hy].
    exists y. cbn. by rewrite Hy.
  - intros _. exists n, grp. split; [|by rewrite Hgrp].
    unfold truthy_str in Hg. destruct g as [s|]; [|done].
    by case_bool_decide; simplify_eq.
Qed.

Lemma targets_request_ok (a : option Z) (g : option string) (d : HealerDaemon)
    (ids : list Z) :
  members_exist (db d) →
  (_get_target_request_ids a g d).1 = Ok ids →
  ids ≠ []
  ∧ (∀ i, i ∈ ids → ∃ x, get_request (Some i) d = (Ok (Some x), d))
  ∧ ((1 < length ids)%nat →
     ∃ n grp, g = Some n ∧ request_group_by_name (Some n) d = (Ok (Some grp), d)).
Proof.
  intros (_ & _ & Hfk).
  unfold _get_target_request_ids, get_request, request_group_by_name,
    request_members, gets, raise, mbind, M_bind, mret, M_ret.
  destruct (truthy_int a) as [k|] eqn:Ha; cbn.
  { destruct (find _ (requests (db d))) as [x|] eqn:Hx; cbn; [|done].
    intros [= <-]. split_and!; [done| |cbn; lia].
    intros i ->%list_elem_of_singleton. exists x. cbn. by rewrite Hx. }
  destruct (truthy_str g) as [n|] eqn:Hg; cbn; [|done].
  destruct (find _ (request_groups (db d))) as [grp|] eqn:Hgrp; cbn; [|done].
  destruct (map _ _) as [|i0 rest] eqn:Hids; cbn; [done|].
  intros [= <-]. split_and!; [done| |].
  - intros i Hi. rewrite <- Hids in Hi.
    apply list_elem_of_fmap in Hi as (m & -> & [_ Hm]%list_elem_of_filter).
    destruct (find_exists Request.id (RequestGroupMember.request_id m)
                (requests (db d)) (Hfk m Hm)) as [y Hy].
    exists y. cbn. by rewrite Hy.
  - intros _. exists n, grp. split; [|by rewrite Hgrp].
    unfold truthy_str in Hg. destruct g as [s|]; [|done].
    by case_bool_decide; simplify_eq.
Qed.

(** * The dispatcher and the read-only command *)

Lemma with_db_saved (d : HealerDaemon) : saved d = db d → with_db (λ _, saved d) d = d.
Proof. intros H. destruct d; cbn in *. by subst. Qed.

(** X1.  The dispatch table knows the fifteen names of [actions] and no
    other: a command with any other name is answered with the error
    "Unknown command: <name>" and leaves the daemon as it was. *)
Theorem unknown_action_is_refused (action : string) (data : Data.t)
    (d : HealerDaemon) :
  (action ∈ actions ↔ is_Some (ACTION_HANDLERS action))
  ∧ (action ∉ actions →
     run action data d = (error ("Unknown command: " +:+ action), d)).
Proof.
  assert (action ∈ actions ↔ is_Some (ACTION_HANDLERS action)) as Hiff.
  { unfold ACTION_HANDLERS, actions.
    repeat (case_bool_decide;
            [subst; split; [intros _; by eexists
                           | intros _; apply list_elem_of_In; cbn; auto 20]|]).
    split; [|by intros [? [=]]]. intros Hin%list_elem_of_In. cbn in Hin.
    intuition congruence. }
  split; [done|]. intros Hnot. unfold run, serve, guarded, try_except.
  destruct (ACTION_HANDLERS action) as [h|] eqn:Hh; [|done].
  exfalso. apply Hnot, Hiff. by eexists.
Qed.

Lemma unknown_action_is_refused_witness :
  ("ping" ∈ actions ↔ is_Some (ACTION_HANDLERS "ping"))
  ∧ run "start" Data.empty Scenario.fresh
    = (error "Unknown command: start", Scenario.fresh).
Proof.
  destruct (unknown_action_is_refused "ping" Data.empty Scenario.fresh) as [H _].
  split; [exact H|].
  apply (unknown_action_is_refused "start" Data.empty Scenario.fresh).
  intros H'%list_elem_of_In. cbn in H'. intuition discriminate.
Defined.

Section ReadsOnly.
Context {A B : Type}.

Lemma reads_only_ret (a : A) : reads_only (mret a).
Proof. done. Qed.

Lemma reads_only_raise (e : string) : reads_only (raise e : M A).
Proof. done. Qed.

Lemma reads_only_gets (f : HealerDaemon → A) : reads_only (gets f).
Proof. done. Qed.

Lemma reads_only_bind (m : M A) (f : A → M B) :
  reads_only m → (∀ a, reads_only (f a)) → reads_only (m ≫= f).
Proof.
  intros Hm Hf d. specialize (Hm d). unfold mbind, M_bind.
  destruct (m d) as [[a|e] d']; cbn in *; subst; [apply Hf|done].
Qed.

Lemma reads_only_try (m : M A) (h : string → M A) :
  reads_only m → (∀ e, reads_only (h e)) → reads_only (try_except m h).
Proof.
  intros Hm Hh d. specialize (Hm d). unfold try_except.
  destruct (m d) as [[a|e] d']; cbn in *; subst; [done|apply Hh].
Qed.

End ReadsOnly.

Lemma reads_only_index {A} (key : string) (v : option A) : reads_only (index key v).
Proof. by destruct v. Qed.

Lemma reads_only_mapM {A B} (f : A → M B) (l : list A) :
  (∀ x, reads_only (f x)) → reads_only (mapM f l).
Proof.
  intros Hf. induction l as [|x l IH]; cbn; [done|].
  apply reads_only_bind; [apply Hf|]. intros b.
  apply reads_only_bind; [apply IH|]. by intros.
Qed.

Ltac rstep :=
  lazymatch goal with
  | |- reads_only (mret _) => apply reads_only_ret
  | |- reads_only (raise _) => apply reads_only_raise
  | |- reads_only (gets _) => apply reads_only_gets
  | |- reads_only (index _ _) => apply reads_only_index
  | |- reads_only (query_sessions _) => apply reads_only_gets
  | |- reads_only (get_avatar _) => apply reads_only_gets
  | |- reads_only (get_session _) => apply reads_only_gets
  | |- reads_only (mbind _ _) => apply reads_only_bind; [| intros ?]
  | |- reads_only (try_except _ _) => apply reads_only_try; [| intros ?]
  | |- reads_only (mapM _ _) => apply reads_only_mapM; intros ?
  | |- reads_only (let _ := _ in _) => cbv zeta
  | |- reads_only (match ?x with _ => _ end) => destruct x eqn:?
  | |- reads_only (if ?b then _ else _) => destruct b eqn:?
  end.

Lemma view_reads_only (data : Data.t) : reads_only (handle_view_running_on data).
Proof. unfold handle_view_running_on. repeat rstep. Qed.

(** X2.  [view_running_on] is a query: whatever its argument, and whether
    it answers with the table or with an error, the daemon (store, caches,
    workers, clock) is afterwards exactly as before. *)
Theorem view_running_on_changes_nothing (data : Data.t) (d : HealerDaemon) :
  saved d = db d →
  (run "view_running_on" data d).2 = d.
Proof.
  intros Hclean. rewrite (run_handler _ handle_view_running_on) by reflexivity.
  pose proof (view_reads_only data d) as H.
  destruct (handle_view_running_on data d) as [[reply|e] d']; cbn in *; subst;
    [done|by apply with_db_saved].
Qed.

Lemma view_running_on_changes_nothing_witness :
  (run "view_running_on" Data.empty Scenario.group_on_group).2
  = Scenario.group_on_group.
Proof.
  apply (view_running_on_changes_nothing Data.empty Scenario.group_on_group).
  vm_compute; reflexivity.
Defined.

(** * Queries on a settled daemon *)

Lemma find_keyed (st : Store) (n : Z) (r : Session.t) :
  keyed st n → r ∈ sessions st →
  find (λ x, bool_decide (Session.id x = Session.id r)) (sessions st) = Some r.
Proof.
  intros Hk Hr.
  destruct (find _ (sessions st)) as [x|] eqn:Hx.
  - apply elem_of_find in Hx as [Hx Hid]. apply bool_decide_eq_true in Hid.
    f_equal. by eapply keyed_unique.
  - apply list_elem_of_In in Hr. eapply find_none in Hx; [|exact Hr].
    by rewrite bool_decide_eq_false in Hx.
Qed.

Lemma flushed_settled (d : HealerDaemon) (r : Session.t) :
  settled d → r ∈ sessions (db d) → flushed d r = r.
Proof.
  intros [Hs Hk] Hr. unfold flushed. rewrite Hs.
  by rewrite (find_keyed _ _ _ Hk Hr).
Qed.

Lemma filter_ext_elem {A} (f g : A → bool) (l : list A) :
  (∀ x, x ∈ l → f x = g x) → filter f l = filter g l.
Proof.
  induction l as [|x l IH]; intros H; [done|].
  rewrite !filter_cons. rewrite IH by (intros; apply H; by right).
  rewrite (H x) by left. done.
Qed.

(** With nothing pending, a query sees the rows of the working copy. *)
Lemma query_settled (crit : list Session.t → Session.t → bool) (d : HealerDaemon) :
  settled d →
  query_sessions crit d
  = (Ok (filter (λ r, crit (sessions (db d)) r) (sessions (db d))), d).
Proof.
  intros Hd. unfold query_sessions, gets. cbv zeta. do 2 f_equal.
  assert (map (flushed d) (sessions (db d)) = sessions (db d)) as ->.
  { rewrite <- (map_id (sessions (db d))) at 2. apply map_ext_in.
    intros r Hr%list_elem_of_In. by apply flushed_settled. }
  apply filter_ext_elem. intros r Hr. by rewrite flushed_settled.
Qed.

Lemma bind_ok {A B} (m : M A) (f : A → M B) (d d' : HealerDaemon) (a : A) :
  m d = (Ok a, d') → (m ≫= f) d = f a d'.
Proof. intros H. unfold mbind, M_bind. by rewrite H. Qed.

Lemma bind_raise {A B} (m : M A) (f : A → M B) (d d' : HealerDaemon) (e : string) :
  m d = (Raise e, d') → (m ≫= f) d = (Raise e, d').
Proof. intros H. unfold mbind, M_bind. by rewrite H. Qed.

Lemma mapM_keys {A B} (f : A → M B) (key : B → Z) (key' : A → Z) (l : list A)
    (d : HealerDaemon) :
  (∀ x, ∃ b, f x d = (Ok b, d) ∧ key b = key' x) →
  ∃ bs, mapM f l d = (Ok bs, d) ∧ map key bs = map key' l.
Proof.
  intros Hf. induction l as [|x l (bs & IH & Hbs)]; cbn.
  - by exists [].
  - destruct (Hf x) as (b & Hb & Hk). exists (b :: bs).
    rewrite (bind_ok _ _ _ _ _ Hb), (bind_ok _ _ _ _ _ IH). cbn. by rewrite Hk, Hbs.
Qed.

(** X3.  When [view_running_on] answers with the table of the avatar [a],
    every row of the table is a session that is RUNNING and is not a group
    session, and every such session that has [a] as its avatar or as its
    destination avatar is in the table. *)
Theorem view_running_on_lists_running_leaves (data : Data.t) (d : HealerDaemon)
    (name : string) (a : Z) (rows : list ViewRow) :
  settled d →
  (run "view_running_on" data d).1 = Table name a rows →
  (∃ x, x ∈ avatars (db d) ∧ Avatar.id x = a ∧ Avatar.name x = name)
  ∧ (∀ i, i ∈ map vr_session_id rows →
          ∃ r, r ∈ sessions (db d) ∧ Session.id r = i
               ∧ Session.status r = SessionStatus.RUNNING
               ∧ Session.is_group_session r = false)
  ∧ (∀ r, r ∈ sessions (db d) →
          Session.status r = SessionStatus.RUNNING →
          Session.is_group_session r = false →
          Session.avatar_id r = Some a ∨ Session.destination_avatar_id r = Some a →
          Session.id r ∈ map vr_session_id rows).
Proof.
  intros Hd. rewrite (run_handler _ handle_view_running_on) by reflexivity.
  unfold handle_view_running_on.
  destruct (Data.avatar_identifier data) as [ident|]; [|by cbn].
  cbn [index]. unfold mbind at 1, M_bind at 1, mret at 1, M_ret at 1.
  unfold try_except.
  set (lookup := match int_of_digits ident with
                 | Some n => get_avatar (Some n)
                 | None => gets _
                 end).
  assert (∃ av, lookup d = (Ok av, d)
                ∧ ∀ x, av = Some x → x ∈ avatars (db d)) as (av & Hav & Hin).
  { unfold lookup. destruct (int_of_digits ident); cbn; eexists; (split; [done|]);
      intros x Hx; by apply elem_of_find in Hx as [Hx _]. }
  rewrite (bind_ok _ _ _ _ _ Hav).
  destruct av as [avatar|]; [|by cbn]. specialize (Hin avatar eq_refl).
  erewrite bind_ok by reflexivity.
  rewrite (bind_ok _ _ _ _ _ (query_settled _ d Hd)).
  match goal with |- context [mapM ?f ?l] =>
    destruct (mapM_keys f vr_session_id Session.id l d) as (bs & Hbs & Hkeys)
  end.
  { intros s. unfold get_session, gets, mbind, M_bind, mret, M_ret. by eexists. }
  rewrite (bind_ok _ _ _ _ _ Hbs). cbn.
  intros [= <- <- <-]. split_and!.
  - by exists avatar.
  - intros i. rewrite Hkeys.
    intros (r & -> & [Hc Hr]%list_elem_of_filter)%list_elem_of_fmap.
    exists r. apply Is_true_true in Hc.
    rewrite !andb_true_iff, bool_decide_eq_true, negb_true_iff in Hc.
    by destruct Hc as [[? ?] _].
  - intros r Hr Hst Hleaf Hside. rewrite Hkeys. apply list_elem_of_fmap.
    exists r. split; [done|]. apply list_elem_of_filter. split; [|done].
    apply Is_true_true. rewrite !andb_true_iff, bool_decide_eq_true, negb_true_iff.
    split_and!; [done..|]. rewrite !orb_true_iff. unfold is_.
    rewrite !bool_decide_eq_true. tauto.
Qed.

Lemma view_running_on_lists_running_leaves_witness :
  let d := Scenario.group_on_group in
  let rows := match (run "view_running_on" (cmd_view "Ann") d).1 with
              | Table _ _ rows => rows
              | _ => []
              end in
  (∃ x, x ∈ avatars (db d) ∧ Avatar.id x = 1 ∧ Avatar.name x = "Ann")
  ∧ (∀ i, i ∈ map vr_session_id rows →
          ∃ r, r ∈ sessions (db d) ∧ Session.id r = i
               ∧ Session.status r = SessionStatus.RUNNING
               ∧ Session.is_group_session r = false)
  ∧ (∀ r, r ∈ sessions (db d) →
          Session.status r = SessionStatus.RUNNING →
          Session.is_group_session r = false →
          Session.avatar_id r = Some 1 ∨ Session.destination_avatar_id r = Some 1 →
          Session.id r ∈ map vr_session_id rows).
Proof.
  cbv zeta.
  apply (view_running_on_lists_running_leaves (cmd_view "Ann")
           Scenario.group_on_group "Ann" 1).
  - split; [vm_compute; reflexivity | apply keyed_list; vm_compute; reflexivity].
  - vm_compute; reflexivity.
Defined.

(** * Stopping, spawning and the caches *)

(** X4.  [_stop_single_session] and [_fail_single_session] act on a RUNNING
    session only.  They return True exactly when the session exists and is
    RUNNING; otherwise they return False and nothing changes.  When they
    return True the session has the final status and no worker pid, the
    write is committed, the worker is out of the registry and its process
    is not alive. *)
Theorem end_single_session_acts_on_running_only (final : SessionStatus.t) (i : Z)
    (d : HealerDaemon) :
  ∃ b d', end_single_session final (Some i) d = (Ok b, d')
  ∧ (b = true ↔ Session.status <$> row i (db d) = Some SessionStatus.RUNNING)
  ∧ (b = false → d' = d)
  ∧ (b = true →
     sessions (db d')
     = rewritten i (λ r, Session.set_worker_pid None (Session.set_status final r))
         (sessions (db d))
     ∧ saved d' = db d'
     ∧ active_workers d' !! i = None
     ∧ ∀ pid, active_workers d !! i = Some pid → pid ∉ live d').
Proof.
  unfold end_single_session, row, get_session, gets.
  unfold mbind at 1, M_bind at 1. cbn [mbind option_bind].
  destruct (find _ (sessions (db d))) as [s|] eqn:Hs; cbn [fmap option_fmap option_map].
  2: { exists false, d. split_and!; by try done. }
  apply elem_of_find in Hs as [Hin Hid]. apply bool_decide_eq_true in Hid.
  case_bool_decide as Hst.
  { exists false, d. split_and!; try done. split; [done|]. intros [=]. done. }
  unfold pop_worker, terminate, update_session, commit, modify, mbind, M_bind,
    mret, M_ret. rewrite Hid.
  destruct (active_workers d !! i) as [p|] eqn:Hw; cbn;
    (eexists true, _; split; [reflexivity|]);
    (split_and!; [by rewrite Hst|done|]); intros _; cbn;
    (split_and!; [done|done|apply lookup_delete_eq|]).
  - intros pid [= <-]. apply not_elem_of_difference. right. by apply elem_of_singleton.
  - done.
Qed.

Lemma end_single_session_acts_on_running_only_witness :
  ∃ b d', end_single_session SessionStatus.STOPPED (Some 2) Scenario.group_on_group
          = (Ok b, d')
  ∧ (b = true ↔ Session.status <$> row 2 (db Scenario.group_on_group)
                = Some SessionStatus.RUNNING)
  ∧ (b = false → d' = Scenario.group_on_group)
  ∧ (b = true →
     sessions (db d')
     = rewritten 2 (λ r, Session.set_worker_pid None
                           (Session.set_status SessionStatus.STOPPED r))
         (sessions (db Scenario.group_on_group))
     ∧ saved d' = db d'
     ∧ active_workers d' !! 2 = None
     ∧ ∀ pid, active_workers Scenario.group_on_group !! 2 = Some pid →
              pid ∉ live d').
Proof.
  exact (end_single_session_acts_on_running_only SessionStatus.STOPPED 2
           Scenario.group_on_group).
Defined.

Section SameButCaches.
Variable d0 : HealerDaemon.
Local Notation "'I'" := (same_but_caches d0).

Lemma same_cache (f : HealerDaemon → HealerDaemon) :
  (∀ d, same_but_caches d (f d)) → keeps I (modify f).
Proof.
  intros Hf. apply hoare_modify. intros d (E1 & E2 & E3 & E4 & E5 & E6).
  destruct (Hf d) as (F1 & F2 & F3 & F4 & F5 & F6).
  unfold same_but_caches. split_and!; congruence.
Qed.

Lemma same_load_avatar (k : option Z) : keeps I (_load_avatar_to_cache k).
Proof.
  unfold _load_avatar_to_cache. repeat kstep; try apply keeps_gets.
  by apply same_cache.
Qed.

Lemma same_load_ic (k : option Z) : keeps I (_load_ic_to_cache k).
Proof.
  unfold _load_ic_to_cache. repeat kstep; try apply keeps_gets.
  by apply same_cache.
Qed.

Lemma same_load_request (k : option Z) : keeps I (_load_request_to_cache k).
Proof.
  unfold _load_request_to_cache. repeat kstep; try apply keeps_gets.
  by apply same_cache.
Qed.

End SameButCaches.

Lemma same_but_caches_refl (d : HealerDaemon) : same_but_caches d d.
Proof. by repeat split. Qed.

(** ** The outcome of loading and of spawning *)

Lemma cached_more_refl (d : HealerDaemon) : cached_more d d.
Proof. by repeat split. Qed.

Lemma cached_more_trans (d d1 d2 : HealerDaemon) :
  cached_more d d1 → cached_more d1 d2 → cached_more d d2.
Proof.
  intros (A1 & A2 & A3 & A4 & A5 & A6 & A7 & A8 & A9 & A10 & A11)
         (B1 & B2 & B3 & B4 & B5 & B6 & B7 & B8 & B9 & B10 & B11).
  unfold cached_more. split_and!; congruence.
Qed.

Lemma load_avatar_outcome (k : option Z) (d : HealerDaemon) :
  ∃ d', cached_more d d'
        ∧ if avatar_loadable d k
          then ∃ b, _load_avatar_to_cache k d = (Ok b, d')
          else ∃ e, _load_avatar_to_cache k d = (Raise e, d').
Proof.
  unfold _load_avatar_to_cache, avatar_loadable, get_avatar, gets, modify, raise,
    mbind, M_bind, mret, M_ret.
  destruct k as [a|]; cbn; [|exists d; split; [apply cached_more_refl|by eexists]].
  destruct (avatar_cache d !! a) as [b|] eqn:Hc; cbn;
    [exists d; split; [apply cached_more_refl|by eexists]|].
  destruct (find _ (avatars (db d))) as [x|] eqn:Hx; cbn;
    [|exists d; split; [apply cached_more_refl|by eexists]].
  eexists. split; [|by eexists]. unfold cached_more. split_and!; try done.
  intros [a'|]; [|done]. cbn. destruct (decide (a' = a)) as [->|Hne].
  - by rewrite lookup_insert_eq, Hc, Hx.
  - by rewrite lookup_insert_ne.
Qed.

Lemma load_ic_outcome (k : option Z) (d : HealerDaemon) :
  ∃ d', cached_more d d'
        ∧ if ic_loadable d k
          then ∃ b, _load_ic_to_cache k d = (Ok b, d')
          else ∃ e, _load_ic_to_cache k d = (Raise e, d').
Proof.
  unfold _load_ic_to_cache, ic_loadable, get_ic, gets, modify, raise,
    mbind, M_bind, mret, M_ret.
  destruct k as [a|]; cbn; [|exists d; split; [apply cached_more_refl|by eexists]].
  destruct (ic_cache d !! a) as [b|] eqn:Hc; cbn;
    [exists d; split; [apply cached_more_refl|by eexists]|].
  destruct (find _ (information_copies (db d))) as [x|] eqn:Hx; cbn;
    [|exists d; split; [apply cached_more_refl|by eexists]].
  eexists. split; [|by eexists]. unfold cached_more. split_and!; try done.
  intros [a'|]; [|done]. cbn. destruct (decide (a' = a)) as [->|Hne].
  - by rewrite lookup_insert_eq, Hc, Hx.
  - by rewrite lookup_insert_ne.
Qed.

Lemma load_request_outcome (k : option Z) (d : HealerDaemon) :
  ∃ d', cached_more d d'
        ∧ if request_loadable d k
          then ∃ b, _load_request_to_cache k d = (Ok b, d')
          else ∃ e, _load_request_to_cache k d = (Raise e, d').
Proof.
  unfold _load_request_to_cache, request_loadable, get_request, gets, modify,
    raise, mbind, M_bind, mret, M_ret.
  destruct k as [a|]; cbn; [|exists d; split; [apply cached_more_refl|by eexists]].
  destruct (request_cache d !! a) as [b|] eqn:Hc; cbn;
    [exists d; split; [apply cached_more_refl|by eexists]|].
  destruct (find _ (requests (db d))) as [x|] eqn:Hx; cbn;
    [|exists d; split; [apply cached_more_refl|by eexists]].
  eexists. split; [|by eexists]. unfold cached_more. split_and!; try done.
  intros [a'|]; [|done]. cbn. destruct (decide (a' = a)) as [->|Hne].
  - by rewrite lookup_insert_eq, Hc, Hx.
  - by rewrite lookup_insert_ne.
Qed.

(** Two loads in a row: both succeed, or the first that fails raises. *)
Lemma load_both {A B} (m1 : M A) (m2 : M B) (ok1 ok2 : bool) (d : HealerDaemon) :
  (∃ d', cached_more d d'
         ∧ if ok1 then ∃ b, m1 d = (Ok b, d') else ∃ e, m1 d = (Raise e, d')) →
  (∀ d1, cached_more d d1 →
     ∃ d', cached_more d1 d'
           ∧ if ok2 then ∃ b, m2 d1 = (Ok b, d') else ∃ e, m2 d1 = (Raise e, d')) →
  ∃ d', cached_more d d'
        ∧ if ok1 && ok2 then (m1;; m2;; mret tt) d = (Ok tt, d')
          else ∃ e, (m1;; m2;; mret tt) d = (Raise e, d').
Proof.
  intros (d1 & C1 & H1) H2. unfold mbind, M_bind, mret, M_ret.
  destruct ok1; cbn.
  - destruct H1 as [b ->]. destruct (H2 d1 C1) as (d2 & C2 & H3).
    exists d2. split; [by eapply cached_more_trans|].
    destruct ok2; [destruct H3 as [b2 ->]|destruct H3 as [e ->]]; [done|by eexists].
  - destruct H1 as [e ->]. exists d1. split; [done|by eexists].
Qed.

(** The payloads of a session are loaded, or loading raises. *)
Lemma load_payloads (s : Session.t) (d : HealerDaemon) :
  let load :=
    match Session.session_type s with
    | SessionType.IC_SESSION | SessionType.GROUP_IC_SESSION =>
        _load_avatar_to_cache (Session.avatar_id s);;
        _load_ic_to_cache (Session.ic_id s);; mret tt
    | SessionType.REQUEST_SESSION =>
        _load_avatar_to_cache (Session.avatar_id s);;
        _load_request_to_cache (Session.request_id s);; mret tt
    | SessionType.AVATAR_LINK =>
        _load_avatar_to_cache (Session.avatar_id s);;
        _load_avatar_to_cache (Session.destination_avatar_id s);; mret tt
    end in
  ∃ d', cached_more d d'
        ∧ if payloads_loadable d s then load d = (Ok tt, d')
          else ∃ e, load d = (Raise e, d').
Proof.
  unfold payloads_loadable. destruct (Session.session_type s); cbv zeta;
    apply load_both; try apply load_avatar_outcome; intros d1 C1.
  - destruct C1 as (_ & _ & _ & _ & _ & _ & _ & _ & _ & E & _).
    rewrite <- E. apply load_ic_outcome.
  - destruct C1 as (_ & _ & _ & _ & _ & _ & _ & _ & _ & _ & E).
    rewrite <- E. apply load_request_outcome.
  - destruct C1 as (_ & _ & _ & _ & _ & _ & _ & _ & E & _ & _).
    rewrite <- E. apply load_avatar_outcome.
  - destruct C1 as (_ & _ & _ & _ & _ & _ & _ & _ & _ & E & _).
    rewrite <- E. apply load_ic_outcome.
Qed.

(** Spawning a session that has a key and no registered worker. *)
Lemma spawn_outcome (s : Session.t) (d : HealerDaemon) :
  Session.id s ≠ 0 → active_workers d !! Session.id s = None →
  ∃ d', _spawn_worker_for_session s d = (Ok tt, d')
        ∧ spawn_left s (payloads_loadable d s) d d'.
Proof.
  intros Hid Hnone. unfold _spawn_worker_for_session.
  rewrite (bool_decide_false _ Hid).
  unfold gets. unfold mbind at 1, M_bind at 1. rewrite Hnone.
  rewrite bool_decide_false by (by intros [? ?]).
  destruct (load_payloads s d) as (d1 & C1 & Hload). cbv zeta in Hload.
  unfold try_except. unfold mbind at 1, M_bind at 1.
  destruct C1 as (E1 & E2 & E3 & E4 & E5 & E6 & E7 & E8 & E9 & E10 & E11).
  destruct (payloads_loadable d s).
  - rewrite Hload. eexists. split; [reflexivity|].
    unfold spawn_left.
    split_and!; try (intros k; first [rewrite <- E9|rewrite <- E10|rewrite <- E11];
                     reflexivity);
      cbn; rewrite ?E1, ?E4, ?E5, ?E6; done.
  - destruct Hload as [e ->]. eexists. split; [reflexivity|].
    unfold spawn_left.
    split_and!; try (intros k; first [rewrite <- E9|rewrite <- E10|rewrite <- E11];
                     reflexivity);
      cbn; rewrite ?E1, ?E4, ?E5, ?E6; done.
Qed.

(** X5.  [_spawn_worker_for_session] never raises.  It does nothing for a
    session without an id or with a worker already registered.  Otherwise
    it commits one of two outcomes, and which one is decided by the
    payloads of the session (for the kind of the session: avatar and
    information copy, avatar and request, or the two avatars): when each of
    them is cached or has a row, the session is RUNNING with the pid of a
    new live process that is registered as its worker; when one of them is
    not, the session is FAILED and no process was started. *)
Theorem spawn_worker_never_raises (s : Session.t) (d : HealerDaemon) :
  ∃ d', _spawn_worker_for_session s d = (Ok tt, d')
  ∧ (Session.id s = 0 ∨ is_Some (active_workers d !! Session.id s) → d' = d)
  ∧ (Session.id s ≠ 0 → active_workers d !! Session.id s = None →
     saved d' = db d'
     ∧ if payloads_loadable d s
       then sessions (db d')
            = rewritten (Session.id s)
                (λ r, Session.set_worker_pid (Some (next_pid d))
                        (Session.set_status SessionStatus.RUNNING r))
                (sessions (db d))
            ∧ active_workers d' = <[Session.id s := next_pid d]> (active_workers d)
            ∧ live d' = {[next_pid d]} ∪ live d
       else sessions (db d')
            = rewritten (Session.id s) (Session.set_status SessionStatus.FAILED)
                (sessions (db d))
            ∧ active_workers d' = active_workers d
            ∧ live d' = live d).
Proof.
  destruct (decide (Session.id s = 0)) as [Hid|Hid].
  { exists d. unfold _spawn_worker_for_session. rewrite (bool_decide_true _ Hid).
    split_and!; [done|done|]. by intros []. }
  destruct (active_workers d !! Session.id s) as [p|] eqn:Hreg.
  { exists d. unfold _spawn_worker_for_session. rewrite (bool_decide_false _ Hid).
    unfold gets. unfold mbind at 1, M_bind at 1. rewrite Hreg.
    rewrite bool_decide_true by (by eexists). split_and!; [done|done|]. by intros _ [=]. }
  destruct (spawn_outcome s d Hid Hreg) as (d' & Hrun & Hleft).
  exists d'. split; [done|]. split.
  { intros [?|[? [=]]]. done. }
  intros _ _. destruct Hleft as (Hc & _ & _ & _ & _ & _ & _ & Hout).
  split; [done|].
  destruct (payloads_loadable d s); destruct Hout as (-> & ? & ? & _); by split_and!.
Qed.

(** X6.  A payload that was loaded once is served from the cache from then
    on: after a successful load of an avatar, an information copy or a
    request, a further load of the same id returns the same bytes and
    changes nothing, whatever the database holds by then. *)
Theorem cached_payload_is_served_again (k : option Z) (d d1 : HealerDaemon)
    (b : bytes) (st : Store) :
  (_load_avatar_to_cache k d = (Ok b, d1) →
   _load_avatar_to_cache k (with_db (λ _, st) d1) = (Ok b, with_db (λ _, st) d1))
  ∧ (_load_ic_to_cache k d = (Ok b, d1) →
     _load_ic_to_cache k (with_db (λ _, st) d1) = (Ok b, with_db (λ _, st) d1))
  ∧ (_load_request_to_cache k d = (Ok b, d1) →
     _load_request_to_cache k (with_db (λ _, st) d1)
     = (Ok b, with_db (λ _, st) d1)).
Proof.
  split_and!.
  - unfold _load_avatar_to_cache, get_avatar, gets, modify, raise, mbind, M_bind,
      mret, M_ret.
    destruct k as [k|]; cbn; [|done].
    destruct (avatar_cache d !! k) as [b0|] eqn:Hc; cbn.
    + intros [= <- <-]. cbn. by rewrite Hc.
    + destruct (find _ (avatars (db d))) as [a|]; cbn; [|done].
      intros [= <- <-]. cbn. by rewrite lookup_insert_eq.
  - unfold _load_ic_to_cache, get_ic, gets, modify, raise, mbind, M_bind,
      mret, M_ret.
    destruct k as [k|]; cbn; [|done].
    destruct (ic_cache d !! k) as [b0|] eqn:Hc; cbn.
    + intros [= <- <-]. cbn. by rewrite Hc.
    + destruct (find _ (information_copies (db d))) as [a|]; cbn; [|done].
      intros [= <- <-]. cbn. by rewrite lookup_insert_eq.
  - unfold _load_request_to_cache, get_request, gets, modify, raise, mbind, M_bind,
      mret, M_ret.
    destruct k as [k|]; cbn; [|done].
    destruct (request_cache d !! k) as [b0|] eqn:Hc; cbn.
    + intros [= <- <-]. cbn. by rewrite Hc.
    + destruct (find _ (requests (db d))) as [a|]; cbn; [|done].
      intros [= <- <-]. cbn. by rewrite lookup_insert_eq.
Qed.

Lemma cached_payload_is_served_again_witness :
  let out := _load_avatar_to_cache (Some 1) Scenario.fresh in
  let gone := with_avatars (λ _, []) Scenario.catalogue in
  ∃ b, out.1 = Ok b
       ∧ _load_avatar_to_cache (Some 1) (with_db (λ _, gone) out.2)
         = (Ok b, with_db (λ _, gone) out.2).
Proof.
  cbv zeta. eexists. split; [vm_compute; reflexivity|].
  apply (cached_payload_is_served_again (Some 1) Scenario.fresh
           (_load_avatar_to_cache (Some 1) Scenario.fresh).2 _
           (with_avatars (λ _, []) Scenario.catalogue)).
  vm_compute; reflexivity.
Defined.

(** X7.  The resolution of an avatar side reads only.  A non-zero
    [avatar_id] wins over the group name and resolves to that id alone; an
    absent or zero id resolves a named group to its member ids, in order.
    A side that resolves is never empty and each of its ids is the id of an
    avatar row. *)
Theorem target_avatars_resolve_to_rows (avatar_id : option Z)
    (avatar_group_name : option string) (d d' : HealerDaemon) (ids : list Z) :
  members_exist (db d) →
  _get_target_avatar_ids avatar_id avatar_group_name d = (Ok ids, d') →
  d' = d
  ∧ ids ≠ []
  ∧ (∀ i, i ∈ ids → ∃ x, x ∈ avatars (db d) ∧ Avatar.id x = i)
  ∧ match avatar_id with
    | Some k =>
        if bool_decide (k = 0) then avatar_id_absent avatar_group_name d ids
        else ids = [k]
    | None => avatar_id_absent avatar_group_name d ids
    end.
Proof.
  intros Hfk Hrun.
  pose proof (targets_avatar_read avatar_id avatar_group_name d) as Hd.
  rewrite Hrun in Hd. cbn in Hd. subst d'.
  destruct (targets_avatar_ok avatar_id avatar_group_name d ids Hfk) as (Hne & Hex & _).
  { by rewrite Hrun. }
  split_and!; [done|done| |].
  - intros i Hi. destruct (Hex i Hi) as [x Hx].
    unfold get_avatar, gets in Hx. cbn in Hx. injection Hx as Hx.
    apply elem_of_find in Hx as [Hx Hid]. apply bool_decide_eq_true in Hid.
    by exists x.
  - revert Hrun.
    unfold _get_target_avatar_ids, avatar_id_absent, get_avatar,
      avatar_group_by_name, avatar_members, gets, raise, mbind, M_bind, mret, M_ret.
    assert (∀ k, truthy_int (Some k) = if bool_decide (k = 0) then None else Some k)
      as Ht by done.
    destruct avatar_id as [k|]; [rewrite Ht; case_bool_decide|]; cbn.
    + destruct (truthy_str avatar_group_name) as [n|]; cbn; [|done].
      destruct (find _ (avatar_groups (db d))) as [g|] eqn:Hg; cbn; [|done].
      destruct (map _ _) eqn:Hm; cbn; [done|]. intros [= <-].
      exists n, g. by rewrite Hg, Hm.
    + destruct (find _ (avatars (db d))); cbn; [|done]. by intros [= <-].
    + destruct (truthy_str avatar_group_name) as [n|]; cbn; [|done].
      destruct (find _ (avatar_groups (db d))) as [g|] eqn:Hg; cbn; [|done].
      destruct (map _ _) eqn:Hm; cbn; [done|]. intros [= <-].
      exists n, g. by rewrite Hg, Hm.
Qed.

Lemma target_avatars_resolve_to_rows_witness :
  let d := Scenario.fresh in
  let ids := [1; 2] in
  ids ≠ []
  ∧ (∀ i, i ∈ ids → ∃ x, x ∈ avatars (db d) ∧ Avatar.id x = i)
  ∧ avatar_id_absent (Some "G") d ids.
Proof.
  cbv zeta.
  destruct (target_avatars_resolve_to_rows (Some 0) (Some "G") Scenario.fresh
              Scenario.fresh [1; 2]) as (_ & H1 & H2 & H3).
  - apply members_exist_list; vm_compute; reflexivity.
  - vm_compute; reflexivity.
  - split_and!; [exact H1|exact H2|exact H3].
Defined.

(** * Invariants of the command loop

    A property of the daemon that the primitive steps keep is kept by the
    handlers built from them.  The three handlers that change the
    catalogue ([add_member_to_group], [update_entity], [remove_entity]) are
    taken as they are: each invariant deals with them in its own way. *)

Section Preserved.
Variable I : HealerDaemon → Prop.
Hypothesis HI : closed I.

Lemma kept_utcnow : keeps I utcnow.
Proof. intros d Hd. cbn. by apply (closed_env I HI d). Qed.

Lemma kept_process_start : keeps I process_start.
Proof. intros d Hd. cbn. by apply (closed_env I HI d). Qed.

Lemma kept_pop_worker (j : Z) : keeps I (pop_worker j).
Proof. intros d Hd. cbn. by apply (closed_env I HI d). Qed.

Lemma kept_terminate (p : option Z) : keeps I (terminate p).
Proof.
  destruct p; [|apply keeps_ret]. apply hoare_modify. intros d Hd.
  by apply (closed_env I HI d).
Qed.

Lemma kept_register (f : gmap Z Z → gmap Z Z) :
  keeps I (modify (with_active_workers f)).
Proof. apply hoare_modify. intros d Hd. by apply (closed_env I HI d). Qed.

Lemma kept_guarded (m : M Reply) : keeps I m → keeps I (guarded m).
Proof.
  intros H. apply keeps_try; [done|]. intros e. kstep; [apply (closed_rollback I HI)|kstep].
Qed.

Ltac pstep :=
  first
  [ apply (closed_commit I HI) | apply (closed_rollback I HI) | apply kept_utcnow
  | apply (closed_load_avatar I HI) | apply (closed_load_ic I HI) | apply (closed_load_request I HI)
  | apply kept_process_start | apply kept_pop_worker | apply kept_terminate
  | apply kept_register | apply kept_guarded | apply (closed_add I HI)
  | apply (closed_update I HI); done
  | apply (closed_leave_avatar I HI) | apply (closed_leave_ic I HI) | apply (closed_leave_request I HI)
  | apply (closed_delete_avatar_group I HI) | apply (closed_delete_ic_group I HI)
  | apply (closed_delete_request_group I HI)
  | apply keeps_gets
  | kstep ].

Lemma kept_spawn (s : Session.t) : keeps I (_spawn_worker_for_session s).
Proof. unfold _spawn_worker_for_session. repeat pstep. Qed.

Lemma kept_end_single (final : SessionStatus.t) (j : option Z) :
  keeps I (end_single_session final j).
Proof. unfold end_single_session, get_session. repeat pstep. Qed.

Lemma kept_end_time (data : Data.t) : keeps I (end_time_from data).
Proof. unfold end_time_from, timedelta_minutes, datetime_add. repeat pstep. Qed.

Lemma kept_targets_avatar (a : option Z) (g : option string) :
  keeps I (_get_target_avatar_ids a g).
Proof. unfold _get_target_avatar_ids. repeat pstep. Qed.

Lemma kept_targets_request (a : option Z) (g : option string) :
  keeps I (_get_target_request_ids a g).
Proof. unfold _get_target_request_ids. repeat pstep. Qed.

Ltac hstep :=
  first
  [ apply kept_spawn | apply kept_end_single | apply kept_end_time
  | apply kept_targets_avatar | apply kept_targets_request
  | apply keeps_gets
  | pstep ].

Lemma kept_start_ic (data : Data.t) : keeps I (handle_start_ic data).
Proof. unfold handle_start_ic. repeat hstep. Qed.

Lemma kept_start_request (data : Data.t) : keeps I (handle_start_request data).
Proof. unfold handle_start_request, start_request_parent. repeat hstep. Qed.

Lemma kept_start_link (data : Data.t) : keeps I (handle_start_link data).
Proof. unfold handle_start_link. repeat hstep. Qed.

Lemma kept_start_group (data : Data.t) : keeps I (handle_start_group data).
Proof. unfold handle_start_group. repeat hstep. Qed.

Lemma kept_stop_session (data : Data.t) : keeps I (handle_stop_session data).
Proof.
  unfold handle_stop_session, is_running, child_sessions, _stop_single_session.
  repeat hstep.
Qed.

Lemma kept_view_running_on (data : Data.t) : keeps I (handle_view_running_on data).
Proof.
  unfold handle_view_running_on, query_sessions. repeat hstep.
  match goal with |- keeps _ (mapM _ ?l) => induction l as [|x l IH] end; cbn.
  - apply keeps_ret.
  - unfold get_session. repeat first [apply IH | hstep].
Qed.

Lemma kept_stop_all (l : list Session.t) : keeps I (stop_all l).
Proof. unfold stop_all, _stop_single_session. repeat hstep. Qed.

Lemma kept_fail_all (l : list Session.t) : keeps I (fail_all l).
Proof. unfold fail_all, _fail_single_session. repeat hstep. Qed.

Lemma kept_extend_parent (a : Avatar.t) (p : Session.t) (n : Z) :
  keeps I (extend_parent a p n).
Proof. unfold extend_parent, ic_group_of. repeat hstep. Qed.

Lemma kept_remove_member (data : Data.t) :
  keeps I (handle_remove_member_from_group data).
Proof.
  unfold handle_remove_member_from_group, query_sessions.
  repeat first [apply kept_stop_all | hstep].
Qed.

Lemma kept_remove_group (data : Data.t) : keeps I (handle_remove_group data).
Proof. unfold handle_remove_group. repeat hstep. Qed.

Lemma kept_fail_all_running (data : Data.t) :
  keeps I (handle_fail_all_running_sessions data).
Proof.
  unfold handle_fail_all_running_sessions, query_sessions.
  repeat first [apply kept_fail_all | hstep].
Qed.

Lemma kept_fail_on_target (data : Data.t) :
  keeps I (handle_fail_sessions_on_target data).
Proof.
  unfold handle_fail_sessions_on_target, query_sessions.
  repeat first [apply kept_fail_all | hstep].
Qed.

Lemma kept_redo (data : Data.t) : keeps I (handle_redo_failed_sessions data).
Proof. unfold handle_redo_failed_sessions, query_sessions. repeat hstep. Qed.

Lemma kept_recover : keeps I recover.
Proof. unfold recover, query_sessions. repeat hstep. Qed.

Hypothesis I_add_member : ∀ data, keeps I (handle_add_member_to_group data).
Hypothesis I_update_entity : ∀ data, keeps I (handle_update_entity data).
Hypothesis I_remove_entity : ∀ data, keeps I (handle_remove_entity data).

Lemma kept_serve (action : string) (data : Data.t) : keeps I (serve action data).
Proof.
  unfold serve, ACTION_HANDLERS. apply kept_guarded.
  repeat case_bool_decide;
    first [ apply keeps_ret
          | apply kept_start_ic | apply kept_start_request
          | apply kept_start_link | apply kept_start_group
          | apply kept_stop_session | apply kept_view_running_on
          | apply I_add_member | apply kept_remove_member
          | apply I_remove_entity | apply kept_remove_group | apply kept_redo
          | apply I_update_entity | apply kept_fail_on_target
          | apply kept_fail_all_running ].
Qed.

Lemma kept_run (action : string) (data : Data.t) (d : HealerDaemon) :
  I d → I (run action data d).2.
Proof.
  intros Hd. pose proof (kept_serve action data d Hd) as H. unfold run.
  by destruct (serve action data d) as [[reply|e] d'].
Qed.

End Preserved.

(** The steps of a handler, for an invariant that is [closed]. *)
Ltac cstep HI :=
  first
  [ apply (closed_commit _ HI) | apply (closed_rollback _ HI)
  | apply (kept_utcnow _ HI)
  | apply (closed_load_avatar _ HI) | apply (closed_load_ic _ HI)
  | apply (closed_load_request _ HI)
  | apply (kept_process_start _ HI) | apply (kept_pop_worker _ HI)
  | apply (kept_terminate _ HI) | apply (kept_register _ HI)
  | apply (kept_guarded _ HI) | apply (closed_add _ HI)
  | apply (closed_update _ HI); done
  | apply (closed_leave_avatar _ HI) | apply (closed_leave_ic _ HI)
  | apply (closed_leave_request _ HI)
  | apply (kept_spawn _ HI) | apply (kept_end_single _ HI)
  | apply (kept_end_time _ HI) | apply (kept_stop_all _ HI)
  | apply (kept_fail_all _ HI) | apply (kept_extend_parent _ HI)
  | apply keeps_gets
  | kstep ].

(** * Primary keys *)

Lemma keyed_map (st : Store) (n : Z) (g : Session.t → Session.t) :
  (∀ r, Session.id (g r) = Session.id r) →
  keyed st n → keyed (with_sessions (map g) st) n.
Proof.
  intros Hid [Hnd Hlt]. split; cbn.
  - rewrite map_map. erewrite map_ext; [exact Hnd|]. intros r. apply Hid.
  - intros r (x & -> & Hx)%list_elem_of_fmap. rewrite Hid. by apply Hlt.
Qed.

Lemma keyed_filter (st : Store) (n : Z) (p : Session.t → bool) :
  keyed st n → keyed (with_sessions (filter p) st) n.
Proof.
  intros [Hnd Hlt]. split; cbn.
  - eapply sublist_NoDup; [exact Hnd|]. apply (fmap_sublist Session.id).
    apply sublist_filter.
  - intros r [_ Hr]%list_elem_of_filter. by apply Hlt.
Qed.

Lemma keyed_sessions (st st' : Store) (n : Z) :
  sessions st' = sessions st → keyed st n → keyed st' n.
Proof. intros E. unfold keyed. by rewrite E. Qed.

Lemma keys_same (f : HealerDaemon → HealerDaemon) :
  (∀ d, sessions (db (f d)) = sessions (db d)) →
  (∀ d, sessions (saved (f d)) = sessions (saved d)) →
  (∀ d, next_session_id (f d) = next_session_id d) →
  keeps keys_sound (modify f).
Proof.
  intros E1 E2 E3. apply hoare_modify. intros d [H1 H2]. unfold keys_sound.
  rewrite E3. split; eapply keyed_sessions; eauto.
Qed.

Lemma keys_clear (g : Z) (col : Session.t → option Z)
    (clr : Session.t → Session.t) (f : Store → Store) :
  (∀ r, Session.id (clr r) = Session.id r) →
  (∀ st, sessions (f st) = map (λ r, if is_ (col r) g then clr r else r) (sessions st)) →
  keeps keys_sound (modify (with_db f)).
Proof.
  intros Hid E. apply hoare_modify. intros d [H1 H2]. split; [|done]. cbn.
  apply (keyed_sessions
           (with_sessions (map (λ r, if is_ (col r) g then clr r else r)) (db d))).
  - cbn. by rewrite E.
  - apply keyed_map; [|done]. intros r. by destruct (is_ (col r) g).
Qed.

Lemma keys_closed : closed keys_sound.
Proof.
  split.
  - intros d d' E1 E2 E3 _ _ _. unfold keys_sound. by rewrite E1, E2, E3.
  - apply hoare_modify. by intros d [H1 H2].
  - apply hoare_modify. by intros d [H1 H2].
  - intros s d [[Hnd Hlt] [Hnd' Hlt']]. cbn. split; split; cbn.
    + rewrite map_app. cbn. apply NoDup_app. split_and!; [done| |apply NoDup_singleton].
      intros i (x & -> & Hx)%list_elem_of_fmap Heq%list_elem_of_singleton.
      apply Hlt in Hx. lia.
    + intros r [Hr|Hr]%elem_of_app; [apply Hlt in Hr; lia|].
      apply list_elem_of_singleton in Hr as ->. cbn. lia.
    + done.
    + intros r Hr. apply Hlt' in Hr. lia.
  - intros j f Hid. apply hoare_modify. intros d [H1 H2]. split; [|done].
    cbn. apply (keyed_map _ _ (λ r, if bool_decide (Session.id r = j) then f r else r));
      [|done].
    intros r. by case_bool_decide.
  - intros k. unfold _load_avatar_to_cache. repeat kstep; try apply keeps_gets.
    by apply keys_same.
  - intros k. unfold _load_ic_to_cache. repeat kstep; try apply keeps_gets.
    by apply keys_same.
  - intros k. unfold _load_request_to_cache. repeat kstep; try apply keeps_gets.
    by apply keys_same.
  - intros p. by apply keys_same.
  - intros p. by apply keys_same.
  - intros p. by apply keys_same.
  - intros g.
    by eapply (keys_clear g Session.avatar_group_id (Session.set_avatar_group_id None)).
  - intros g.
    by eapply (keys_clear g Session.ic_group_id (Session.set_ic_group_id None)).
  - intros g.
    by eapply (keys_clear g Session.request_group_id
                 (Session.set_request_group_id None)).
Qed.

Lemma keys_add_member (data : Data.t) :
  keeps keys_sound (handle_add_member_to_group data).
Proof.
  unfold handle_add_member_to_group, add_member_ic, add_member_avatar,
    add_member_request, avatar_group_of, query_sessions.
  repeat first [by apply keys_same | cstep keys_closed].
Qed.

Lemma keys_update_entity (data : Data.t) :
  keeps keys_sound (handle_update_entity data).
Proof.
  unfold handle_update_entity, update_avatar, bytes_of_ints, query_sessions,
    _stop_single_session.
  repeat first [by apply keys_same | cstep keys_closed].
Qed.

Lemma keys_delete_avatar (a : Z) : keeps keys_sound (delete_avatar a).
Proof.
  apply hoare_modify. intros d [H1 H2]. split; [|done]. cbn.
  destruct H1 as [Hnd Hlt]. split; cbn.
  - eapply sublist_NoDup; [exact Hnd|]. apply (fmap_sublist Session.id).
    apply sublist_filter.
  - intros r [_ Hr]%list_elem_of_filter. by apply Hlt.
Qed.

Lemma keys_remove_entity (data : Data.t) :
  keeps keys_sound (handle_remove_entity data).
Proof.
  unfold handle_remove_entity.
  repeat first [apply keys_delete_avatar | by apply keys_same | cstep keys_closed].
Qed.

(** X8.  Primary keys stay sound under every command: if in both copies of
    the store the session ids are pairwise distinct and below the sequence,
    they are so after any command, whatever its name and arguments and
    whether it succeeds or fails. *)
Theorem session_keys_stay_sound (action : string) (data : Data.t)
    (d : HealerDaemon) :
  keys_sound d → keys_sound (run action data d).2.
Proof.
  apply kept_run; [apply keys_closed|..]; intros ?;
    [apply keys_add_member|apply keys_update_entity|apply keys_remove_entity].
Qed.

Lemma session_keys_stay_sound_witness :
  keys_sound (run "redo_failed" Data.empty Scenario.one_failed).2.
Proof.
  apply (session_keys_stay_sound "redo_failed" Data.empty Scenario.one_failed).
  split; apply keyed_list; vm_compute; reflexivity.
Defined.

(** * Foreign keys of the membership tables *)

Lemma members_exist_sub (st st' : Store) :
  avatars st' = avatars st →
  information_copies st' = information_copies st →
  requests st' = requests st →
  (∀ m, m ∈ avatar_group_members st' → m ∈ avatar_group_members st) →
  (∀ m, m ∈ ic_group_members st' → m ∈ ic_group_members st) →
  (∀ m, m ∈ request_group_members st' → m ∈ request_group_members st) →
  members_exist st → members_exist st'.
Proof.
  intros E1 E2 E3 S1 S2 S3 (H1 & H2 & H3). unfold members_exist.
  rewrite E1, E2, E3. split_and!; intros m Hm; auto.
Qed.

Lemma members_same (f : HealerDaemon → HealerDaemon) :
  (∀ d, db (f d) = db d) → (∀ d, saved (f d) = saved d) →
  keeps members_sound (modify f).
Proof.
  intros E1 E2. apply hoare_modify. intros d H. unfold members_sound.
  by rewrite E1, E2.
Qed.

Lemma members_db (f : Store → Store) :
  (∀ st, members_exist st → members_exist (f st)) →
  keeps members_sound (modify (with_db f)).
Proof. intros Hf. apply hoare_modify. intros d [H1 H2]. split; cbn; auto. Qed.

Lemma members_closed : closed members_sound.
Proof.
  split.
  - intros d d' E1 E2 _ _ _ _. unfold members_sound. by rewrite E1, E2.
  - apply hoare_modify. by intros d [H1 H2].
  - apply hoare_modify. by intros d [H1 H2].
  - intros s d [H1 H2]. by split.
  - intros j f _. by apply members_db.
  - intros k. unfold _load_avatar_to_cache. repeat kstep; try apply keeps_gets.
    by apply members_same.
  - intros k. unfold _load_ic_to_cache. repeat kstep; try apply keeps_gets.
    by apply members_same.
  - intros k. unfold _load_request_to_cache. repeat kstep; try apply keeps_gets.
    by apply members_same.
  - intros p. apply members_db. intros st. apply members_exist_sub; try done.
    cbn. by intros m [_ Hm]%list_elem_of_filter.
  - intros p. apply members_db. intros st. apply members_exist_sub; try done.
    cbn. by intros m [_ Hm]%list_elem_of_filter.
  - intros p. apply members_db. intros st. apply members_exist_sub; try done.
    cbn. by intros m [_ Hm]%list_elem_of_filter.
  - intros g. apply members_db. intros st. apply members_exist_sub; try done.
    cbn. by intros m [_ Hm]%list_elem_of_filter.
  - intros g. apply members_db. intros st. apply members_exist_sub; try done.
    cbn. by intros m [_ Hm]%list_elem_of_filter.
  - intros g. apply members_db. intros st. apply members_exist_sub; try done.
    cbn. by intros m [_ Hm]%list_elem_of_filter.
Qed.

(** A value read from the working copy, with what it was read from. *)
Lemma hoare_gets_eq {A} (P : HealerDaemon → Prop) (f : HealerDaemon → A)
    (E : HealerDaemon → Prop) :
  hoare P (gets f) (λ a d, P d ∧ a = f d) E.
Proof. by intros d Hd. Qed.

Lemma hoare_gets_keep {A} (P : HealerDaemon → Prop) (f : HealerDaemon → A)
    (E : HealerDaemon → Prop) :
  hoare P (gets f) (λ _, P) E.
Proof. by intros d Hd. Qed.

(** The member is added after its row was found. *)
Lemma members_add_member (data : Data.t) :
  keeps members_sound (handle_add_member_to_group data).
Proof.
  unfold handle_add_member_to_group.
  kstep; [kstep|]. kstep; [kstep|]. kstep; [kstep|].
  rename a into group_type, a0 into group_name, a1 into member_id.
  apply (kept_guarded _ members_closed).
  case_bool_decide; [|case_bool_decide; [|case_bool_decide; [|kstep]]].
  - unfold add_member_ic, ic_group_by_name, get_ic, ic_members.
    kstep; [kstep|]. destruct a as [group|]; [|kstep].
    eapply hoare_bind; [apply hoare_gets_eq|]. intros ic.
    destruct ic as [ic|]; [|apply hoare_ret; by intros ? []].
    eapply hoare_bind; [apply hoare_gets_keep|]. intros members.
    case_bool_decide; [apply hoare_ret; by intros ? []|].
    eapply hoare_bind with (R := λ _, members_sound).
    { apply hoare_modify. intros d [[Hdb Hsv] Hic]. split; [|done]. cbn in *.
      destruct Hdb as (Ha & Hi & Hr). split_and!; [done| |done]. cbn.
      intros m [Hm|Hm]%elem_of_app; [by apply Hi|].
      apply list_elem_of_singleton in Hm as ->. cbn.
      symmetry in Hic. apply elem_of_find in Hic as [Hic Hid].
      apply bool_decide_eq_true in Hid. by exists ic. }
    intros _. unfold avatar_group_of, query_sessions.
    match goal with |- hoare ?I ?m _ _ => change (keeps I m) end.
    repeat cstep members_closed.
  - unfold add_member_avatar, avatar_group_by_name, get_avatar, avatar_members.
    kstep; [kstep|]. destruct a as [group|]; [|kstep].
    eapply hoare_bind; [apply hoare_gets_eq|]. intros avatar.
    destruct avatar as [avatar|]; [|apply hoare_ret; by intros ? []].
    eapply hoare_bind; [apply hoare_gets_keep|]. intros members.
    case_bool_decide; [apply hoare_ret; by intros ? []|].
    eapply hoare_bind with (R := λ _, members_sound).
    { apply hoare_modify. intros d [[Hdb Hsv] Hic]. split; [|done]. cbn in *.
      destruct Hdb as (Ha & Hi & Hr). split_and!; [|done|done]. cbn.
      intros m [Hm|Hm]%elem_of_app; [by apply Ha|].
      apply list_elem_of_singleton in Hm as ->. cbn.
      symmetry in Hic. apply elem_of_find in Hic as [Hic Hid].
      apply bool_decide_eq_true in Hid. by exists avatar. }
    intros _. unfold query_sessions.
    match goal with |- hoare ?I ?m _ _ => change (keeps I m) end.
    repeat cstep members_closed.
  - unfold add_member_request, request_group_by_name, get_request, request_members.
    kstep; [kstep|]. destruct a as [group|]; [|kstep].
    eapply hoare_bind; [apply hoare_gets_eq|]. intros request.
    destruct request as [request|]; [|apply hoare_ret; by intros ? []].
    eapply hoare_bind; [apply hoare_gets_keep|]. intros members.
    case_bool_decide; [apply hoare_ret; by intros ? []|].
    eapply hoare_bind with (R := λ _, members_sound).
    { apply hoare_modify. intros d [[Hdb Hsv] Hic]. split; [|done]. cbn in *.
      destruct Hdb as (Ha & Hi & Hr). split_and!; [done|done|]. cbn.
      intros m [Hm|Hm]%elem_of_app; [by apply Hr|].
      apply list_elem_of_singleton in Hm as ->. cbn.
      symmetry in Hic. apply elem_of_find in Hic as [Hic Hid].
      apply bool_decide_eq_true in Hid. by exists request. }
    intros _. match goal with |- hoare ?I ?m _ _ => change (keeps I m) end.
    repeat cstep members_closed.
Qed.

Lemma members_update_avatar (i : Z) (f : Avatar.t → Avatar.t) :
  (∀ a, Avatar.id (f a) = Avatar.id a) →
  keeps members_sound (update_avatar i f).
Proof.
  intros Hid. apply members_db. intros st (Ha & Hi & Hr).
  split_and!; [|done|done]. cbn. intros m Hm.
  destruct (Ha m Hm) as (a & Hin & Hida).
  exists (if bool_decide (Avatar.id a = i) then f a else a). split.
  - apply list_elem_of_fmap. by exists a.
  - case_bool_decide; [by rewrite Hid|done].
Qed.

Lemma members_update_entity (data : Data.t) :
  keeps members_sound (handle_update_entity data).
Proof.
  unfold handle_update_entity, bytes_of_ints, query_sessions, _stop_single_session.
  repeat first [by apply members_update_avatar | by apply members_same
               | cstep members_closed].
Qed.

Lemma members_delete_avatar (a : Z) : keeps members_sound (delete_avatar a).
Proof.
  apply members_db. intros st (Ha & Hi & Hr). split_and!; [|done|done]. cbn.
  intros m [Hne Hm]%list_elem_of_filter.
  destruct (Ha m Hm) as (x & Hin & Hid). exists x. split; [|done].
  apply list_elem_of_filter. split; [|done].
  apply Is_true_true. apply Is_true_true in Hne.
  rewrite negb_true_iff, bool_decide_eq_false in *. congruence.
Qed.

Lemma members_remove_entity (data : Data.t) :
  keeps members_sound (handle_remove_entity data).
Proof.
  unfold handle_remove_entity.
  repeat first [apply members_delete_avatar | by apply members_same
               | cstep members_closed].
Qed.

(** X9.  The daemon never leaves a dangling membership: if every row of
    the three membership tables refers to an existing avatar, information
    copy or request (in both copies of the store), this is so after any
    command.  A member is added only after its row was found, and removing
    an avatar removes its memberships with it. *)
Theorem memberships_stay_sound (action : string) (data : Data.t)
    (d : HealerDaemon) :
  members_sound d → members_sound (run action data d).2.
Proof.
  apply kept_run; [apply members_closed|..]; intros ?;
    [apply members_add_member|apply members_update_entity
    |apply members_remove_entity].
Qed.

Lemma memberships_stay_sound_witness :
  members_sound
    (run "remove_entity" (cmd_entity "avatar" 1) Scenario.group_on_group).2.
Proof.
  apply (memberships_stay_sound "remove_entity" (cmd_entity "avatar" 1)
           Scenario.group_on_group).
  split; apply members_exist_list; vm_compute; reflexivity.
Defined.

(** * Coherence of the caches *)

Lemma coherent_same (f : HealerDaemon → HealerDaemon) :
  (∀ d, avatars (db (f d)) = avatars (db d)) →
  (∀ d, information_copies (db (f d)) = information_copies (db d)) →
  (∀ d, requests (db (f d)) = requests (db d)) →
  (∀ d, saved (f d) = saved d) →
  (∀ d, avatar_cache (f d) = avatar_cache d) →
  (∀ d, ic_cache (f d) = ic_cache d) →
  (∀ d, request_cache (f d) = request_cache d) →
  keeps caches_coherent (modify f).
Proof.
  intros E1 E2 E3 E4 E5 E6 E7. apply hoare_modify. intros d H.
  unfold caches_coherent, avatars_cached, fixed_cached in *.
  by rewrite E1, E2, E3, E4, E5, E6, E7.
Qed.

Lemma stale_same (i : Z) (f : HealerDaemon → HealerDaemon) :
  (∀ d, avatars (db (f d)) = avatars (db d)) →
  (∀ d, information_copies (db (f d)) = information_copies (db d)) →
  (∀ d, requests (db (f d)) = requests (db d)) →
  (∀ d, saved (f d) = saved d) →
  (∀ d, avatar_cache (f d) = avatar_cache d) →
  (∀ d, ic_cache (f d) = ic_cache d) →
  (∀ d, request_cache (f d) = request_cache d) →
  keeps (stale i) (modify f).
Proof.
  intros E1 E2 E3 E4 E5 E6 E7. apply hoare_modify. intros d H.
  unfold stale, avatars_cached, fixed_cached in *.
  by rewrite E1, E2, E3, E4, E5, E6, E7.
Qed.

Lemma coherent_closed : closed caches_coherent.
Proof.
  split.
  - intros d d' E1 E2 _ E4 E5 E6.
    unfold caches_coherent, avatars_cached, fixed_cached.
    by rewrite E1, E2, E4, E5, E6.
  - apply hoare_modify. intros d (H1 & H2 & H3 & H4 & H5).
    by split_and!.
  - apply hoare_modify. intros d (H1 & H2 & H3 & H4 & H5 & H6).
    unfold caches_coherent, avatars_cached, fixed_cached. cbn.
    rewrite H1, H3, H4. by split_and!.
  - intros s d H. exact H.
  - intros j f _. by apply coherent_same.
  - intros k. unfold _load_avatar_to_cache, get_avatar.
    kstep; [kstep|]. destruct (k ≫= _); [kstep|].
    eapply hoare_bind; [apply hoare_gets_eq|]. intros avatar.
    destruct avatar as [row|], k as [k|];
      try (apply hoare_raise; by intros ? []).
    eapply hoare_bind with (R := λ _, caches_coherent); [|intros ?; apply keeps_ret].
    apply hoare_modify.
    intros d [(H1 & H2 & H3) Ha]. split_and!; [done| |done]. cbn in *.
    intros k' b _ Hb. cbn in Hb. destruct (decide (k' = k)) as [->|Hne].
    + rewrite lookup_insert_eq in Hb. injection Hb as <-. by exists row.
    + rewrite lookup_insert_ne in Hb by done. by apply H2.
  - intros k. unfold _load_ic_to_cache, get_ic.
    kstep; [kstep|]. destruct (k ≫= _); [kstep|].
    eapply hoare_bind; [apply hoare_gets_eq|]. intros ic.
    destruct ic as [row|], k as [k|];
      try (apply hoare_raise; by intros ? []).
    eapply hoare_bind with (R := λ _, caches_coherent); [|intros ?; apply keeps_ret].
    apply hoare_modify.
    intros d [(H1 & H2 & H3 & H4 & H5 & H6) Ha].
    split_and!; [exact H1|exact H2|]. split_and!; [exact H3|exact H4| |exact H6].
    cbn in *.
    intros k' b Hb. cbn in Hb. destruct (decide (k' = k)) as [->|Hne].
    + rewrite lookup_insert_eq in Hb. injection Hb as <-. by exists row.
    + rewrite lookup_insert_ne in Hb by done. by apply H5.
  - intros k. unfold _load_request_to_cache, get_request.
    kstep; [kstep|]. destruct (k ≫= _); [kstep|].
    eapply hoare_bind; [apply hoare_gets_eq|]. intros request.
    destruct request as [row|], k as [k|];
      try (apply hoare_raise; by intros ? []).
    eapply hoare_bind with (R := λ _, caches_coherent); [|intros ?; apply keeps_ret].
    apply hoare_modify.
    intros d [(H1 & H2 & H3 & H4 & H5 & H6) Ha].
    split_and!; [exact H1|exact H2|]. split_and!; [exact H3|exact H4|exact H5|].
    cbn in *.
    intros k' b Hb. cbn in Hb. destruct (decide (k' = k)) as [->|Hne].
    + rewrite lookup_insert_eq in Hb. injection Hb as <-. by exists row.
    + rewrite lookup_insert_ne in Hb by done. by apply H6.
  - intros p. by apply coherent_same.
  - intros p. by apply coherent_same.
  - intros p. by apply coherent_same.
  - intros g. by apply coherent_same.
  - intros g. by apply coherent_same.
  - intros g. by apply coherent_same.
Qed.

Lemma coherent_add_member (data : Data.t) :
  keeps caches_coherent (handle_add_member_to_group data).
Proof.
  unfold handle_add_member_to_group, add_member_ic, add_member_avatar,
    add_member_request, avatar_group_of, query_sessions.
  repeat first [by apply coherent_same | cstep coherent_closed].
Qed.

Lemma find_map_other {A} (key : A → Z) (g : A → A) (i k : Z) (l : list A) :
  (∀ a, key (g a) = key a) → k ≠ i →
  find (λ r, bool_decide (key r = k))
       (map (λ r, if bool_decide (key r = i) then g r else r) l)
  = find (λ r, bool_decide (key r = k)) l.
Proof.
  intros Hg Hne. induction l as [|x l IH]; [done|]. cbn.
  destruct (decide (key x = i)) as [Hi|Hi].
  - rewrite (bool_decide_true (key x = i)) by done. rewrite Hg.
    rewrite !(bool_decide_false (key x = k)) by congruence. exact IH.
  - rewrite (bool_decide_false (key x = i)) by done. by rewrite IH.
Qed.

Lemma find_filter_other {A} (key : A → Z) (i k : Z) (l : list A) :
  k ≠ i →
  find (λ r, bool_decide (key r = k))
       (filter (λ r, negb (bool_decide (key r = i))) l)
  = find (λ r, bool_decide (key r = k)) l.
Proof.
  intros Hne. induction l as [|x l IH]; [done|].
  rewrite filter_cons. destruct (decide _) as [H|H]; cbn.
  - by rewrite IH.
  - rewrite IH. destruct (decide (key x = i)) as [Hi|Hi].
    + by rewrite (bool_decide_false (key x = k)) by congruence.
    + exfalso. apply H. by rewrite bool_decide_false.
Qed.

Lemma stale_update_avatar (i : Z) (f : Avatar.t → Avatar.t) :
  (∀ a, Avatar.id (f a) = Avatar.id a) →
  total (stale i) (update_avatar i f).
Proof.
  intros Hid. apply hoare_modify. intros d [H1 H2]. split; [|done].
  intros k b Hne Hb. cbn. rewrite (find_map_other Avatar.id) by congruence.
  by apply H1.
Qed.

Lemma coherent_stale (i : Z) (d : HealerDaemon) : caches_coherent d → stale i d.
Proof.
  intros (H1 & H2 & H3). split; [|done]. intros k b _. by apply H2.
Qed.

(** Evicting the entry and committing, in either order, ends the
    rewriting. *)
Lemma stale_evict (i : Z) :
  hoare (stale i) (modify (with_avatar_cache (delete i)))
        (λ _, avatars_cached None) (λ _, False)
  ∧ hoare (stale i) (modify (with_avatar_cache (delete i)))
          (λ _, fixed_cached) (λ _, False).
Proof.
  split; apply hoare_modify; intros d [H1 H2]; [|exact H2].
  intros k b _ Hb. cbn in *. destruct (decide (k = i)) as [->|Hne].
  - by rewrite lookup_delete_eq in Hb.
  - rewrite lookup_delete_ne in Hb by done. apply H1; [congruence|done].
Qed.

Lemma evicted_commit :
  hoare (λ d, avatars_cached None d ∧ fixed_cached d) commit
        (λ _, caches_coherent) (λ _, False).
Proof.
  apply hoare_modify. intros d (H1 & H2 & H3 & H4 & H5). by split_and!.
Qed.

Lemma stale_commit (i : Z) :
  hoare (stale i) commit
        (λ _ d, avatars (saved d) = avatars (db d) ∧ stale i d) (λ _, False).
Proof.
  apply hoare_modify. intros d (H1 & H2 & H3 & H4 & H5). by split_and!.
Qed.

Lemma committed_evict (i : Z) :
  hoare (λ d, avatars (saved d) = avatars (db d) ∧ stale i d)
        (modify (with_avatar_cache (delete i)))
        (λ _, caches_coherent) (λ _, False).
Proof.
  apply hoare_modify. intros d (H0 & H1 & H2). split_and!; [done| |done].
  intros k b _ Hb. cbn in *. destruct (decide (k = i)) as [->|Hne].
  - by rewrite lookup_delete_eq in Hb.
  - rewrite lookup_delete_ne in Hb by done. apply H1; [congruence|done].
Qed.

Lemma coherent_update_entity (data : Data.t) :
  keeps caches_coherent (handle_update_entity data).
Proof.
  unfold handle_update_entity.
  kstep; [kstep|]. kstep; [kstep|]. rename a into entity_type, a0 into entity_id.
  apply (kept_guarded _ coherent_closed).
  case_bool_decide; [|kstep]. unfold get_avatar.
  eapply hoare_bind; [apply hoare_gets_eq|]. intros avatar.
  destruct avatar as [avatar|]; [|apply hoare_ret; by intros ? []].
  apply hoare_conseq with (P' := λ d, Avatar.id avatar = entity_id ∧ caches_coherent d)
    (Q' := λ _, caches_coherent) (E' := caches_coherent); [| |done..].
  2: { intros d [Hd Ha]. split; [|done]. symmetry in Ha. cbn in Ha.
       apply elem_of_find in Ha as [_ Ha]. by apply bool_decide_eq_true in Ha. }
  apply hoare_pure. intros <-.
  (* the photo: the only step of the rewriting that can raise *)
  eapply hoare_bind with (R := λ _, stale (Avatar.id avatar)).
  { intros d Hd. destruct (Data.photo_data_b64 data) as [ints|]; cbn.
    - unfold bytes_of_ints, mbind, M_bind. destruct (mapM _ ints) as [b|]; cbn.
      + exact (stale_update_avatar (Avatar.id avatar) (set_photo_data b)
                 (λ _, eq_refl) d (coherent_stale _ d Hd)).
      + exact Hd.
    - by apply coherent_stale. }
  intros _.
  eapply hoare_bind with (R := λ _, stale (Avatar.id avatar)).
  { apply no_raise. destruct (Data.info_data data) as [text|].
    - by apply (stale_update_avatar (Avatar.id avatar) (set_info_data text)).
    - by apply hoare_ret. }
  intros _.
  eapply hoare_bind with (R := λ _ d, avatars_cached None d ∧ fixed_cached d).
  { apply no_raise. apply hoare_modify. intros d Hd.
    destruct (stale_evict (Avatar.id avatar)) as [H1 H2].
    split; [apply (H1 d Hd)|apply (H2 d Hd)]. }
  intros _.
  eapply hoare_bind; [apply no_raise, evicted_commit|]. intros ?.
  unfold query_sessions, _stop_single_session.
  match goal with |- hoare ?I ?m _ _ => change (keeps I m) end.
  repeat cstep coherent_closed.
Qed.

Lemma coherent_delete_avatar (a : Z) :
  hoare caches_coherent (delete_avatar a) (λ _, stale a) (λ _, False).
Proof.
  apply hoare_modify. intros d (H1 & H2 & H3). split; [|done].
  intros k b Hne Hb. cbn. rewrite (find_filter_other Avatar.id) by congruence.
  by apply H2.
Qed.

Lemma coherent_remove_entity (data : Data.t) :
  keeps caches_coherent (handle_remove_entity data).
Proof.
  unfold handle_remove_entity.
  kstep; [kstep|]. kstep; [kstep|]. rename a into entity_type, a0 into entity_id.
  apply (kept_guarded _ coherent_closed).
  case_bool_decide; [|unfold get_ic, get_request; repeat kstep].
  unfold get_avatar.
  eapply hoare_bind; [apply hoare_gets_eq|]. intros entity.
  destruct entity as [entity|]; [|apply hoare_ret; by intros ? []].
  apply hoare_conseq with (P' := λ d, Avatar.id entity = entity_id ∧ caches_coherent d)
    (Q' := λ _, caches_coherent) (E' := caches_coherent); [| |done..].
  2: { intros d [Hd Ha]. split; [|done]. symmetry in Ha. cbn in Ha.
       apply elem_of_find in Ha as [_ Ha]. by apply bool_decide_eq_true in Ha. }
  apply hoare_pure. intros <-.
  match goal with |- hoare ?I ?m _ _ => change (keeps I m) end.
  kstep; [kstep|]. kstep; [kstep|]. kstep; [apply (kept_stop_all _ coherent_closed)|].
  eapply hoare_bind; [apply no_raise, coherent_delete_avatar|]. intros ?.
  eapply hoare_bind; [apply no_raise, stale_commit|]. intros ?.
  eapply hoare_bind; [apply no_raise, committed_evict|]. intros ?.
  apply keeps_ret.
Qed.

(** X10.  The caches stay coherent under every command: if the two copies
    of the store agree on avatars, information copies and requests, and
    every cached payload is the payload of its row as the database has it,
    this is so after any command.  [update_entity] and [remove_entity] evict
    the entry of the avatar they rewrite or delete, and a worker restarted
    after an update is given the new payload. *)
Theorem caches_stay_coherent (action : string) (data : Data.t)
    (d : HealerDaemon) :
  caches_coherent d → caches_coherent (run action data d).2.
Proof.
  apply kept_run; [apply coherent_closed|..]; intros ?;
    [apply coherent_add_member|apply coherent_update_entity
    |apply coherent_remove_entity].
Qed.

Lemma caches_coherent_empty (st : Store) : caches_coherent (Scenario.boot st).
Proof. by repeat split. Qed.

Lemma caches_stay_coherent_witness :
  caches_coherent
    (run "start_ic" (cmd_start_ic (Some 1) None 7 None) Scenario.fresh).2.
Proof.
  apply (caches_stay_coherent "start_ic" (cmd_start_ic (Some 1) None 7 None)
           Scenario.fresh).
  apply caches_coherent_empty.
Defined.

(** * Nothing is left pending *)

Section Clean.
Context {A B : Type}.

Lemma leaves_clean_ret (a : A) : leaves_clean (mret a).
Proof. by intros d Hd. Qed.

Lemma leaves_clean_raise (e : string) : leaves_clean (raise e : M A).
Proof. by intros d Hd. Qed.

Lemma leaves_clean_gets (f : HealerDaemon → A) : leaves_clean (gets f).
Proof. by intros d Hd. Qed.

Lemma ends_leaves (m : M A) : ends_clean m → leaves_clean m.
Proof. intros H d _. by apply H. Qed.

Lemma leaves_clean_bind (m : M A) (f : A → M B) :
  leaves_clean m → (∀ a, leaves_clean (f a)) → leaves_clean (m ≫= f).
Proof. intros Hm Hf. eapply hoare_bind; [exact Hm|exact Hf]. Qed.

(** After a write, what follows has to commit. *)
Lemma leaves_clean_dirty (m : M A) (f : A → M B) :
  (∀ a, ends_clean (f a)) → leaves_clean (m ≫= f).
Proof.
  intros Hf d _. unfold mbind, M_bind. destruct (m d) as [[a|e] d']; [|done].
  by apply Hf.
Qed.

Lemma ends_clean_first (m : M A) (f : A → M B) :
  ends_clean m → (∀ a, leaves_clean (f a)) → ends_clean (m ≫= f).
Proof. intros Hm Hf. eapply hoare_bind; [exact Hm|exact Hf]. Qed.

Lemma ends_clean_later (m : M A) (f : A → M B) :
  (∀ a, ends_clean (f a)) → ends_clean (m ≫= f).
Proof.
  intros Hf d _. unfold mbind, M_bind. destruct (m d) as [[a|e] d']; [|done].
  by apply Hf.
Qed.

Lemma leaves_clean_try (m : M A) (h : string → M A) :
  leaves_clean m → (∀ e, ends_clean (h e)) → leaves_clean (try_except m h).
Proof. intros Hm Hh. eapply hoare_try; [exact Hm|exact Hh]. Qed.

Lemma leaves_clean_reads (m : M A) : reads_only m → leaves_clean m.
Proof.
  intros Hm d Hd. specialize (Hm d). destruct (m d) as [[a|e] d']; [|done].
  cbn in Hm. by subst.
Qed.

End Clean.

Lemma ends_clean_commit : ends_clean commit.
Proof. by intros d _. Qed.

Lemma ends_clean_rollback : ends_clean rollback.
Proof. by intros d _. Qed.

Lemma leaves_clean_env {A} (m : M A) :
  (∀ d, db (m d).2 = db d ∧ saved (m d).2 = saved d) → leaves_clean m.
Proof.
  intros Hm d Hd. destruct (Hm d) as [E1 E2].
  destruct (m d) as [[a|e] d']; [|done]. cbn in *. unfold clean. congruence.
Qed.

Lemma leaves_clean_for_acc {A B} (xs : list A) (acc : B) (body : A → B → M B) :
  (∀ x acc, leaves_clean (body x acc)) → leaves_clean (for_acc xs acc body).
Proof.
  intros H. revert acc. induction xs as [|x xs IH]; intros acc; cbn.
  - apply leaves_clean_ret.
  - apply leaves_clean_bind; [apply H|]. intros a. apply IH.
Qed.

Lemma leaves_clean_for_each {A} (xs : list A) (body : A → M unit) :
  (∀ x, leaves_clean (body x)) → leaves_clean (for_each xs body).
Proof.
  intros H. induction xs as [|x xs IH]; cbn.
  - apply leaves_clean_ret.
  - apply leaves_clean_bind; [apply H|]. intros a. apply IH.
Qed.

Lemma leaves_clean_index {A} (key : string) (v : option A) :
  leaves_clean (index key v).
Proof. destruct v; [apply leaves_clean_ret|apply leaves_clean_raise]. Qed.

Lemma leaves_clean_attr {A B} (name : string) (f : A → B) (obj : option A) :
  leaves_clean (attr name f obj).
Proof. destruct obj; [apply leaves_clean_ret|apply leaves_clean_raise]. Qed.

Create HintDb clean.

Ltac clean_env := apply leaves_clean_env; intros ?; by cbn.

(** [leaves] and [ends] follow the structure of a handler: a step that
    keeps the unit of work clean is passed, and after a step that does not,
    the rest has to end with a commit. *)
Ltac leaves :=
  lazymatch goal with
  | |- leaves_clean (mret _) => apply leaves_clean_ret
  | |- leaves_clean (raise _) => apply leaves_clean_raise
  | |- leaves_clean (gets _) => apply leaves_clean_gets
  | |- leaves_clean (index _ _) => apply leaves_clean_index
  | |- leaves_clean (attr _ _ _) => apply leaves_clean_attr
  | |- leaves_clean commit => apply ends_leaves, ends_clean_commit
  | |- leaves_clean rollback => apply ends_leaves, ends_clean_rollback
  | |- leaves_clean utcnow => clean_env
  | |- leaves_clean process_start => clean_env
  | |- leaves_clean (pop_worker _) => clean_env
  | |- leaves_clean (terminate ?p) => destruct p; clean_env
  | |- leaves_clean (modify (with_avatar_cache _)) => clean_env
  | |- leaves_clean (modify (with_ic_cache _)) => clean_env
  | |- leaves_clean (modify (with_request_cache _)) => clean_env
  | |- leaves_clean (modify (with_active_workers _)) => clean_env
  | |- leaves_clean (mbind _ _) =>
      first [ apply leaves_clean_bind; [solve [leaves] | intros ?; leaves]
            | apply leaves_clean_dirty; intros ?; ends ]
  | |- leaves_clean (try_except _ _) =>
      apply leaves_clean_try; [leaves | intros ?; ends]
  | |- leaves_clean (guarded _) =>
      apply leaves_clean_try; [leaves | intros ?; ends]
  | |- leaves_clean (for_acc _ _ _) => apply leaves_clean_for_acc; intros ? ?; leaves
  | |- leaves_clean (for_each _ _) => apply leaves_clean_for_each; intros ?; leaves
  | |- leaves_clean (let _ := _ in _) => cbv zeta; leaves
  | |- leaves_clean (match ?x with _ => _ end) => destruct x; leaves
  | |- leaves_clean (if ?b then _ else _) => destruct b; leaves
  | |- leaves_clean _ => first [ solve [auto with clean] | apply leaves_clean_gets ]
  end
with ends :=
  lazymatch goal with
  | |- ends_clean commit => apply ends_clean_commit
  | |- ends_clean rollback => apply ends_clean_rollback
  | |- ends_clean (mbind _ _) =>
      first [ apply ends_clean_first; [solve [ends] | intros ?; leaves]
            | apply ends_clean_later; intros ?; ends ]
  | |- ends_clean (let _ := _ in _) => cbv zeta; ends
  | |- ends_clean (match ?x with _ => _ end) => destruct x; ends
  | |- ends_clean (if ?b then _ else _) => destruct b; ends
  end.

Lemma clean_load_avatar (k : option Z) : leaves_clean (_load_avatar_to_cache k).
Proof. unfold _load_avatar_to_cache. leaves. Qed.

Lemma clean_load_ic (k : option Z) : leaves_clean (_load_ic_to_cache k).
Proof. unfold _load_ic_to_cache. leaves. Qed.

Lemma clean_load_request (k : option Z) : leaves_clean (_load_request_to_cache k).
Proof. unfold _load_request_to_cache. leaves. Qed.

#[export] Hint Resolve clean_load_avatar clean_load_ic clean_load_request : clean.

Lemma clean_spawn (s : Session.t) : leaves_clean (_spawn_worker_for_session s).
Proof. unfold _spawn_worker_for_session. leaves. Qed.

Lemma clean_end_single (final : SessionStatus.t) (j : option Z) :
  leaves_clean (end_single_session final j).
Proof. unfold end_single_session. leaves. Qed.

Lemma clean_end_time (data : Data.t) : leaves_clean (end_time_from data).
Proof. unfold end_time_from, timedelta_minutes, datetime_add. leaves. Qed.

Lemma clean_targets_avatar (a : option Z) (g : option string) :
  leaves_clean (_get_target_avatar_ids a g).
Proof. apply leaves_clean_reads. intros d. apply targets_avatar_read. Qed.

Lemma clean_targets_request (a : option Z) (g : option string) :
  leaves_clean (_get_target_request_ids a g).
Proof. apply leaves_clean_reads. intros d. apply targets_request_read. Qed.

#[export] Hint Resolve clean_spawn clean_end_single clean_end_time
  clean_targets_avatar clean_targets_request : clean.

Lemma clean_stop_single (j : option Z) : leaves_clean (_stop_single_session j).
Proof. apply clean_end_single. Qed.

Lemma clean_fail_single (j : option Z) : leaves_clean (_fail_single_session j).
Proof. apply clean_end_single. Qed.

#[export] Hint Resolve clean_stop_single clean_fail_single : clean.

Lemma clean_stop_all (l : list Session.t) : leaves_clean (stop_all l).
Proof. unfold stop_all. leaves. Qed.

Lemma clean_fail_all (l : list Session.t) : leaves_clean (fail_all l).
Proof. unfold fail_all. leaves. Qed.

Lemma clean_extend_parent (a : Avatar.t) (p : Session.t) (n : Z) :
  leaves_clean (extend_parent a p n).
Proof. unfold extend_parent. leaves. Qed.

#[export] Hint Resolve clean_stop_all clean_fail_all clean_extend_parent : clean.

Lemma clean_start_ic (data : Data.t) : leaves_clean (handle_start_ic data).
Proof. unfold handle_start_ic. leaves. Qed.

Lemma clean_start_request (data : Data.t) : leaves_clean (handle_start_request data).
Proof. unfold handle_start_request, start_request_parent. leaves. Qed.

Lemma clean_start_link (data : Data.t) : leaves_clean (handle_start_link data).
Proof. unfold handle_start_link. leaves. Qed.

Lemma clean_start_group (data : Data.t) : leaves_clean (handle_start_group data).
Proof. unfold handle_start_group. leaves. Qed.

Lemma clean_stop_session (data : Data.t) : leaves_clean (handle_stop_session data).
Proof. unfold handle_stop_session, is_running. leaves. Qed.

Lemma clean_update_entity (data : Data.t) : leaves_clean (handle_update_entity data).
Proof. unfold handle_update_entity. leaves. Qed.

Lemma clean_view_running_on (data : Data.t) :
  leaves_clean (handle_view_running_on data).
Proof. apply leaves_clean_reads, view_reads_only. Qed.

Lemma clean_add_member (data : Data.t) :
  leaves_clean (handle_add_member_to_group data).
Proof.
  unfold handle_add_member_to_group, add_member_ic, add_member_avatar,
    add_member_request.
  leaves.
Qed.

Lemma clean_remove_member (data : Data.t) :
  leaves_clean (handle_remove_member_from_group data).
Proof. unfold handle_remove_member_from_group. leaves. Qed.

Lemma clean_remove_entity (data : Data.t) : leaves_clean (handle_remove_entity data).
Proof. unfold handle_remove_entity. leaves. Qed.

Lemma clean_remove_group (data : Data.t) : leaves_clean (handle_remove_group data).
Proof. unfold handle_remove_group. leaves. Qed.

Lemma clean_fail_all_running (data : Data.t) :
  leaves_clean (handle_fail_all_running_sessions data).
Proof. unfold handle_fail_all_running_sessions. leaves. Qed.

Lemma clean_redo (data : Data.t) : leaves_clean (handle_redo_failed_sessions data).
Proof. unfold handle_redo_failed_sessions. leaves. Qed.

Lemma clean_dispatch (action : string) (data : Data.t) :
  action ≠ "fail_sessions_on_target" →
  leaves_clean (match ACTION_HANDLERS action with
                | Some handler => handler data
                | None => mret (error ("Unknown command: " +:+ action))
                end).
Proof.
  intros Hne. unfold ACTION_HANDLERS.
  repeat case_bool_decide;
    first [ done
          | apply leaves_clean_ret
          | apply clean_start_ic | apply clean_start_request
          | apply clean_start_link | apply clean_start_group
          | apply clean_stop_session | apply clean_view_running_on
          | apply clean_add_member | apply clean_remove_member
          | apply clean_remove_entity | apply clean_remove_group
          | apply clean_redo | apply clean_update_entity
          | apply clean_fail_all_running ].
Qed.

(** X11.  Commands leave nothing pending.  If the unit of work is clean
    when a command arrives (the working copy is the committed one), it is
    clean when the command has been answered: on every path the last write
    of a handler is followed by a commit, and a failure is rolled back.
    The one exception is [fail_sessions_on_target], which can return
    between a write and the commit. *)
Theorem commands_leave_nothing_pending (action : string) (data : Data.t)
    (d : HealerDaemon) :
  action ≠ "fail_sessions_on_target" →
  clean d → clean (run action data d).2.
Proof.
  intros Hne Hd. pose proof (clean_dispatch action data Hne d Hd) as H.
  unfold run, serve, guarded, try_except.
  destruct (match ACTION_HANDLERS action with
            | Some handler => handler data
            | None => mret (error ("Unknown command: " +:+ action))
            end d) as [[reply|e] d']; [exact H|done].
Qed.

(** The exception is a real one: with the parent 1 on group G stopped and
    no child RUNNING, [fail_sessions_on_target] on G marks the parent FAILED
    in the working copy and returns before the commit. *)
Lemma fail_on_target_can_leave_a_write_pending :
  let d1 := (run "start_ic" (cmd_start_ic None (Some "G") 7 None) Scenario.fresh).2 in
  let d2 := (run "stop_session" (cmd_stop_session 1) d1).2 in
  let out := run "fail_sessions_on_target" (cmd_fail None (Some "G")) d2 in
  clean d2
  ∧ out.1 = success "No running sessions found for group 'G'."
  ∧ status_of 1 (db out.2) = Some SessionStatus.FAILED
  ∧ status_of 1 (saved out.2) = Some SessionStatus.STOPPED.
Proof. vm_compute. split_and!; reflexivity. Qed.

Lemma commands_leave_nothing_pending_witness :
  clean (run "stop_session" (cmd_stop_session 1) Scenario.group_on_group).2.
Proof.
  apply (commands_leave_nothing_pending "stop_session" (cmd_stop_session 1)
           Scenario.group_on_group).
  - discriminate.
  - vm_compute; reflexivity.
Defined.

(** * Ending sessions in bulk *)

Lemma hoare_for_acc_prefix {A S} (Inv : list A → HealerDaemon → Prop)
    (E : HealerDaemon → Prop) (xs : list A) (acc : S) (body : A → S → M S) :
  (∀ pre x acc, x ∈ xs → hoare (Inv pre) (body x acc) (λ _, Inv (pre ++ [x])) E) →
  hoare (Inv []) (for_acc xs acc body) (λ _, Inv xs) E.
Proof.
  intros Hbody.
  assert (∀ pre acc, hoare (Inv pre) (for_acc xs acc body) (λ _, Inv (pre ++ xs)) E)
    as H; [|apply (H [])].
  clear acc. induction xs as [|x xs IH]; intros pre acc; simpl.
  - apply hoare_ret. intros d Hd. by rewrite app_nil_r.
  - eapply hoare_bind; [apply Hbody; left|]. intros ?.
    rewrite (cons_middle x pre xs), app_assoc. apply IH.
    intros. apply Hbody. by right.
Qed.

Lemma find_map_key {A} (key : A → Z) (g : A → A) (i : Z) (l : list A) :
  (∀ a, key (g a) = key a) →
  find (λ r, bool_decide (key r = i)) (map g l)
  = g <$> find (λ r, bool_decide (key r = i)) l.
Proof.
  intros Hg. induction l as [|x l IH]; [done|]. cbn. rewrite Hg.
  by case_bool_decide.
Qed.

Lemma end_running_id (final : SessionStatus.t) (r : Session.t) :
  Session.id (end_running final r) = Session.id r.
Proof. unfold end_running. by case_bool_decide. Qed.

Lemma end_running_status (final : SessionStatus.t) (r : Session.t) :
  final ≠ SessionStatus.RUNNING →
  Session.status (end_running final r) ≠ SessionStatus.RUNNING.
Proof. intros Hf. unfold end_running. by case_bool_decide. Qed.

Lemma ended_nil (final : SessionStatus.t) (l : list Session.t) :
  ended final [] l = l.
Proof.
  unfold ended. rewrite <- (map_id l) at 2. apply map_ext. intros r.
  rewrite bool_decide_false; [done|]. apply not_elem_of_nil.
Qed.

(** One more key that changes nothing: its row is not RUNNING, or the key
    was there already. *)
Lemma ended_snoc_same (final : SessionStatus.t) (ids : list Z) (i : Z)
    (l : list Session.t) :
  (∀ r, r ∈ l → Session.id r = i →
        i ∈ ids ∨ Session.status r ≠ SessionStatus.RUNNING) →
  ended final (ids ++ [i]) l = ended final ids l.
Proof.
  intros H. unfold ended. apply map_ext_in. intros r Hr%list_elem_of_In.
  destruct (decide (Session.id r = i)) as [Hi|Hi].
  - destruct (H r Hr Hi) as [Hin|Hst].
    + rewrite !bool_decide_true; [done|by rewrite Hi|].
      apply elem_of_app. left. by rewrite Hi.
    + unfold end_running. rewrite (bool_decide_false _ Hst).
      by repeat case_bool_decide.
  - assert (Session.id r ∈ ids ++ [i] ↔ Session.id r ∈ ids) as Hiff.
    { rewrite elem_of_app, list_elem_of_singleton. tauto. }
    by rewrite (bool_decide_ext _ _ Hiff).
Qed.

(** One more key whose row is RUNNING and was not ended yet. *)
Lemma ended_snoc_new (final : SessionStatus.t) (ids : list Z) (i : Z)
    (l : list Session.t) :
  i ∉ ids →
  (∀ r, r ∈ l → Session.id r = i → Session.status r = SessionStatus.RUNNING) →
  rewritten i (λ r, Session.set_worker_pid None (Session.set_status final r))
    (ended final ids l)
  = ended final (ids ++ [i]) l.
Proof.
  intros Hnew H. unfold rewritten, ended. rewrite map_map.
  apply map_ext_in. intros r Hr%list_elem_of_In.
  destruct (decide (Session.id r = i)) as [Hi|Hi].
  - rewrite (bool_decide_false (Session.id r ∈ ids)) by (by rewrite Hi).
    rewrite (bool_decide_true (Session.id r = i)) by done.
    rewrite (bool_decide_true (Session.id r ∈ ids ++ [i])).
    2: { apply elem_of_app. right. by apply list_elem_of_singleton. }
    unfold end_running. by rewrite (bool_decide_true _ (H r Hr Hi)).
  - assert (Session.id r ∈ ids ++ [i] ↔ Session.id r ∈ ids) as Hiff.
    { rewrite elem_of_app, list_elem_of_singleton. tauto. }
    rewrite (bool_decide_ext _ _ Hiff).
    destruct (bool_decide (Session.id r ∈ ids)); rewrite ?end_running_id;
      by rewrite (bool_decide_false (Session.id r = i)).
Qed.

Section Ending.
Variable final : SessionStatus.t.
Variable d0 : HealerDaemon.
Variable n : Z.
Hypothesis final_ends : final ≠ SessionStatus.RUNNING.
Hypothesis keys : keyed (db d0) n.

Lemma row_unique (i : Z) (r0 r : Session.t) :
  row i (db d0) = Some r0 → r ∈ sessions (db d0) → Session.id r = i → r = r0.
Proof.
  intros [Hin Hid]%elem_of_find Hr Hi. apply bool_decide_eq_true in Hid.
  eapply keyed_unique; [exact keys|done|done|congruence].
Qed.

Lemma row_none (i : Z) (r : Session.t) :
  row i (db d0) = None → r ∈ sessions (db d0) → Session.id r ≠ i.
Proof.
  intros Hnone Hr%list_elem_of_In Hi. eapply find_none in Hnone; [|exact Hr].
  by rewrite bool_decide_eq_false in Hnone.
Qed.

(** One turn of the loops of [stop_all] and [fail_all]. *)
Lemma ended_step (ids : list Z) (i : Z) :
  hoare (ended_from final d0 ids) (end_single_session final (Some i))
        (λ _, ended_from final d0 (ids ++ [i])) (λ _, False).
Proof.
  intros d (Hclean & Honly & Htbl & Hend & Hrest).
  unfold end_single_session, get_session, gets.
  unfold mbind at 1, M_bind at 1. cbn [mbind option_bind].
  rewrite Htbl. unfold ended at 1.
  rewrite (find_map_key Session.id); [|intros a; case_bool_decide;
                                       [apply end_running_id|done]].
  fold (row i (db d0)).
  assert (∀ j, j ∈ ids ++ [i] ↔ j ∈ ids ∨ j = i) as Hsnoc.
  { intros j. by rewrite elem_of_app, list_elem_of_singleton. }
  (* the two ways in which nothing happens *)
  assert ((∀ r, r ∈ sessions (db d0) → Session.id r = i →
                i ∈ ids ∨ Session.status r ≠ SessionStatus.RUNNING) →
          ended_from final d0 (ids ++ [i]) d) as Hsame.
  { intros Hno. split_and!; [done|done| | |].
    - by rewrite ended_snoc_same.
    - intros j [Hj| ->]%Hsnoc Hrun; [by apply Hend|].
      destruct (row i (db d0)) as [r0|] eqn:Hrow; [|done].
      injection Hrun as Hrun. pose proof Hrow as [Hin Hid]%elem_of_find.
      apply bool_decide_eq_true in Hid.
      destruct (Hno r0 Hin Hid) as [Hi|Hst]; [|done].
      apply Hend; [done|]. by rewrite Hrow; cbn; rewrite Hrun.
    - intros j Hj. apply Hrest. rewrite Hsnoc in Hj. tauto. }
  destruct (row i (db d0)) as [r0|] eqn:Hrow; cbn [fmap option_fmap option_map].
  2: { cbn. apply Hsame. intros r Hr Hi. by destruct (row_none i r Hrow Hr). }
  pose proof Hrow as [Hin Hid]%elem_of_find. apply bool_decide_eq_true in Hid.
  destruct (decide (Session.id r0 ∈ ids)) as [Hmem|Hmem].
  { rewrite !(bool_decide_true (Session.id r0 ∈ ids)) by done.
    rewrite bool_decide_true by (by apply end_running_status). cbn.
    apply Hsame. intros r Hr Hi. left. by rewrite <- Hid. }
  rewrite !(bool_decide_false (Session.id r0 ∈ ids)) by done.
  case_bool_decide as Hst.
  { cbn. apply Hsame. intros r Hr Hi. right.
    by rewrite (row_unique i r0 r Hrow Hr Hi). }
  (* the session is RUNNING and is ended now *)
  rewrite Hid in Hmem.
  unfold pop_worker, terminate, update_session, commit, modify, mbind, M_bind,
    mret, M_ret. rewrite Hid.
  assert (∀ d1, sessions (db d1) = sessions (db d) →
            rewritten i (λ r, Session.set_worker_pid None (Session.set_status final r))
              (sessions (db d1))
            = ended final (ids ++ [i]) (sessions (db d0))) as Htable.
  { intros d1 ->. rewrite Htbl. apply ended_snoc_new; [done|].
    intros r Hr Hi. by rewrite (row_unique i r0 r Hrow Hr Hi). }
  destruct Honly as (O1 & O2 & O3 & O4 & O5 & O6 & O7).
  destruct (active_workers d !! i) as [p|] eqn:Hw; cbn;
    (split_and!; [done| |by apply (Htable d)| |]).
  - by split_and!.
  - intros j [Hj| ->]%Hsnoc Hrun; cbn.
    + destruct (decide (j = i)) as [->|Hne]; [apply lookup_delete_eq|].
      rewrite lookup_delete_ne by done. by apply Hend.
    + apply lookup_delete_eq.
  - intros j Hj. cbn. rewrite Hsnoc in Hj.
    rewrite lookup_delete_ne by (intros ->; tauto). apply Hrest. tauto.
  - by split_and!.
  - intros j [Hj| ->]%Hsnoc Hrun; cbn.
    + destruct (decide (j = i)) as [->|Hne]; [apply lookup_delete_eq|].
      rewrite lookup_delete_ne by done. by apply Hend.
    + apply lookup_delete_eq.
  - intros j Hj. cbn. rewrite Hsnoc in Hj.
    rewrite lookup_delete_ne by (intros ->; tauto). apply Hrest. tauto.
Qed.

Lemma ended_from_start : clean d0 → ended_from final d0 [] d0.
Proof.
  intros Hclean. split_and!; [done|by repeat split|by rewrite ended_nil| |done].
  by intros i ?%elem_of_nil.
Qed.

End Ending.

Lemma ended_map_snoc (l : list Session.t) (x : Session.t) :
  map Session.id (l ++ [x]) = map Session.id l ++ [Session.id x].
Proof. by rewrite map_app. Qed.

Lemma stop_all_ends (d0 : HealerDaemon) (n : Z) (l : list Session.t) :
  keyed (db d0) n →
  hoare (ended_from SessionStatus.STOPPED d0 []) (stop_all l)
        (λ _, ended_from SessionStatus.STOPPED d0 (map Session.id l)) (λ _, False).
Proof.
  intros Hk. unfold stop_all.
  apply (hoare_for_acc_prefix
           (λ pre, ended_from SessionStatus.STOPPED d0 (map Session.id pre))).
  intros pre x acc _. rewrite ended_map_snoc.
  eapply hoare_bind; [by apply (ended_step _ d0 n)|]. intros b. by apply hoare_ret.
Qed.

Lemma fail_all_ends (d0 : HealerDaemon) (n : Z) (l : list Session.t) :
  keyed (db d0) n →
  hoare (ended_from SessionStatus.FAILED d0 []) (fail_all l)
        (λ _, ended_from SessionStatus.FAILED d0 (map Session.id l)) (λ _, False).
Proof.
  intros Hk. unfold fail_all.
  apply (hoare_for_acc_prefix
           (λ pre, ended_from SessionStatus.FAILED d0 (map Session.id pre))).
  intros pre x acc _. rewrite ended_map_snoc.
  eapply hoare_bind; [by apply (ended_step _ d0 n)|]. intros b. by apply hoare_ret.
Qed.

(** * [start_group], from the lookup of the groups to the reply *)

(** What [end_time_from] makes of a clock reading: the end time when it is
    representable, OverflowError when it is not; the store is not touched. *)
Lemma end_time_outcome (data : Data.t) (d : HealerDaemon) :
  let out := end_time_from data d in
  (match out.1 with
   | Ok _ => representable data (utc d (reads d))
   | Raise _ => ¬ representable data (utc d (reads d))
   end)
  ∧ db out.2 = db d ∧ saved out.2 = saved d
  ∧ next_session_id out.2 = next_session_id d.
Proof.
  unfold end_time_from, representable, timedelta_minutes, datetime_add.
  destruct (truthy_int _) as [m|]; [|done].
  unfold utcnow, mbind, M_bind, mret, M_ret, raise. cbn.
  repeat case_bool_decide; cbn; (split; [lia|done]).
Qed.

(** A handler that fails is rolled back and answers with the exception. *)
Lemma hoare_rolled_back (P : HealerDaemon → Prop) (Q : Reply → HealerDaemon → Prop)
    (e : string) :
  (∀ d, P d → Q (error e) (with_db (λ _, saved d) d)) →
  hoare P (rollback;; mret (error e)) Q (λ _, False).
Proof. intros H d Hd. cbn. by apply H. Qed.

(** The successful path of [start_group] ends with a commit. *)
Lemma start_group_commits (data : Data.t) :
  hoare (λ _, True) (handle_start_group data)
        (λ reply d, is_success reply = true → clean d) (λ _, True).
Proof.
  unfold handle_start_group. apply hoare_try with (E' := λ _, True); [|done].
  apply hoare_bind with (R := λ _ _, True); [done|]. intros [avatar_group|]; [|done].
  apply hoare_bind with (R := λ _ _, True); [done|]. intros [ic_group|]; [|done].
  apply hoare_bind with (R := λ _ _, True); [done|]. intros a_members.
  apply hoare_bind with (R := λ _ _, True); [done|]. intros i_members.
  destruct (_ || _); [by apply hoare_ret|].
  apply hoare_bind with (R := λ _ _, True); [done|]. intros start.
  apply hoare_bind with (R := λ _ _, True).
  { intros d _. by destruct (end_time_from data d) as [[?|?] ?]. }
  intros stop.
  apply hoare_bind with (R := λ _ _, True); [done|]. intros parent_session.
  assert (ends_clean (commit;;
            for_each a_members (λ avatar_member,
              for_each i_members (λ ic_member,
                avatar ← get_avatar (Some (AvatarGroupMember.avatar_id avatar_member));
                avatar_name ← attr "name" Avatar.name avatar;
                ic ← get_ic (Some (ICGroupMember.ic_id ic_member));
                ic_name ← attr "name" InformationCopy.name ic;
                let child_desc :=
                  "'" +:+ avatar_name +:+ "' <=> '" +:+ ic_name +:+
                  "' (from Group Session #" +:+ pretty (Session.id parent_session)
                  +:+ ")" in
                child_session ←
                  add (Session.new SessionType.IC_SESSION
                         (Session.start_time parent_session)
                         (Session.end_time parent_session)
                         SessionStatus.SCHEDULED
                       |> Session.set_parent_session_id
                            (Some (Session.id parent_session))
                       |> Session.set_avatar_id
                            (Some (AvatarGroupMember.avatar_id avatar_member))
                       |> Session.set_ic_id (Some (ICGroupMember.ic_id ic_member))
                       |> Session.set_description (Some child_desc));
                commit;;
                _spawn_worker_for_session child_session));;
            mret (success ("Started group session " +:+
                           pretty (Session.id parent_session) +:+ " with " +:+
                           pretty (Z.of_nat (length a_members * length i_members))
                           +:+ " workers.")))) as H by ends.
  eapply hoare_conseq; [exact H|done..].
Qed.

Lemma start_group_expands (data : Data.t) (d : HealerDaemon) (an inn : string)
    (ga gi : Z) :
  (∀ r, r ∈ sessions (db d) → Session.id r < next_session_id d) →
  members_exist (db d) →
  Data.avatar_group data = Some an →
  Data.ic_group data = Some inn →
  group_named "avatar" an (db d) = Some ga →
  group_named "ic" inn (db d) = Some gi →
  hoare (λ d', d' = d) (handle_start_group data)
    (λ reply d',
       (avatar_ids_of ga (db d) = [] ∨ ic_ids_of gi (db d) = [] →
        reply = error "Both avatar and IC groups must be non-empty." ∧ d' = d)
       ∧ (avatar_ids_of ga (db d) ≠ [] → ic_ids_of gi (db d) ≠ [] →
          ¬ representable data (utc d (S (reads d))) →
          is_success reply = false
          ∧ db d' = saved d ∧ saved d' = saved d
          ∧ next_session_id d' = next_session_id d)
       ∧ (avatar_ids_of ga (db d) ≠ [] → ic_ids_of gi (db d) ≠ [] →
          representable data (utc d (S (reads d))) →
          reply = success ("Started group session " +:+ pretty (next_session_id d)
                           +:+ " with " +:+
                           pretty (Z.of_nat (length (avatar_ids_of ga (db d))
                                             * length (ic_ids_of gi (db d))))
                           +:+ " workers.")
          ∧ ∃ parent,
              Session.id parent = next_session_id d
              ∧ Session.is_group_session parent = true
              ∧ Session.session_type parent = SessionType.GROUP_IC_SESSION
              ∧ Session.avatar_group_id parent = Some ga
              ∧ Session.ic_group_id parent = Some gi
              ∧ expanding d parent
                  (list_prod (avatar_ids_of ga (db d)) (ic_ids_of gi (db d))) d'))
    (λ _, False).
Proof.
  intros Hold Hfk Han Hin HA HI.
  destruct (group_named_avatar _ _ _ HA) as (GA & HGA & <-).
  destruct (group_named_ic _ _ _ HI) as (GI & HGI & <-).
  unfold handle_start_group, avatar_ids_of, ic_ids_of.
  set (a_rows := filter (λ m, bool_decide (AvatarGroupMember.group_id m = AvatarGroup.id GA))
                        (avatar_group_members (db d))).
  set (i_rows := filter (λ m, bool_decide (ICGroupMember.group_id m = ICGroup.id GI))
                        (ic_group_members (db d))).
  set (now := utc d (S (reads d))).
  (* the state in which the end time fails to be computed *)
  set (Over := λ d', a_rows ≠ [] ∧ i_rows ≠ [] ∧ ¬ representable data now
                     ∧ saved d' = saved d ∧ next_session_id d' = next_session_id d).
  apply hoare_try with (E' := Over).
  2: { intros e. apply hoare_rolled_back. intros d' (Ha & Hi & Hno & Hs & Hn).
       split_and!.
       - intros [H|H]; apply fmap_nil_inv in H; done.
       - intros _ _ _. by split_and!.
       - intros _ _ Hyes. done. }
  eapply (hoare_known (λ d', d' = d) (λ a, a = Some GA)).
  { apply hoare_gets. intros ? ->. split; [|done]. rewrite Han. exact HGA. }
  intros ? ->.
  eapply (hoare_known (λ d', d' = d) (λ a, a = Some GI)).
  { apply hoare_gets. intros ? ->. split; [|done]. rewrite Hin. exact HGI. }
  intros ? ->.
  eapply (hoare_known (λ d', d' = d) (λ a, a = a_rows)).
  { apply hoare_gets. by intros ? ->. }
  intros ? ->.
  eapply (hoare_known (λ d', d' = d) (λ a, a = i_rows)).
  { apply hoare_gets. by intros ? ->. }
  intros ? ->.
  destruct (bool_decide (a_rows = []) || bool_decide (i_rows = [])) eqn:Hempty.
  { apply hoare_ret. intros ? ->. split_and!; [done| |]; intros Ha Hi; exfalso;
      apply orb_true_iff in Hempty as [H|H]; apply bool_decide_eq_true in H;
      rewrite H in *; by cbn in *. }
  apply orb_false_iff in Hempty as [Ha Hi].
  apply bool_decide_eq_false in Ha, Hi.
  set (Pre0 := λ d', db d' = db d ∧ next_session_id d' = next_session_id d).
  apply hoare_bind with
    (R := λ _ d', db d' = db d ∧ saved d' = saved d
                  ∧ next_session_id d' = next_session_id d
                  ∧ utc d' (reads d') = now).
  { intros ? ->. by cbn. }
  intros start.
  apply hoare_bind with (R := λ _ d', representable data now ∧ Pre0 d').
  { intros d' (Hdb & Hsv & Hn & Hnow).
    pose proof (end_time_outcome data d') as H. cbv zeta in H. rewrite Hnow in H.
    destruct (end_time_from data d') as [[stop|e] d'']; cbn in H;
      destruct H as (Hrep & E1 & E2 & E3).
    - split; [done|]. split; congruence.
    - split_and!; [done|done|done|congruence..]. }
  intros stop. apply hoare_pure. intros Hrep.
  apply no_raise.
  match goal with
  | |- hoare _ (mbind _ (add ?c)) _ _ =>
      apply hoare_bind with
        (R := λ p d', p = Session.set_id (next_session_id d) c ∧ expanding d p [] d')
  end.
  { intros d' [Hdb Hn]. cbn. rewrite Hn. split; [done|].
    split_and!; cbn; [by rewrite Hdb|lia|]. rewrite Hdb.
    eexists _, []. split_and!; [done|done|done|by apply Forall_nil]. }
  intros p.
  apply (hoare_pure (p = Session.set_id (next_session_id d) _) (expanding d p [])).
  intros Hp.
  assert (Session.id p = next_session_id d) as Hid by (by rewrite Hp).
  apply total_bind_hoare; [by apply expanding_commit|]. intros ?.
  eapply hoare_bind.
  { apply expanding_outer; [done..| |]; intros m [_ Hm]%list_elem_of_filter; done. }
  intros ?. apply hoare_ret. intros d' Hd'. split_and!.
  { intros [H|H]; apply fmap_nil_inv in H; done. }
  { intros _ _ Hno. done. }
  intros _ _ _. rewrite Hid, !length_map. split; [reflexivity|].
  exists p. rewrite Hp in Hd' |- *. split_and!; try reflexivity. exact Hd'.
Qed.

(** C5 (as amended). [start_group] over an avatar group with member ids [A]
    and an IC group with member ids [I], on a store whose session keys are
    unique and below the sequence and whose memberships refer to existing
    rows.  If [A] or [I] is empty the reply is the error and the daemon is
    unchanged.  If both have members and the end time asked for is not
    representable (the clock reading plus the duration is no date of the
    years 1 to 9999), the reply is an error, the work is rolled back to the
    last commit and no session is created.  Otherwise the command succeeds
    and commits, and the rows added to the table are one parent (group
    session of kind GROUP_IC_SESSION, bound to the two groups) followed by
    one leaf per pair of [A × I], each a non-group row under that parent. *)
Theorem start_group_creates_product (data : Data.t) (d : HealerDaemon)
    (avatar_group ic_group : string) (ga gi : Z) :
  keyed (db d) (next_session_id d) →
  members_exist (db d) →
  Data.avatar_group data = Some avatar_group →
  Data.ic_group data = Some ic_group →
  group_named "avatar" avatar_group (db d) = Some ga →
  group_named "ic" ic_group (db d) = Some gi →
  let A := avatar_ids_of ga (db d) in
  let I := ic_ids_of gi (db d) in
  let now := utc d (S (reads d)) in
  let out := run "start_group" data d in
  (A = [] ∨ I = [] →
   out.1 = error "Both avatar and IC groups must be non-empty." ∧ out.2 = d)
  ∧ (A ≠ [] → I ≠ [] → ¬ representable data now →
     is_success out.1 = false
     ∧ db out.2 = saved d ∧ saved out.2 = saved d
     ∧ next_session_id out.2 = next_session_id d)
  ∧ (A ≠ [] → I ≠ [] → representable data now →
     is_success out.1 = true
     ∧ saved out.2 = db out.2
     ∧ ∃ P leaves,
         sessions (db out.2) = sessions (db d) ++ P :: leaves
         ∧ Session.is_group_session P = true
         ∧ Session.session_type P = SessionType.GROUP_IC_SESSION
         ∧ Session.avatar_group_id P = Some ga
         ∧ Session.ic_group_id P = Some gi
         ∧ length leaves = (length A * length I)%nat
         ∧ map sides leaves = map (λ p, (Some p.1, Some p.2)) (list_prod A I)
         ∧ Forall (λ r, Session.is_group_session r = false
                        ∧ Session.parent_session_id r = Some (Session.id P))
                  leaves).
Proof.
  pose proof (start_group_commits data d I) as Hc.
  intros [_ Hold] Hfk Han Hin HA HI A I now out.
  pose proof (start_group_expands data d avatar_group ic_group ga gi
                Hold Hfk Han Hin HA HI d eq_refl) as H.
  subst out. rewrite (run_handler "start_group" handle_start_group) by reflexivity.
  destruct (handle_start_group data d) as [[reply|e] d']; [|done]. cbn.
  destruct H as (Hempty & Hover & Hfull). split_and!; [exact Hempty|exact Hover|].
  intros HA' HI' Hrep.
  destruct (Hfull HA' HI' Hrep) as (-> & parent & Hid & Hg & Hty & Hag & Hig & Hex).
  split; [reflexivity|]. split; [by apply Hc|].
  destruct Hex as (_ & _ & P & leaves & Hs & HP & Hsides & Hall).
  exists P, leaves. cbn.
  assert (Session.id P = Session.id parent) as HidP
    by (by apply (f_equal Session.id) in HP).
  split_and!.
  - exact Hs.
  - apply (f_equal Session.is_group_session) in HP. cbn in HP. congruence.
  - apply (f_equal Session.session_type) in HP. cbn in HP. congruence.
  - apply (f_equal Session.avatar_group_id) in HP. cbn in HP. congruence.
  - apply (f_equal Session.ic_group_id) in HP. cbn in HP. congruence.
  - rewrite <- (length_map sides), Hsides, length_map. apply length_prod.
  - exact Hsides.
  - by rewrite HidP.
Qed.

Lemma start_group_creates_product_witness :
  let d := Scenario.fresh in
  let A := avatar_ids_of 10 (db d) in
  let I := ic_ids_of 20 (db d) in
  let now := utc d (S (reads d)) in
  let data := cmd_start_group "G" "H" (Some 30) in
  let out := run "start_group" data d in
  (A = [] ∨ I = [] →
   out.1 = error "Both avatar and IC groups must be non-empty." ∧ out.2 = d)
  ∧ (A ≠ [] → I ≠ [] → ¬ representable data now →
     is_success out.1 = false
     ∧ db out.2 = saved d ∧ saved out.2 = saved d
     ∧ next_session_id out.2 = next_session_id d)
  ∧ (A ≠ [] → I ≠ [] → representable data now →
     is_success out.1 = true
     ∧ saved out.2 = db out.2
     ∧ ∃ P leaves,
         sessions (db out.2) = sessions (db d) ++ P :: leaves
         ∧ Session.is_group_session P = true
         ∧ Session.session_type P = SessionType.GROUP_IC_SESSION
         ∧ Session.avatar_group_id P = Some 10
         ∧ Session.ic_group_id P = Some 20
         ∧ length leaves = (length A * length I)%nat
         ∧ map sides leaves = map (λ p, (Some p.1, Some p.2)) (list_prod A I)
         ∧ Forall (λ r, Session.is_group_session r = false
                        ∧ Session.parent_session_id r = Some (Session.id P))
                  leaves).
Proof.
  apply (start_group_creates_product (cmd_start_group "G" "H" (Some 30))
           Scenario.fresh "G" "H" 10 20).
  - apply keyed_list; vm_compute; reflexivity.
  - apply members_exist_list; vm_compute; reflexivity.
  - reflexivity.
  - reflexivity.
  - vm_compute; reflexivity.
  - vm_compute; reflexivity.
Defined.

(** C5, as stated, fails: both groups have members, and [start_group] with
    a duration of 6000000000 minutes is answered with the OverflowError of
    the end time; the table of sessions stays empty and no worker runs. *)
Lemma start_group_beyond_last_date_creates_nothing :
  let d := Scenario.fresh in
  let out := run "start_group" (cmd_start_group "G" "H" (Some 6000000000)) d in
  avatar_ids_of 10 (db d) = [1; 2]
  ∧ ic_ids_of 20 (db d) = [7]
  ∧ out.1 = error "date value out of range"
  ∧ sessions (db out.2) = []
  ∧ sessions (saved out.2) = []
  ∧ active_workers out.2 = ∅.
Proof. vm_compute. repeat split; reflexivity. Qed.

(** * Terminal sessions under every command *)

(** ** The row of a session stays *)

Lemma held_same (i : Z) (f : HealerDaemon → HealerDaemon) :
  (∀ d, sessions (db (f d)) = sessions (db d)) →
  (∀ d, sessions (saved (f d)) = sessions (saved d)) →
  keeps (held i) (modify f).
Proof.
  intros E1 E2. apply hoare_modify. intros d H. unfold held. by rewrite E1, E2.
Qed.

Lemma ids_map (g : Session.t → Session.t) (l : list Session.t) :
  (∀ r, Session.id (g r) = Session.id r) →
  map Session.id (map g l) = map Session.id l.
Proof. intros H. rewrite map_map. apply map_ext. intros r. apply H. Qed.

Lemma held_clear (i g : Z) (col : Session.t → option Z)
    (clr : Session.t → Session.t) (f : Store → Store) :
  (∀ r, Session.id (clr r) = Session.id r) →
  (∀ st, sessions (f st) = map (λ r, if is_ (col r) g then clr r else r) (sessions st)) →
  keeps (held i) (modify (with_db f)).
Proof.
  intros Hid E. apply hoare_modify. intros d [H1 H2]. split; [|done]. cbn.
  rewrite E, ids_map; [done|]. intros r. by destruct (is_ (col r) g).
Qed.

Lemma held_closed (i : Z) : closed (held i).
Proof.
  split.
  - intros d d' E1 E2 _ _ _ _. unfold held. by rewrite E1, E2.
  - apply hoare_modify. by intros d [H1 H2].
  - apply hoare_modify. by intros d [H1 H2].
  - intros s d [H1 H2]. split; [|done]. cbn. rewrite map_app.
    apply elem_of_app. by left.
  - intros j f Hid. apply hoare_modify. intros d [H1 H2]. split; [|done]. cbn.
    rewrite ids_map; [done|]. intros r. by case_bool_decide.
  - intros k. unfold _load_avatar_to_cache. repeat kstep; try apply keeps_gets.
    by apply held_same.
  - intros k. unfold _load_ic_to_cache. repeat kstep; try apply keeps_gets.
    by apply held_same.
  - intros k. unfold _load_request_to_cache. repeat kstep; try apply keeps_gets.
    by apply held_same.
  - intros p. by apply held_same.
  - intros p. by apply held_same.
  - intros p. by apply held_same.
  - intros g.
    by eapply (held_clear i g Session.avatar_group_id (Session.set_avatar_group_id None)).
  - intros g.
    by eapply (held_clear i g Session.ic_group_id (Session.set_ic_group_id None)).
  - intros g.
    by eapply (held_clear i g Session.request_group_id
                 (Session.set_request_group_id None)).
Qed.

Lemma held_add_member (i : Z) (data : Data.t) :
  keeps (held i) (handle_add_member_to_group data).
Proof.
  unfold handle_add_member_to_group, add_member_ic, add_member_avatar,
    add_member_request, avatar_group_of, query_sessions.
  repeat first [by apply held_same | cstep (held_closed i)].
Qed.

Lemma held_update_entity (i : Z) (data : Data.t) :
  keeps (held i) (handle_update_entity data).
Proof.
  unfold handle_update_entity, update_avatar, bytes_of_ints, query_sessions,
    _stop_single_session.
  repeat first [by apply held_same | cstep (held_closed i)].
Qed.

(** ** What goes with an avatar *)

Lemma shape_ids (p : Z * option Z * option Z * option Z → bool)
    (l : list Session.t) :
  map Session.id (filter (λ r, p (outline r)) l)
  = map (λ t, t.1.1.1) (filter p (shape l)).
Proof.
  induction l as [|r l IH]; [done|]. unfold shape in *. cbn [map].
  rewrite !filter_cons. destruct (decide (p (outline r))); cbn; by rewrite IH.
Qed.

Lemma iter_ext {X} (n : nat) (F G : X → X) (x : X) :
  (∀ y, F y = G y) → Nat.iter n F x = Nat.iter n G x.
Proof.
  intros H. induction n as [|n IH]; [done|].
  change (F (Nat.iter n F x) = G (Nat.iter n G x)). by rewrite IH, H.
Qed.

Lemma goes_with_shape (a : Z) (st st' : Store) :
  shape (sessions st) = shape (sessions st') → goes_with a st = goes_with a st'.
Proof.
  intros E. unfold goes_with, cascade.
  assert (length (sessions st) = length (sessions st')) as ->.
  { by rewrite <- (length_map outline (sessions st)),
               <- (length_map outline (sessions st')); unfold shape in E; rewrite E. }
  assert (∀ l, map Session.id
                 (filter (λ r, is_ (Session.avatar_id r) a
                               || is_ (Session.destination_avatar_id r) a) l)
               = map (λ t, t.1.1.1)
                   (filter (λ t, is_ t.1.2 a || is_ t.2 a) (shape l))) as Hroots
    by (intros l; apply (shape_ids (λ t, is_ t.1.2 a || is_ t.2 a))).
  assert (∀ ids l, map Session.id
                     (filter (λ r, in_ (Session.parent_session_id r) ids) l)
                   = map (λ t, t.1.1.1)
                       (filter (λ t, in_ t.1.1.2 ids) (shape l))) as Hbelow
    by (intros ids l; apply (shape_ids (λ t, in_ t.1.1.2 ids))).
  rewrite !Hroots, E. apply iter_ext. intros ids. by rewrite !Hbelow, E.
Qed.

Lemma find_absent (i : Z) (l : list Session.t) :
  i ∉ map Session.id l → find (λ r, bool_decide (Session.id r = i)) l = None.
Proof.
  intros H. destruct (find _ l) as [r|] eqn:Hr; [|done].
  apply elem_of_find in Hr as [Hr Hi]. apply bool_decide_eq_true in Hi.
  destruct H. apply list_elem_of_fmap. by exists r.
Qed.

Lemma find_present (i : Z) (l : list Session.t) :
  i ∈ map Session.id l →
  is_Some (find (λ r, bool_decide (Session.id r = i)) l).
Proof.
  intros (r & -> & Hr)%list_elem_of_fmap.
  destruct (find_exists Session.id (Session.id r) l) as [y Hy]; [by exists r|].
  by exists y.
Qed.

Lemma present_find (i : Z) (l : list Session.t) (r : Session.t) :
  find (λ r, bool_decide (Session.id r = i)) l = Some r → i ∈ map Session.id l.
Proof.
  intros [Hr Hi]%elem_of_find. apply bool_decide_eq_true in Hi.
  apply list_elem_of_fmap. by exists r.
Qed.

(** ** [remove_entity] *)

Section Removal.
Variable i : Z.
Variable sh : list (Z * option Z * option Z * option Z).

Lemma stopping_end_single (final : SessionStatus.t) (j : option Z) :
  total (stopping i sh) (end_single_session final j).
Proof.
  unfold end_single_session, get_session.
  apply total_bind; [apply total_gets|]. intros [s|]; [|apply total_ret].
  case_bool_decide; [apply total_ret|].
  apply total_bind; [by intros ? ?|]. intros process.
  apply total_bind.
  { destruct process; [|apply total_ret]. apply hoare_modify. by intros ? ?. }
  intros ?. apply total_bind.
  { apply hoare_modify. intros d [Hs [H1 H2]]. split; [|split; [|done]]; cbn.
    - rewrite <- Hs. unfold shape. rewrite map_map. apply map_ext.
      intros r. by case_bool_decide.
    - rewrite ids_map; [done|]. intros r. by case_bool_decide. }
  intros ?. apply total_bind; [|intros ?; apply total_ret].
  apply hoare_modify. by intros d [Hs [H1 H2]].
Qed.

Lemma stopping_stop_all (l : list Session.t) :
  total (stopping i sh) (stop_all l).
Proof.
  unfold stop_all. apply (hoare_for_acc_prefix (λ _, stopping i sh)).
  intros pre x acc _. apply total_bind; [apply stopping_end_single|].
  intros ?. apply total_ret.
Qed.

End Removal.

(** [remove_entity] deletes the row of [i] when the session goes with the
    avatar, and keeps it otherwise. *)
Lemma remove_entity_outcome (i : Z) (data : Data.t) (d0 : HealerDaemon) :
  held i d0 →
  hoare (λ d, d = d0) (handle_remove_entity data)
    (λ _ d, (removed_with "remove_entity" data d0 i
             ∧ (i ∉ map Session.id (sessions (db d)))
             ∧ (i ∉ map Session.id (sessions (saved d))))
            ∨ (¬ removed_with "remove_entity" data d0 i ∧ held i d))
    (λ d, ¬ removed_with "remove_entity" data d0 i ∧ held i d).
Proof.
  intros H0. unfold handle_remove_entity, index.
  destruct (Data.entity_type data) as [entity_type|] eqn:Ht.
  2: { apply hoare_read_raise with (e := "'entity_type'"); [done|].
       split; [|done]. intros (_ & ? & _). congruence. }
  eapply hoare_read; [reflexivity|].
  destruct (Data.id data) as [entity_id|] eqn:Hid.
  2: { apply hoare_read_raise with (e := "'id'"); [done|].
       split; [|done]. intros (_ & _ & a & ? & _). congruence. }
  eapply hoare_read; [reflexivity|]. unfold guarded.
  assert (∀ a, a ≠ "avatar" ∨ find (λ r, bool_decide (Avatar.id r = entity_id))
                                (avatars (db d0)) = None →
            entity_type = a → ¬ removed_with "remove_entity" data d0 i) as Hno.
  { intros a Ha -> (_ & E & a' & Ea & [x Hx] & _).
    rewrite Ht in E. rewrite Hid in Ea. injection E as E. injection Ea as <-.
    destruct Ha as [Ha|Ha]; [done|congruence]. }
  apply hoare_try with
    (E' := λ d, ¬ removed_with "remove_entity" data d0 i ∧ held i d).
  2: { intros e. apply hoare_bind with
         (R := λ _ d, ¬ removed_with "remove_entity" data d0 i ∧ held i d).
       - apply hoare_modify. intros d [Hn [H1 H2]]. by split.
       - intros ?. apply hoare_ret. intros d H. by right. }
  case_bool_decide as Hav.
  2: { assert (¬ removed_with "remove_entity" data d0 i) as Hn
         by (eapply Hno; [by left|done]).
       repeat case_bool_decide.
       - eapply hoare_read; [reflexivity|]. cbn [mbind option_bind].
         destruct (find _ (information_copies (db d0)));
           [apply hoare_raise|apply hoare_ret]; intros ? ->; [done|by right].
       - eapply hoare_read; [reflexivity|]. cbn [mbind option_bind].
         destruct (find _ (requests (db d0)));
           [apply hoare_raise|apply hoare_ret]; intros ? ->; [done|by right].
       - apply hoare_ret. intros ? ->. by right. }
  subst entity_type.
  eapply hoare_read; [reflexivity|]. cbn [mbind option_bind].
  destruct (find _ (avatars (db d0))) as [entity|] eqn:He.
  2: { apply hoare_ret. intros ? ->. right. split; [|done].
       eapply Hno; [by right|done]. }
  assert (Avatar.id entity = entity_id) as Ha.
  { apply elem_of_find in He as [_ He]. by apply bool_decide_eq_true in He. }
  rewrite Ha.
  eapply hoare_read; [reflexivity|]. eapply hoare_read; [reflexivity|].
  apply no_raise.
  apply hoare_bind with (R := λ _, stopping i (shape (sessions (db d0)))).
  { eapply hoare_conseq; [apply stopping_stop_all|by intros ? ->|done|done]. }
  intros stopped_count.
  apply hoare_bind with
    (R := λ _ d, if bool_decide (i ∈ goes_with entity_id (db d0))
                 then i ∉ map Session.id (sessions (db d))
                 else i ∈ map Session.id (sessions (db d))).
  { apply hoare_modify. intros d [Hs [H1 H2]]. cbn.
    fold (goes_with entity_id (db d)).
    rewrite (goes_with_shape entity_id (db d) (db d0) Hs).
    case_bool_decide as Hg.
    - intros (r & Hr & [Hk _]%list_elem_of_filter)%list_elem_of_fmap.
      apply negb_prop_elim in Hk. apply Hk, bool_decide_pack. by rewrite <- Hr.
    - apply list_elem_of_fmap in H1 as (r & Hr & Hin).
      apply list_elem_of_fmap. exists r. split; [done|].
      apply list_elem_of_filter. split; [|done].
      apply negb_prop_intro. intros Hk%bool_decide_unpack. by rewrite <- Hr in Hk. }
  intros ?.
  apply hoare_bind with
    (R := λ _ d, if bool_decide (i ∈ goes_with entity_id (db d0))
                 then (i ∉ map Session.id (sessions (db d)))
                      ∧ (i ∉ map Session.id (sessions (saved d)))
                 else held i d).
  { apply hoare_modify. intros d H. cbn. by case_bool_decide. }
  intros ?.
  apply hoare_bind with
    (R := λ _ d, if bool_decide (i ∈ goes_with entity_id (db d0))
                 then (i ∉ map Session.id (sessions (db d)))
                      ∧ (i ∉ map Session.id (sessions (saved d)))
                 else held i d).
  { apply hoare_modify. intros d H. by case_bool_decide. }
  intros ?. apply hoare_ret. intros d H. case_bool_decide as Hg.
  - left. split; [|done]. split_and!; [done..|].
    exists entity_id. split_and!; [done| |done]. by rewrite He.
  - right. split; [|done]. intros (_ & _ & a' & Ea & _ & Hin).
    rewrite Hid in Ea. by injection Ea as <-.
Qed.

(** ** The command loop *)

Lemma held_serve (i : Z) (action : string) (data : Data.t) :
  action ≠ "remove_entity" → keeps (held i) (serve action data).
Proof.
  intros Hne. unfold serve, ACTION_HANDLERS.
  apply (kept_guarded _ (held_closed i)).
  repeat case_bool_decide;
    first [ apply keeps_ret
          | apply (kept_start_ic _ (held_closed i))
          | apply (kept_start_request _ (held_closed i))
          | apply (kept_start_link _ (held_closed i))
          | apply (kept_start_group _ (held_closed i))
          | apply (kept_stop_session _ (held_closed i))
          | apply kept_view_running_on
          | apply held_add_member
          | apply (kept_remove_member _ (held_closed i))
          | apply (kept_remove_group _ (held_closed i))
          | apply (kept_redo _ (held_closed i))
          | apply held_update_entity
          | apply (kept_fail_on_target _ (held_closed i))
          | apply (kept_fail_all_running _ (held_closed i))
          | by exfalso; apply Hne ].
Qed.

Lemma serve_remove_entity (i : Z) (data : Data.t) (d0 : HealerDaemon) :
  held i d0 →
  hoare (λ d, d = d0) (serve "remove_entity" data)
    (λ _ d, (removed_with "remove_entity" data d0 i
             ∧ (i ∉ map Session.id (sessions (db d)))
             ∧ (i ∉ map Session.id (sessions (saved d))))
            ∨ (¬ removed_with "remove_entity" data d0 i ∧ held i d))
    (λ _, False).
Proof.
  intros H0. unfold serve, guarded.
  change (ACTION_HANDLERS "remove_entity") with (Some handle_remove_entity).
  eapply hoare_try; [by apply remove_entity_outcome|].
  intros e. apply hoare_rolled_back. intros d [Hn [H1 H2]]. right. by split.
Qed.

(** C3 (as amended).  A session [i] that is terminal, with the status [s1]
    in the working copy of the daemon and [s2] in the last commit, under
    one command, whatever it is, short of [stop_session] on [i] itself; the
    session keys are unique and below the sequence.  The row is deleted,
    from both copies, exactly when the command is [remove_entity] on an
    existing avatar and the session or a session above it has that avatar
    as source or destination.  Otherwise the session is still there and its
    status, in either copy, is [s1] or [s2], except that [redo_failed] may
    leave RESTARTED where one of the two was FAILED, and
    [fail_sessions_on_target] may leave FAILED when the committed row of
    the session refers to the avatar group the command names. *)
Theorem terminal_status_kept (action : string) (data : Data.t) (d : HealerDaemon)
    (i : Z) (s1 s2 : SessionStatus.t) :
  keys_sound d →
  status_of i (db d) = Some s1 →
  status_of i (saved d) = Some s2 →
  SessionStatus.terminal s1 = true →
  SessionStatus.terminal s2 = true →
  ¬ (action = "stop_session" ∧ Data.session_id data = Some i) →
  let d' := (run action data d).2 in
  let allowed := λ o : option SessionStatus.t,
    ∃ x, o = Some x
         ∧ (x = s1 ∨ x = s2
            ∨ (x = SessionStatus.RESTARTED ∧ action = "redo_failed"
               ∧ (s1 = SessionStatus.FAILED ∨ s2 = SessionStatus.FAILED))
            ∨ (x = SessionStatus.FAILED ∧ action = "fail_sessions_on_target"
               ∧ marked data d i)) in
  (removed_with action data d i
   ∧ status_of i (db d') = None ∧ status_of i (saved d') = None)
  ∨ (¬ removed_with action data d i
     ∧ allowed (status_of i (db d')) ∧ allowed (status_of i (saved d'))).
Proof.
  intros [K1 K2] H1 H2 T1 T2 Hstop d' allowed.
  set (A := λ x, x = s1 ∨ x = s2
                 ∨ (x = SessionStatus.RESTARTED ∧ action = "redo_failed"
                    ∧ (s1 = SessionStatus.FAILED ∨ s2 = SessionStatus.FAILED))
                 ∨ (x = SessionStatus.FAILED ∧ action = "fail_sessions_on_target"
                    ∧ marked data d i)).
  assert (¬ A SessionStatus.RUNNING) as Hrun.
  { intros [<-|[<-|[[? _]|[? _]]]]; done. }
  assert (within A i d) as Hw0.
  { apply (within_start A i s1 s2); [done..|by left|by right; left]. }
  assert (held i d) as Hh0.
  { unfold status_of in H1, H2. split.
    - destruct (find _ (sessions (db d))) as [r|] eqn:Hr; [|done].
      by eapply present_find.
    - destruct (find _ (sessions (saved d))) as [r|] eqn:Hr; [|done].
      by eapply present_find. }
  (* the statuses *)
  assert (within A i d') as Hw.
  { assert (hoare (λ d1, d1 = d) (serve action data) (λ _, within A i)
              (within A i)) as Hs.
    { destruct (decide (action = "fail_sessions_on_target")) as [->|Hne].
      - apply within_serve_fail; [done|done| |].
        + apply find_present, Hh0.
        + intros Hm. right. right. right. by split_and!.
      - eapply hoare_conseq; [apply (within_serve A i action data)| |done|done].
        + done.
        + intros -> Hi. by apply Hstop.
        + done.
        + intros -> [E|[E|[[? _]|[_ [? _]]]]]; [| |done..];
            right; right; left; split_and!; auto.
        + by intros ? ->. }
    specialize (Hs d eq_refl). unfold d', run.
    by destruct (serve action data d) as [[reply|e] d1]. }
  destruct (status_of_within A i d' Hw) as [Hdb Hsv].
  assert (held i d' → allowed (status_of i (db d')) ∧ allowed (status_of i (saved d')))
    as Hthere.
  { intros [[r Hr]%find_present [r' Hr']%find_present]. unfold allowed, status_of.
    split.
    - exists (Session.status r). rewrite Hr. split; [done|].
      apply Hdb. unfold status_of. by rewrite Hr.
    - exists (Session.status r'). rewrite Hr'. split; [done|].
      apply Hsv. unfold status_of. by rewrite Hr'. }
  (* the row *)
  destruct (decide (action = "remove_entity")) as [->|Hne].
  - pose proof (serve_remove_entity i data d Hh0 d eq_refl) as Hs.
    unfold d', run in *.
    destruct (serve "remove_entity" data d) as [[reply|e] d1]; [|done]. cbn in *.
    destruct Hs as [(Hrm & Hg1 & Hg2)|[Hn Hh]].
    + left. unfold status_of. by rewrite !find_absent.
    + right. split; [done|]. by apply Hthere.
  - right. split; [by intros [? _]|]. apply Hthere.
    pose proof (held_serve i action data Hne d Hh0) as Hs. unfold d', run.
    by destruct (serve action data d) as [[reply|e] d1].
Qed.

Lemma terminal_status_kept_witness :
  let d := Scenario.one_failed in
  let d' := (run "redo_failed" Data.empty d).2 in
  let allowed := λ o : option SessionStatus.t,
    ∃ x, o = Some x
         ∧ (x = SessionStatus.FAILED ∨ x = SessionStatus.FAILED
            ∨ (x = SessionStatus.RESTARTED ∧ "redo_failed" = "redo_failed"
               ∧ (SessionStatus.FAILED = SessionStatus.FAILED
                  ∨ SessionStatus.FAILED = SessionStatus.FAILED))
            ∨ (x = SessionStatus.FAILED ∧ "redo_failed" = "fail_sessions_on_target"
               ∧ marked Data.empty d 1)) in
  (removed_with "redo_failed" Data.empty d 1
   ∧ status_of 1 (db d') = None ∧ status_of 1 (saved d') = None)
  ∨ (¬ removed_with "redo_failed" Data.empty d 1
     ∧ allowed (status_of 1 (db d')) ∧ allowed (status_of 1 (saved d'))).
Proof.
  apply (terminal_status_kept "redo_failed" Data.empty Scenario.one_failed 1
           SessionStatus.FAILED SessionStatus.FAILED).
  - split; apply keyed_list; vm_compute; reflexivity.
  - vm_compute; reflexivity.
  - vm_compute; reflexivity.
  - reflexivity.
  - reflexivity.
  - intros [H _]. discriminate H.
Defined.

(** * [redo_failed] *)

Lemma rewritten_fresh (i : Z) (f : Session.t → Session.t) (l : list Session.t) :
  (∀ r, r ∈ l → Session.id r ≠ i) → rewritten i f l = l.
Proof.
  intros H. unfold rewritten. rewrite <- (map_id l) at 2. apply map_ext_in.
  intros r Hr%list_elem_of_In. by rewrite bool_decide_false by auto.
Qed.

Lemma rewritten_app (i : Z) (f : Session.t → Session.t) (l1 l2 : list Session.t) :
  rewritten i f (l1 ++ l2) = rewritten i f l1 ++ rewritten i f l2.
Proof. apply map_app. Qed.

Lemma rewritten_last (i : Z) (f : Session.t → Session.t) (l : list Session.t)
    (n : Session.t) :
  (∀ r, r ∈ l → Session.id r ≠ i) → Session.id n = i →
  rewritten i f (l ++ [n]) = l ++ [f n].
Proof.
  intros H Hn. rewrite rewritten_app, rewritten_fresh by done.
  unfold rewritten. cbn. by rewrite bool_decide_true.
Qed.

Lemma restarted_snoc (ids : list Z) (i : Z) (l : list Session.t) :
  rewritten i (Session.set_status SessionStatus.RESTARTED) (map (restarted ids) l)
  = map (restarted (ids ++ [i])) l.
Proof.
  unfold rewritten. rewrite map_map. apply map_ext. intros r. unfold restarted.
  destruct (decide (Session.id r ∈ ids)) as [Hin|Hin].
  - rewrite (bool_decide_true _ Hin).
    rewrite (bool_decide_true (Session.id r ∈ ids ++ [i]))
      by (apply elem_of_app; by left).
    by case_bool_decide.
  - rewrite (bool_decide_false _ Hin).
    destruct (decide (Session.id r = i)) as [Hi|Hi].
    + rewrite (bool_decide_true _ Hi). rewrite bool_decide_true; [done|].
      apply elem_of_app. right. by apply list_elem_of_singleton.
    + rewrite (bool_decide_false _ Hi). rewrite bool_decide_false; [done|].
      rewrite elem_of_app, list_elem_of_singleton. tauto.
Qed.

Lemma restarted_nil (l : list Session.t) : map (restarted []) l = l.
Proof.
  rewrite <- (map_id l) at 2. apply map_ext. intros r. unfold restarted.
  rewrite bool_decide_false; [done|]. apply not_elem_of_nil.
Qed.

Lemma new_keys (n0 : Z) (m : nat) (news : list Session.t) (r : Session.t) :
  map Session.id news = map (λ k, n0 + Z.of_nat k) (seq 0 m) →
  r ∈ news → n0 ≤ Session.id r < n0 + Z.of_nat m.
Proof.
  intros E Hr.
  assert (Session.id r ∈ map Session.id news) as H
    by (apply list_elem_of_fmap; eauto).
  rewrite E in H. apply list_elem_of_fmap in H as (k & -> & Hk).
  apply list_elem_of_In, in_seq in Hk. lia.
Qed.

Lemma leaves_snoc_parent (pre : list Session.t) (x : Session.t) :
  Session.is_group_session x = true →
  filter (λ r, negb (Session.is_group_session r)) (pre ++ [x])
  = filter (λ r, negb (Session.is_group_session r)) pre.
Proof.
  intros Hg. rewrite filter_app, filter_cons, filter_nil.
  destruct (decide _) as [H|H]; [by rewrite Hg in H|by rewrite app_nil_r].
Qed.

Lemma leaves_snoc_leaf (pre : list Session.t) (x : Session.t) :
  Session.is_group_session x = false →
  filter (λ r, negb (Session.is_group_session r)) (pre ++ [x])
  = filter (λ r, negb (Session.is_group_session r)) pre ++ [x].
Proof.
  intros Hg. rewrite filter_app, filter_cons, filter_nil.
  destruct (decide _) as [H|H]; [done|by rewrite Hg in H].
Qed.

Lemma Forall2_impl_r {A B} (P Q : A → B → Prop) (l : list A) (k : list B) :
  Forall2 P l k → (∀ x y, y ∈ k → P x y → Q x y) → Forall2 Q l k.
Proof.
  induction 1 as [|x y l k Hxy Hlk IH]; intros H; constructor.
  - apply H; [left|done].
  - apply IH. intros x' y' Hy'. apply H. by right.
Qed.

Lemma map_seq_snoc {A} (f : nat → A) (m : nat) :
  map f (seq 0 (S m)) = map f (seq 0 m) ++ [f m].
Proof. by rewrite seq_S, map_app. Qed.

Section Redo.
Variable d0 : HealerDaemon.
Hypothesis known : workers_known d0.
Hypothesis old_keys :
  ∀ r, r ∈ sessions (db d0) → Session.id r < next_session_id d0.
Hypothesis ungrouped : leaves_ungrouped (db d0).

(** A FAILED group session is RESTARTED, and that is all. *)
Lemma redoing_parent (pre : list Session.t) (x : Session.t) (acc : Z) :
  x ∈ sessions (db d0) → Session.is_group_session x = true →
  hoare (redoing d0 pre)
    (update_session (Session.id x) (Session.set_status SessionStatus.RESTARTED);;
     commit;; mret acc)
    (λ _, redoing d0 (pre ++ [x])) (λ _, False).
Proof.
  intros Hx Hg d (Hu & Hr & Hn & Hw & La & Li & Lq & news & Ht & Hids & Hts & Hall).
  cbn. unfold redoing. rewrite (leaves_snoc_parent pre x Hg).
  split_and!; [done..|]. exists news. split_and!; [|done|done|].
  - cbn. fold (rewritten (Session.id x)
                 (Session.set_status SessionStatus.RESTARTED) (sessions (db d))).
    rewrite Ht, rewritten_app, restarted_snoc, map_app. f_equal.
    apply rewritten_fresh. intros r Hin.
    pose proof (new_keys _ _ _ r Hids Hin). pose proof (old_keys x Hx). lia.
  - eapply Forall2_impl; [exact Hall|]. intros o n [H1 H2]. by split.
Qed.

(** The daemon after one more session was copied: [N] is the copy, [D2]
    the daemon in which it is spawned, [d3] the daemon after spawning. *)
Lemma redoing_spawned (pre : list Session.t) (x : Session.t)
    (d D2 d3 : HealerDaemon) (N : Session.t) :
  let m := length (filter (λ r, negb (Session.is_group_session r)) pre) in
  x ∈ sessions (db d0) → Session.is_group_session x = false →
  redoing d0 pre d →
  Session.id N = next_session_id d0 + Z.of_nat m →
  plan N = plan (Session.set_id (Session.id N) (redo_of x (Session.start_time N))) →
  Session.start_time N = utc d0 (reads d0 + m)%nat →
  Session.worker_pid N = None →
  sessions (db D2) = sessions (db d) ++ [N] →
  active_workers D2 = active_workers d →
  active_workers D2 !! Session.id N = None →
  next_session_id D2 = next_session_id d + 1 →
  utc D2 = utc d → reads D2 = S (reads d) →
  (∀ k, avatar_loadable D2 k = avatar_loadable d k) →
  (∀ k, ic_loadable D2 k = ic_loadable d k) →
  (∀ k, request_loadable D2 k = request_loadable d k) →
  spawn_left N (payloads_loadable d0 x) D2 d3 →
  redoing d0 (pre ++ [x])
    (with_saved
       (db (with_db (with_sessions
              (map (λ r, if bool_decide (Session.id r = Session.id x)
                         then Session.set_status SessionStatus.RESTARTED r
                         else r))) d3))
       (with_db (with_sessions
          (map (λ r, if bool_decide (Session.id r = Session.id x)
                     then Session.set_status SessionStatus.RESTARTED r
                     else r))) d3)).
Proof.
  intros m Hx Hg (Hu & Hr & Hn & Hw & La & Li & Lq & news & Ht & Hids & Hts & Hall)
    HidN Hplan Hstart Hpid0 HD2 HD2w Hnone HD2n HD2u HD2r HD2a HD2i HD2q Hleft.
  fold m in Hr, Hn, Hids, Hts. destruct known as [Hpos Hreg].
  destruct Hleft as (Hc & Hn3 & Hu3 & Hr3 & La3 & Li3 & Lq3 & Hout).
  unfold redoing. rewrite (leaves_snoc_leaf pre x Hg), length_app. fold m.
  cbn [length].
  (* the rest of the table does not have the key of the new session *)
  assert (∀ r, r ∈ map (restarted (map Session.id pre)) (sessions (db d0)) ++ news →
               Session.id r ≠ Session.id N) as Hfresh.
  { intros r [Hin|Hin]%elem_of_app.
    - apply list_elem_of_fmap in Hin as (r0 & -> & Hr0).
      assert (Session.id (restarted (map Session.id pre) r0) = Session.id r0) as ->
        by (unfold restarted; by case_bool_decide).
      apply old_keys in Hr0. lia.
    - pose proof (new_keys _ _ _ r Hids Hin). lia. }
  assert (∀ r, r ∈ news → Session.id r ≠ Session.id x) as Hold.
  { intros r Hin. pose proof (new_keys _ _ _ r Hids Hin).
    pose proof (old_keys x Hx). lia. }
  assert (Session.id N ≠ Session.id x) as HNx
    by (pose proof (old_keys x Hx); lia).
  (* the table after spawning and restarting *)
  assert (∀ f, (∀ r, Session.id (f r) = Session.id r) →
            sessions (db d3) = rewritten (Session.id N) f (sessions (db D2)) →
            rewritten (Session.id x) (Session.set_status SessionStatus.RESTARTED)
              (sessions (db d3))
            = map (restarted (map Session.id (pre ++ [x]))) (sessions (db d0))
              ++ (news ++ [f N])) as Htable.
  { intros f Hf ->. rewrite HD2, Ht. rewrite rewritten_last by done.
    rewrite <- app_assoc, !rewritten_app, restarted_snoc, map_app.
    rewrite (rewritten_fresh _ _ news) by done.
    rewrite (rewritten_fresh _ _ [f N]); [done|].
    intros r ->%list_elem_of_singleton. by rewrite Hf. }
  (* the sessions created before keep their workers *)
  assert (∀ aw : gmap Z Z,
            (∀ j, j ≠ Session.id N → aw !! j = active_workers d !! j) →
            Forall2 (λ old new,
                       plan new = plan (Session.set_id (Session.id new)
                                          (redo_of old (Session.start_time new)))
                       ∧ if payloads_loadable d0 old
                         then Session.status new = SessionStatus.RUNNING
                              ∧ ∃ pid, Session.worker_pid new = Some pid
                                       ∧ aw !! Session.id new = Some pid
                         else Session.status new = SessionStatus.FAILED
                              ∧ Session.worker_pid new = None
                              ∧ aw !! Session.id new = None)
                    (filter (λ r, negb (Session.is_group_session r)) pre) news)
    as Hbefore.
  { intros aw Haw. eapply Forall2_impl_r; [exact Hall|].
    intros o n Hin [H1 H2]. split; [done|].
    assert (Session.id n ≠ Session.id N) as Hne
      by (pose proof (new_keys _ _ _ n Hids Hin); lia).
    unfold spawned in H2. rewrite (Haw _ Hne). exact H2. }
  split_and!.
  - cbn. by rewrite Hu3, HD2u.
  - cbn. rewrite Hr3, HD2r, Hr. lia.
  - cbn. rewrite Hn3, HD2n, Hn. lia.
  - cbn. intros j Hj. rewrite Hn3, HD2n.
    destruct (payloads_loadable d0 x); destruct Hout as (_ & Haw & _);
      rewrite Haw, HD2w in Hj.
    + destruct (decide (j = Session.id N)) as [->|Hne]; [lia|].
      rewrite lookup_insert_ne in Hj by done. apply Hw in Hj. lia.
    + apply Hw in Hj. lia.
  - intros k. rewrite <- La, <- HD2a, <- La3. reflexivity.
  - intros k. rewrite <- Li, <- HD2i, <- Li3. reflexivity.
  - intros k. rewrite <- Lq, <- HD2q, <- Lq3. reflexivity.
  - destruct (payloads_loadable d0 x) eqn:Hload;
      destruct Hout as (Hdb & Haw & Hlive & Hpid).
    + exists (news ++ [Session.set_worker_pid (Some (next_pid D2))
                         (Session.set_status SessionStatus.RUNNING N)]).
      split_and!.
      * cbn. fold (rewritten (Session.id x)
                     (Session.set_status SessionStatus.RESTARTED) (sessions (db d3))).
        apply (Htable (λ r, Session.set_worker_pid (Some (next_pid D2))
                              (Session.set_status SessionStatus.RUNNING r)));
          [done|]. by rewrite Hdb.
      * rewrite map_app, Nat.add_1_r, map_seq_snoc, Hids. f_equal.
        rewrite <- HidN. reflexivity.
      * rewrite map_app, Nat.add_1_r, map_seq_snoc, Hts. f_equal.
        rewrite <- Hstart. reflexivity.
      * apply Forall2_app.
        -- unfold spawned. cbn. rewrite Haw, HD2w. apply Hbefore.
           intros j Hj. by rewrite lookup_insert_ne.
        -- constructor; [|constructor]. split; [exact Hplan|].
           unfold spawned. rewrite Hload. cbn. split; [done|]. exists (next_pid D2).
           split; [done|]. rewrite Haw. apply lookup_insert_eq.
    + exists (news ++ [Session.set_status SessionStatus.FAILED N]).
      split_and!.
      * cbn. fold (rewritten (Session.id x)
                     (Session.set_status SessionStatus.RESTARTED) (sessions (db d3))).
        apply (Htable (Session.set_status SessionStatus.FAILED)); [done|].
        by rewrite Hdb.
      * rewrite map_app, Nat.add_1_r, map_seq_snoc, Hids. f_equal.
        rewrite <- HidN. reflexivity.
      * rewrite map_app, Nat.add_1_r, map_seq_snoc, Hts. f_equal.
        rewrite <- Hstart. reflexivity.
      * apply Forall2_app.
        -- unfold spawned. cbn. rewrite Haw, HD2w. by apply Hbefore.
        -- constructor; [|constructor]. split; [exact Hplan|].
           unfold spawned. rewrite Hload. cbn. split_and!; [done|done|].
           by rewrite Haw.
Qed.


(** A FAILED session that is not a group session gets its copy, the copy
    is spawned, and the session is RESTARTED. *)
Lemma redoing_leaf (pre : list Session.t) (x : Session.t) (acc : Z) :
  x ∈ sessions (db d0) → Session.is_group_session x = false →
  hoare (redoing d0 pre)
    (start ← utcnow;
     new_session ←
       add (Session.new (Session.session_type x) start
              (Session.end_time x) SessionStatus.SCHEDULED
            |> Session.set_parent_session_id (Session.parent_session_id x)
            |> Session.set_is_group_session false
            |> Session.set_description
                 (Some ("[REDO] " +:+ str_opt (Session.description x)))
            |> Session.set_avatar_id (Session.avatar_id x)
            |> Session.set_ic_id (Session.ic_id x)
            |> Session.set_request_id (Session.request_id x)
            |> Session.set_destination_avatar_id (Session.destination_avatar_id x)
            |> Session.set_avatar_group_id (Session.avatar_group_id x)
            |> Session.set_ic_group_id (Session.ic_group_id x));
     commit;;
     _spawn_worker_for_session new_session;;
     update_session (Session.id x) (Session.set_status SessionStatus.RESTARTED);;
     commit;;
     mret (acc + 1))
    (λ _, redoing d0 (pre ++ [x])) (λ _, False).
Proof.
  intros Hx Hg d (Hu & Hr & Hn & Hw & La & Li & Lq & news & Ht & Hids & Hts & Hall).
  set (m := length (filter (λ r, negb (Session.is_group_session r)) pre)) in *.
  match goal with
  | |- match ?body d with _ => _ end =>
      cut (hoare (λ d', d' = d) body (λ _, redoing d0 (pre ++ [x])) (λ _, False));
        [intros H; exact (H d eq_refl)|]
  end.
  eapply hoare_step; [reflexivity|].
  eapply hoare_step; [reflexivity|].
  eapply hoare_step; [reflexivity|].
  match goal with
  | |- hoare (λ d', d' = ?d2) (_spawn_worker_for_session ?new ≫= _) _ _ =>
      set (D2 := d2); set (N := new)
  end.
  assert (Session.id N = next_session_id d0 + Z.of_nat m) as HidN by exact Hn.
  assert (payloads_loadable D2 N = payloads_loadable d0 x) as Hok.
  { unfold payloads_loadable. rewrite <- !La, <- !Li, <- !Lq. reflexivity. }
  assert (active_workers D2 !! Session.id N = None) as Hnone.
  { apply eq_None_not_Some. intros Hsome%Hw.
    change (Session.id N) with (next_session_id d) in Hsome. lia. }
  assert (plan N = plan (Session.set_id (Session.id N)
                           (redo_of x (Session.start_time N)))) as Hplan.
  { unfold N, plan, redo_of. cbn. by rewrite (ungrouped x Hx Hg). }
  assert (Session.start_time N = utc d0 (reads d0 + m)%nat) as Hstart.
  { unfold N. cbn. by rewrite Hu, Hr. }
  assert (Session.worker_pid N = None) as Hpid0 by reflexivity.
  assert (sessions (db D2) = sessions (db d) ++ [N]) as HD2 by reflexivity.
  assert (active_workers D2 = active_workers d) as HD2w by reflexivity.
  assert (next_session_id D2 = next_session_id d + 1) as HD2n by reflexivity.
  assert (utc D2 = utc d) as HD2u by reflexivity.
  assert (reads D2 = S (reads d)) as HD2r by reflexivity.
  assert (∀ k, avatar_loadable D2 k = avatar_loadable d k) as HD2a by reflexivity.
  assert (∀ k, ic_loadable D2 k = ic_loadable d k) as HD2i by reflexivity.
  assert (∀ k, request_loadable D2 k = request_loadable d k) as HD2q by reflexivity.
  destruct known as [Hpos Hreg].
  destruct (spawn_outcome N D2) as (d3 & Hsp & Hleft); [rewrite HidN; lia|done|].
  rewrite Hok in Hleft.
  eapply hoare_step; [exact Hsp|].
  eapply hoare_step; [reflexivity|].
  eapply hoare_step; [reflexivity|].
  apply hoare_ret. intros ? ->.
  apply (redoing_spawned pre x d D2 d3 N); try done.
  by split_and!; [..|exists news].
Qed.

Lemma redoing_start : redoing d0 [] d0.
Proof.
  destruct known as [Hpos Hreg]. unfold redoing. cbn.
  split_and!; [done|lia|lia|done|done|done|done|].
  exists []. split_and!; [|done|done|constructor].
  by rewrite restarted_nil, app_nil_r.
Qed.

(** The loop of [redo_failed] over the sessions it found. *)
Lemma redo_loop (failed : list Session.t) :
  (∀ r, r ∈ failed → r ∈ sessions (db d0)) →
  hoare (redoing d0 [])
    (for_acc failed 0 (λ old_session restarted_count,
       if Session.is_group_session old_session then
         update_session (Session.id old_session)
           (Session.set_status SessionStatus.RESTARTED);;
         commit;;
         mret restarted_count
       else
         start ← utcnow;
         new_session ←
           add (Session.new (Session.session_type old_session) start
                  (Session.end_time old_session) SessionStatus.SCHEDULED
                |> Session.set_parent_session_id
                     (Session.parent_session_id old_session)
                |> Session.set_is_group_session
                     (Session.is_group_session old_session)
                |> Session.set_description
                     (Some ("[REDO] " +:+ str_opt (Session.description old_session)))
                |> Session.set_avatar_id (Session.avatar_id old_session)
                |> Session.set_ic_id (Session.ic_id old_session)
                |> Session.set_request_id (Session.request_id old_session)
                |> Session.set_destination_avatar_id
                     (Session.destination_avatar_id old_session)
                |> Session.set_avatar_group_id
                     (Session.avatar_group_id old_session)
                |> Session.set_ic_group_id (Session.ic_group_id old_session));
         commit;;
         _spawn_worker_for_session new_session;;
         update_session (Session.id old_session)
           (Session.set_status SessionStatus.RESTARTED);;
         commit;;
         mret (restarted_count + 1)))
    (λ _, redoing d0 failed) (λ _, False).
Proof.
  intros Hsub. apply (hoare_for_acc_prefix (redoing d0)).
  intros pre x acc Hx%Hsub.
  destruct (Session.is_group_session x) eqn:Hg;
    [by apply redoing_parent|by apply redoing_leaf].
Qed.

End Redo.

Lemma ends_clean_for_acc {A B} (x : A) (xs : list A) (acc : B) (body : A → B → M B) :
  (∀ x acc, ends_clean (body x acc)) → ends_clean (for_acc (x :: xs) acc body).
Proof.
  intros H. revert x acc. induction xs as [|y ys IH]; intros x acc; cbn [for_acc].
  - apply ends_clean_first; [apply H|]. intros ?. apply leaves_clean_ret.
  - apply ends_clean_later. intros acc'. apply IH.
Qed.

(** When [redo_failed] found a session, it ends with a commit. *)
Lemma redo_commits (data : Data.t) (d : HealerDaemon) :
  hoare (λ d', d' = d) (handle_redo_failed_sessions data)
    (λ _ d',
       filter (λ r, bool_decide (Session.status (flushed d r) = SessionStatus.FAILED))
              (sessions (db d)) ≠ [] → clean d')
    (λ _, True).
Proof.
  unfold handle_redo_failed_sessions, guarded.
  apply hoare_try with (E' := λ _, True); [|done].
  eapply hoare_read; [reflexivity|]. cbv zeta.
  destruct (filter _ (sessions (db d))) as [|r0 rest]; [by apply hoare_ret|].
  eapply hoare_conseq with (P' := λ _, True) (E' := λ _, True);
    [|done|intros ? ? H; exact (λ _, H)|done].
  apply ends_clean_first; [|intros ?; apply leaves_clean_ret].
  apply ends_clean_for_acc. intros x acc.
  destruct (Session.is_group_session x); ends.
Qed.


Lemma leaves_ungrouped_list (st : Store) :
  forallb (λ r, Session.is_group_session r
                || bool_decide (Session.request_group_id r = None))
          (sessions st) = true →
  leaves_ungrouped st.
Proof.
  intros H r Hr Hg. rewrite forallb_forall in H.
  apply list_elem_of_In, H in Hr. rewrite Hg in Hr.
  by apply bool_decide_eq_true in Hr.
Qed.

Lemma workers_known_none (d : HealerDaemon) :
  0 < next_session_id d → active_workers d = ∅ → workers_known d.
Proof.
  intros Hpos Hw. split; [done|]. intros j [p Hp]. by rewrite Hw in Hp.
Qed.


(** [redo_failed] after [start_group G H] and [fail_all_running]: the
    parent 1 and the leaves 2 and 3 were FAILED and are RESTARTED; the
    leaves have the copies 4 and 5, under the same parent and with the same
    sides and end time, started at the next readings of the clock and
    RUNNING with new workers; the parent has no copy. *)
Example redo_failed_on_a_failed_group :
  let d := Scenario.group_failed in
  let out := run "redo_failed" Data.empty d in
  map Session.status (sessions (db d))
  = [SessionStatus.FAILED; SessionStatus.FAILED; SessionStatus.FAILED]
  ∧ out.1 = success "Successfully restarted 2 failed session(s)."
  ∧ map (λ r, (Session.id r, Session.status r, Session.parent_session_id r,
               sides r, Session.start_time r, Session.end_time r,
               Session.worker_pid r)) (sessions (db out.2))
    = [ (1, SessionStatus.RESTARTED, None, (None, None), 1000,
         Some 1800001001, None);
        (2, SessionStatus.RESTARTED, Some 1, (Some 1, Some 7), 1000,
         Some 1800001001, None);
        (3, SessionStatus.RESTARTED, Some 1, (Some 2, Some 7), 1000,
         Some 1800001001, None);
        (4, SessionStatus.RUNNING, Some 1, (Some 1, Some 7), 1002,
         Some 1800001001, Some 102);
        (5, SessionStatus.RUNNING, Some 1, (Some 2, Some 7), 1003,
         Some 1800001001, Some 103) ]
  ∧ map Session.description (sessions (db out.2))
    = [ Some "IC Group 'H' on Avatar Group 'G'";
        Some "'Ann' <=> 'IC7' (from Group Session #1)";
        Some "'Bob' <=> 'IC7' (from Group Session #1)";
        Some "[REDO] 'Ann' <=> 'IC7' (from Group Session #1)";
        Some "[REDO] 'Bob' <=> 'IC7' (from Group Session #1)" ]
  ∧ saved out.2 = db out.2.
Proof. vm_compute. repeat split; reflexivity. Qed.

(** * The reference to a request group

    [request_group_id] is written on the parents of [start_request] only;
    every other session the daemon creates leaves it NULL, and nothing
    sets it later. *)

Lemma ungrouped_same (f : HealerDaemon → HealerDaemon) :
  (∀ d, sessions (db (f d)) = sessions (db d)) →
  (∀ d, sessions (saved (f d)) = sessions (saved d)) →
  keeps ungrouped (modify f).
Proof.
  intros E1 E2. apply hoare_modify. intros d [H1 H2].
  unfold ungrouped, leaves_ungrouped. rewrite E1, E2. by split.
Qed.

Lemma ungrouped_commit : keeps ungrouped commit.
Proof. apply hoare_modify. by intros d [H1 H2]. Qed.

Lemma ungrouped_rollback : keeps ungrouped rollback.
Proof. apply hoare_modify. by intros d [H1 H2]. Qed.

Lemma ungrouped_utcnow : keeps ungrouped utcnow.
Proof. by intros d Hd. Qed.

Lemma ungrouped_process_start : keeps ungrouped process_start.
Proof. by intros d Hd. Qed.

Lemma ungrouped_pop_worker (j : Z) : keeps ungrouped (pop_worker j).
Proof. by intros d Hd. Qed.

Lemma ungrouped_terminate (p : option Z) : keeps ungrouped (terminate p).
Proof. destruct p; [|apply keeps_ret]. by apply ungrouped_same. Qed.

Lemma ungrouped_guarded (m : M Reply) :
  keeps ungrouped m → keeps ungrouped (guarded m).
Proof.
  intros H. apply keeps_try; [done|]. intros e.
  kstep; [apply ungrouped_rollback|kstep].
Qed.

(** A new row keeps the property when it is a group session or refers to
    no request group. *)
Lemma ungrouped_add (s : Session.t) :
  (Session.is_group_session s = false → Session.request_group_id s = None) →
  keeps ungrouped (add s).
Proof.
  intros Hs d [H1 H2]. split; [|done]. cbn.
  intros r [Hr|Hr]%elem_of_app; [by apply H1|].
  apply list_elem_of_singleton in Hr as ->. exact Hs.
Qed.

(** An assignment keeps it when it touches neither of the two columns. *)
Lemma ungrouped_update (j : Z) (f : Session.t → Session.t) :
  (∀ r, Session.is_group_session (f r) = Session.is_group_session r) →
  (∀ r, Session.request_group_id (f r) = Session.request_group_id r) →
  keeps ungrouped (update_session j f).
Proof.
  intros Hg Hq. apply hoare_modify. intros d [H1 H2]. split; [|done]. cbn.
  intros r (x & -> & Hx)%list_elem_of_fmap. case_bool_decide; [|by apply H1].
  rewrite Hg, Hq. by apply H1.
Qed.

Lemma ungrouped_clear (g : Z) (col : Session.t → option Z)
    (clr : Session.t → Session.t) (f : Store → Store) :
  (∀ r, Session.is_group_session (clr r) = Session.is_group_session r) →
  (∀ r, Session.request_group_id r = None → Session.request_group_id (clr r) = None) →
  (∀ st, sessions (f st) = map (λ r, if is_ (col r) g then clr r else r) (sessions st)) →
  keeps ungrouped (modify (with_db f)).
Proof.
  intros Hg Hq E. apply hoare_modify. intros d [H1 H2]. split; [|done]. cbn.
  intros r. rewrite E. intros (x & -> & Hx)%list_elem_of_fmap.
  destruct (is_ (col x) g); [|by apply H1].
  rewrite Hg. intros Hx'. by apply Hq, H1.
Qed.

Lemma ungrouped_delete_avatar (a : Z) : keeps ungrouped (delete_avatar a).
Proof.
  apply hoare_modify. intros d [H1 H2]. split; [|done]. cbn.
  intros r [_ Hr]%list_elem_of_filter. by apply H1.
Qed.

Lemma ungrouped_delete_avatar_group (g : Z) : keeps ungrouped (delete_avatar_group g).
Proof.
  by eapply (ungrouped_clear g Session.avatar_group_id
               (Session.set_avatar_group_id None)).
Qed.

Lemma ungrouped_delete_ic_group (g : Z) : keeps ungrouped (delete_ic_group g).
Proof.
  by eapply (ungrouped_clear g Session.ic_group_id (Session.set_ic_group_id None)).
Qed.

Lemma ungrouped_delete_request_group (g : Z) :
  keeps ungrouped (delete_request_group g).
Proof.
  by eapply (ungrouped_clear g Session.request_group_id
               (Session.set_request_group_id None)).
Qed.

Ltac ustep :=
  first
  [ apply ungrouped_commit | apply ungrouped_rollback | apply ungrouped_utcnow
  | apply ungrouped_process_start | apply ungrouped_pop_worker
  | apply ungrouped_terminate | apply ungrouped_guarded
  | by apply ungrouped_same
  | by apply ungrouped_add
  | by apply ungrouped_update
  | apply ungrouped_delete_avatar | apply ungrouped_delete_avatar_group
  | apply ungrouped_delete_ic_group | apply ungrouped_delete_request_group
  | apply keeps_gets
  | kstep ].

Lemma ungrouped_load_avatar (k : option Z) : keeps ungrouped (_load_avatar_to_cache k).
Proof. unfold _load_avatar_to_cache. repeat ustep. Qed.

Lemma ungrouped_load_ic (k : option Z) : keeps ungrouped (_load_ic_to_cache k).
Proof. unfold _load_ic_to_cache. repeat ustep. Qed.

Lemma ungrouped_load_request (k : option Z) :
  keeps ungrouped (_load_request_to_cache k).
Proof. unfold _load_request_to_cache. repeat ustep. Qed.

Lemma ungrouped_spawn (s : Session.t) : keeps ungrouped (_spawn_worker_for_session s).
Proof.
  unfold _spawn_worker_for_session.
  repeat first [apply ungrouped_load_avatar | apply ungrouped_load_ic
               | apply ungrouped_load_request | ustep].
Qed.

Lemma ungrouped_end_single (final : SessionStatus.t) (j : option Z) :
  keeps ungrouped (end_single_session final j).
Proof. unfold end_single_session, get_session. repeat ustep. Qed.

Lemma ungrouped_end_time (data : Data.t) : keeps ungrouped (end_time_from data).
Proof. unfold end_time_from, timedelta_minutes, datetime_add. repeat ustep. Qed.

Lemma ungrouped_targets_avatar (a : option Z) (g : option string) :
  keeps ungrouped (_get_target_avatar_ids a g).
Proof. unfold _get_target_avatar_ids. repeat ustep. Qed.

Lemma ungrouped_targets_request (a : option Z) (g : option string) :
  keeps ungrouped (_get_target_request_ids a g).
Proof. unfold _get_target_request_ids. repeat ustep. Qed.

Ltac gstep :=
  first
  [ apply ungrouped_spawn | apply ungrouped_end_single | apply ungrouped_end_time
  | apply ungrouped_targets_avatar | apply ungrouped_targets_request
  | ustep ].

Lemma ungrouped_start_ic (data : Data.t) : keeps ungrouped (handle_start_ic data).
Proof. unfold handle_start_ic. repeat gstep. Qed.

Lemma ungrouped_start_request (data : Data.t) :
  keeps ungrouped (handle_start_request data).
Proof. unfold handle_start_request, start_request_parent. repeat gstep. Qed.

Lemma ungrouped_start_link (data : Data.t) : keeps ungrouped (handle_start_link data).
Proof. unfold handle_start_link. repeat gstep. Qed.

Lemma ungrouped_start_group (data : Data.t) :
  keeps ungrouped (handle_start_group data).
Proof. unfold handle_start_group. repeat gstep. Qed.

Lemma ungrouped_stop_session (data : Data.t) :
  keeps ungrouped (handle_stop_session data).
Proof.
  unfold handle_stop_session, is_running, child_sessions, _stop_single_session.
  repeat gstep.
Qed.

Lemma ungrouped_view_running_on (data : Data.t) :
  keeps ungrouped (handle_view_running_on data).
Proof.
  unfold handle_view_running_on, query_sessions. repeat gstep.
  match goal with |- keeps _ (mapM _ ?l) => induction l as [|x l IH] end; cbn.
  - apply keeps_ret.
  - unfold get_session. repeat first [apply IH | gstep].
Qed.

Lemma ungrouped_stop_all (l : list Session.t) : keeps ungrouped (stop_all l).
Proof. unfold stop_all, _stop_single_session. repeat gstep. Qed.

Lemma ungrouped_fail_all (l : list Session.t) : keeps ungrouped (fail_all l).
Proof. unfold fail_all, _fail_single_session. repeat gstep. Qed.

Lemma ungrouped_extend_parent (a : Avatar.t) (p : Session.t) (n : Z) :
  keeps ungrouped (extend_parent a p n).
Proof. unfold extend_parent, ic_group_of. repeat gstep. Qed.

Ltac hgstep :=
  first
  [ apply ungrouped_stop_all | apply ungrouped_fail_all
  | apply ungrouped_extend_parent | gstep ].

Lemma ungrouped_add_member (data : Data.t) :
  keeps ungrouped (handle_add_member_to_group data).
Proof.
  unfold handle_add_member_to_group, add_member_ic, add_member_avatar,
    add_member_request, avatar_group_of, query_sessions.
  repeat hgstep.
Qed.

Lemma ungrouped_remove_member (data : Data.t) :
  keeps ungrouped (handle_remove_member_from_group data).
Proof. unfold handle_remove_member_from_group, query_sessions. repeat hgstep. Qed.

Lemma ungrouped_remove_entity (data : Data.t) :
  keeps ungrouped (handle_remove_entity data).
Proof. unfold handle_remove_entity. repeat hgstep. Qed.

Lemma ungrouped_remove_group (data : Data.t) :
  keeps ungrouped (handle_remove_group data).
Proof. unfold handle_remove_group. repeat hgstep. Qed.

Lemma ungrouped_update_entity (data : Data.t) :
  keeps ungrouped (handle_update_entity data).
Proof.
  unfold handle_update_entity, update_avatar, bytes_of_ints, query_sessions,
    _stop_single_session.
  repeat hgstep.
Qed.

Lemma ungrouped_fail_all_running (data : Data.t) :
  keeps ungrouped (handle_fail_all_running_sessions data).
Proof. unfold handle_fail_all_running_sessions, query_sessions. repeat hgstep. Qed.

Lemma ungrouped_fail_on_target (data : Data.t) :
  keeps ungrouped (handle_fail_sessions_on_target data).
Proof. unfold handle_fail_sessions_on_target, query_sessions. repeat hgstep. Qed.

Lemma ungrouped_redo (data : Data.t) :
  keeps ungrouped (handle_redo_failed_sessions data).
Proof. unfold handle_redo_failed_sessions, query_sessions. repeat hgstep. Qed.

Lemma ungrouped_serve (action : string) (data : Data.t) :
  keeps ungrouped (serve action data).
Proof.
  unfold serve, ACTION_HANDLERS. apply ungrouped_guarded.
  repeat case_bool_decide;
    first [ apply keeps_ret
          | apply ungrouped_start_ic | apply ungrouped_start_request
          | apply ungrouped_start_link | apply ungrouped_start_group
          | apply ungrouped_stop_session | apply ungrouped_view_running_on
          | apply ungrouped_add_member | apply ungrouped_remove_member
          | apply ungrouped_remove_entity | apply ungrouped_remove_group
          | apply ungrouped_redo | apply ungrouped_update_entity
          | apply ungrouped_fail_on_target | apply ungrouped_fail_all_running ].
Qed.

(** X13.  Only group sessions ever refer to a request group: if in both
    copies of the store every session that is not a group session has
    [request_group_id] NULL, this is so after any command, whatever its
    name and arguments and whether it succeeds or fails.  The handlers
    write the column on the parents of [start_request] alone, and
    [redo_failed], which does not pass it on, copies leaves only. *)
Theorem request_group_stays_on_parents (action : string) (data : Data.t)
    (d : HealerDaemon) :
  ungrouped d → ungrouped (run action data d).2.
Proof.
  intros Hd. pose proof (ungrouped_serve action data d Hd) as H. unfold run.
  by destruct (serve action data d) as [[reply|e] d'].
Qed.

Lemma request_group_stays_on_parents_witness :
  ungrouped (run "redo_failed" Data.empty Scenario.group_failed).2.
Proof.
  apply (request_group_stays_on_parents "redo_failed" Data.empty
           Scenario.group_failed).
  split; apply leaves_ungrouped_list; vm_compute; reflexivity.
Defined.

(** * Failing everything that runs *)

Lemma end_running_not_running (final : SessionStatus.t) (r : Session.t) :
  Session.status r ≠ SessionStatus.RUNNING → end_running final r = r.
Proof. intros H. unfold end_running. by rewrite bool_decide_false. Qed.

(** When the keys cover every RUNNING row, every RUNNING row is ended. *)
Lemma ended_all (final : SessionStatus.t) (ids : list Z) (l : list Session.t) :
  (∀ r, r ∈ l → Session.status r = SessionStatus.RUNNING → Session.id r ∈ ids) →
  ended final ids l = map (end_running final) l.
Proof.
  intros H. unfold ended. apply map_ext_in. intros r Hr%list_elem_of_In.
  case_bool_decide as Hin; [done|]. symmetry. apply end_running_not_running.
  intros Hst. by apply Hin, H.
Qed.

Lemma map_end_running_none (final : SessionStatus.t) (l : list Session.t) :
  (∀ r, r ∈ l → Session.status r ≠ SessionStatus.RUNNING) →
  map (end_running final) l = l.
Proof.
  intros H. rewrite <- (map_id l) at 2. apply map_ext_in.
  intros r Hr%list_elem_of_In. by apply end_running_not_running, H.
Qed.

(** X12.  [fail_all_running] fails exactly the RUNNING sessions.  From a
    daemon with nothing pending and sound keys, the command succeeds; every
    row that was RUNNING is FAILED with no worker pid and has no registered
    worker, every other row is as it was, no row is RUNNING any more, the
    rest of the store, the caches and the sequence are untouched, and all of
    it is committed. *)
Theorem fail_all_running_fails_what_runs (data : Data.t) (d : HealerDaemon) :
  settled d →
  let out := run "fail_all_running" data d in
  is_success out.1 = true
  ∧ sessions (db out.2) = map (end_running SessionStatus.FAILED) (sessions (db d))
  ∧ (∀ r, r ∈ sessions (db out.2) → Session.status r ≠ SessionStatus.RUNNING)
  ∧ (∀ r, r ∈ sessions (db d) → Session.status r = SessionStatus.RUNNING →
          active_workers out.2 !! Session.id r = None)
  ∧ clean out.2
  ∧ only_sessions d out.2.
Proof.
  intros Hd out. destruct Hd as [Hclean Hkeys].
  assert (settled d) as Hd by done.
  assert (hoare (λ d', d' = d) (handle_fail_all_running_sessions data)
            (λ reply d',
               is_success reply = true
               ∧ ended_from SessionStatus.FAILED d
                   (map Session.id
                      (filter (λ r, bool_decide (Session.status r
                                                 = SessionStatus.RUNNING))
                              (sessions (db d)))) d')
            (λ _, False)) as H.
  { unfold handle_fail_all_running_sessions, guarded.
    apply hoare_try with (E' := λ _, False); [|by intros e ? []].
    eapply hoare_read; [apply (query_settled _ d Hd)|]. cbv beta.
    destruct (filter _ (sessions (db d))) as [|r0 rest].
    - apply hoare_ret. intros ? ->. split; [reflexivity|]. by apply ended_from_start.
    - eapply hoare_bind.
      + eapply hoare_conseq;
          [apply (fail_all_ends d (next_session_id d) (r0 :: rest) Hkeys)|..];
          [intros ? ->; by apply ended_from_start|done|done].
      + intros n. apply hoare_ret. intros d' Hd'. by split. }
  specialize (H d eq_refl). subst out.
  rewrite (run_handler _ handle_fail_all_running_sessions) by reflexivity.
  destruct (handle_fail_all_running_sessions data d) as [[reply|e] d']; [|done].
  cbn. destruct H as (Hok & Hc & Ho & Htbl & Hend & Hrest).
  assert (∀ r, r ∈ sessions (db d) → Session.status r = SessionStatus.RUNNING →
               Session.id r
               ∈ map Session.id
                   (filter (λ r, bool_decide (Session.status r
                                              = SessionStatus.RUNNING))
                           (sessions (db d)))) as Hrun.
  { intros r Hr Hst. apply list_elem_of_fmap. exists r. split; [done|].
    apply list_elem_of_filter. split; [|done]. by apply bool_decide_pack. }
  assert (sessions (db d') = map (end_running SessionStatus.FAILED)
                               (sessions (db d))) as E.
  { rewrite Htbl. by apply ended_all. }
  split_and!; [done|done| | |done|done].
  - intros r. rewrite E. intros (x & -> & Hx)%list_elem_of_fmap.
    by apply end_running_status.
  - intros r Hr Hst. apply Hend; [by apply Hrun|].
    unfold row. by rewrite (find_keyed _ _ _ Hkeys Hr); cbn; rewrite Hst.
Qed.

Lemma fail_all_running_fails_what_runs_witness :
  let d := Scenario.group_on_group in
  let out := run "fail_all_running" Data.empty d in
  is_success out.1 = true
  ∧ sessions (db out.2) = map (end_running SessionStatus.FAILED) (sessions (db d))
  ∧ (∀ r, r ∈ sessions (db out.2) → Session.status r ≠ SessionStatus.RUNNING)
  ∧ (∀ r, r ∈ sessions (db d) → Session.status r = SessionStatus.RUNNING →
          active_workers out.2 !! Session.id r = None)
  ∧ clean out.2
  ∧ only_sessions d out.2.
Proof.
  apply (fail_all_running_fails_what_runs Data.empty Scenario.group_on_group).
  split; [vm_compute; reflexivity | apply keyed_list; vm_compute; reflexivity].
Defined.
